(** * Discord provider of the gateway: admission policy, channel history
      and reply delivery

    A shallow embedding of the Discord monitor (the [MessageCreate]
    handler of [monitorDiscordProvider], the reaction handler, the
    [InteractionCreate] handler of the slash command, the allow-list and
    configuration functions, [deliverReplies] and [deliverSlashReplies])
    together with the properties its specification states about it and
    further properties read off the code.

    Conventions of the embedding.
    - A JavaScript string is a [string]: a sequence of code units, here the
      ones below 256.  [trim], [toLowerCase] and the regular expressions are
      written out on that range.
    - [undefined] and [null] are [None]; truthiness of a string is
      non-emptiness.
    - [Set<string>] is [gset string]; the history [Map] is a
      [gmap string (list DiscordHistoryEntry)]; configuration objects whose
      enumeration order is observed are association lists.
    - Functions imported from other modules of the gateway ([chunkText],
      [formatAgentEnvelope], [getReplyFromConfig], [sendMessageDiscord],
      [fetch], ...) are parameters: pure ones are section variables, the
      ones that answer for the outside world are fields of [Env]. *)

From stdpp Require Import gmap strings list pretty.
From Stdlib Require Import ZArith Ascii String Lia.

Local Open Scope string_scope.
Local Open Scope Z_scope.

(** ** JavaScript string primitives *)

Module Js.

(** WhiteSpace and LineTerminator code units below 256: TAB, LF, VT, FF,
    CR, SP and NBSP.  This is also the class [\s]. *)
Definition isWhiteSpace (c : ascii) : bool :=
  let n := N_of_ascii c in
  ((9 <=? n) && (n <=? 13) || (n =? 32) || (n =? 160))%N.

Definition isDigit (c : ascii) : bool :=
  let n := N_of_ascii c in ((48 <=? n) && (n <=? 57))%N.

Definition isLowerAlpha (c : ascii) : bool :=
  let n := N_of_ascii c in ((97 <=? n) && (n <=? 122))%N.

Definition lowerChar (c : ascii) : ascii :=
  let n := N_of_ascii c in
  if ((65 <=? n) && (n <=? 90)
      || (192 <=? n) && (n <=? 222) && negb (n =? 215))%N
  then ascii_of_N (n + 32) else c.

Fixpoint toLowerCase (s : string) : string :=
  match s with
  | EmptyString => EmptyString
  | String c r => String (lowerChar c) (toLowerCase r)
  end.

Definition isEmpty (s : string) : bool :=
  match s with EmptyString => true | _ => false end.

(** Truthiness of a string and of an optional string. *)
Definition truthy (s : string) : bool := negb (isEmpty s).

Definition truthyOpt (o : option string) : bool :=
  match o with Some s => truthy s | None => false end.

Fixpoint trimStart (s : string) : string :=
  match s with
  | EmptyString => EmptyString
  | String c r => if isWhiteSpace c then trimStart r else s
  end.

Fixpoint trimEnd (s : string) : string :=
  match s with
  | EmptyString => EmptyString
  | String c r =>
      let r' := trimEnd r in
      if isWhiteSpace c && isEmpty r' then EmptyString else String c r'
  end.

Definition trim (s : string) : string := trimEnd (trimStart s).

Definition startsWith (s p : string) : bool := String.prefix p s.

(** [s.slice(n)] for [0 <= n]. *)
Fixpoint slice (n : nat) (s : string) : string :=
  match n, s with
  | O, _ => s
  | S n', String _ r => slice n' r
  | S _, EmptyString => EmptyString
  end.

(** Longest prefix of characters satisfying [p], and the rest. *)
Fixpoint span (p : ascii -> bool) (s : string) : string * string :=
  match s with
  | EmptyString => (EmptyString, EmptyString)
  | String c r =>
      if p c then let '(a, b) := span p r in (String c a, b)
      else (EmptyString, s)
  end.

Fixpoint all (p : ascii -> bool) (s : string) : bool :=
  match s with
  | EmptyString => true
  | String c r => p c && all p r
  end.

(** [s.replace(/[class]+/g, "-")]: every maximal run of characters of
    the class becomes one hyphen. *)
Fixpoint replaceRuns (p : ascii -> bool) (s : string) : string :=
  match s with
  | EmptyString => EmptyString
  | String c r =>
      if p c then
        match r with
        | String c' _ =>
            if p c' then replaceRuns p r else String "-" (replaceRuns p r)
        | EmptyString => String "-" EmptyString
        end
      else String c (replaceRuns p r)
  end.

(** [s.replace(/^[class]+/, "")]. *)
Fixpoint dropWhile (p : ascii -> bool) (s : string) : string :=
  match s with
  | EmptyString => EmptyString
  | String c r => if p c then dropWhile p r else s
  end.

(** [s.replace(/[class]+$/, "")]. *)
Fixpoint dropWhileEnd (p : ascii -> bool) (s : string) : string :=
  match s with
  | EmptyString => EmptyString
  | String c r =>
      let r' := dropWhileEnd p r in
      if p c && isEmpty r' then EmptyString else String c r'
  end.

Fixpoint join (sep : string) (l : list string) : string :=
  match l with
  | [] => EmptyString
  | [x] => x
  | x :: r => x ++ sep ++ join sep r
  end.

(** [a ?? b] *)
Definition nullish {A} (a : option A) (b : A) : A :=
  match a with Some x => x | None => b end.

(** [a ?? b] where [b] may itself be undefined *)
Definition nullishOpt {A} (a b : option A) : option A :=
  match a with Some x => Some x | None => b end.

(** [a || b] on strings *)
Definition orStr (a b : string) : string := if truthy a then a else b.

End Js.

(** ** Allow lists *)

(** A raw configuration entry: [string | number].  [RawNum n] stands for
    the number [n] where it is an integer of magnitude below 2^53, which
    [String(_)] renders as its decimal digits.  Larger numbers and
    fractions, which [String(_)] renders rounded or with an exponent, are
    not represented: for them [String_] is not what the code computes. *)
Inductive RawEntry :=
| RawStr (s : string)
| RawNum (n : Z).

Definition String_ (e : RawEntry) : string :=
  match e with
  | RawStr s => s
  | RawNum n => pretty n
  end.

Record DiscordAllowList := mkAllowList {
  allowAll : bool;
  ids : gset string;
  names : gset string;
}.

Definition isSigil (c : ascii) : bool :=
  (Ascii.eqb c "@" || Ascii.eqb c "#")%char.

Definition isHyphen (c : ascii) : bool := Ascii.eqb c "-".

Definition normalizeDiscordName (value : option string) : string :=
  match value with
  | None => ""
  | Some v => if Js.isEmpty v then "" else Js.toLowerCase (Js.trim v)
  end.

Definition normalizeDiscordSlug (value : option string) : string :=
  match value with
  | None => ""
  | Some v =>
      if Js.isEmpty v then "" else
      let text := Js.toLowerCase (Js.trim v) in
      if Js.isEmpty text then "" else
      let text := Js.dropWhile isSigil text in
      let text :=
        Js.replaceRuns
          (fun c => Js.isWhiteSpace c || Ascii.eqb c "_"%char) text in
      let text :=
        Js.replaceRuns
          (fun c => negb (Js.isLowerAlpha c || Js.isDigit c || isHyphen c))
          text in
      let text := Js.replaceRuns isHyphen text in
      Js.dropWhileEnd isHyphen (Js.dropWhile isHyphen text)
  end.

(** [entry.match(/^<[@#][!]?(\d+)>$/)?.[1]] *)
Definition mentionMatch (entry : string) : option string :=
  match entry with
  | String "<"%char (String c r) =>
      if isSigil c then
        let r1 := match r with String "!"%char r' => r' | _ => r end in
        let '(ds, rest) := Js.span Js.isDigit r1 in
        if Js.truthy ds && String.eqb rest ">" then Some ds else None
      else None
  | _ => None
  end.

(** The inner [for (const prefix of prefixes)] loop with its [break]. *)
Fixpoint stripPrefix (prefixes : list string) (entry : string) : string :=
  match prefixes with
  | [] => entry
  | prefix :: rest =>
      if Js.startsWith (Js.toLowerCase entry) prefix
      then Js.slice (String.length prefix) entry
      else stripPrefix rest entry
  end.

(** The three mutable locals of [normalizeDiscordAllowList]. *)
Record AllowAcc := mkAcc {
  acc_allowAll : bool;
  acc_ids : gset string;
  acc_names : gset string;
}.

Definition addIf (s : string) (names : gset string) : gset string :=
  if Js.truthy s then {[ s ]} ∪ names else names.

(** One iteration of the [for (const rawEntry of raw)] loop. *)
Definition allowListStep (prefixes : list string) (acc : AllowAcc)
    (rawEntry : RawEntry) : AllowAcc :=
  let entry := Js.trim (String_ rawEntry) in
  if Js.isEmpty entry then acc
  else if String.eqb entry "*" then
    mkAcc true (acc_ids acc) (acc_names acc)
  else
    let entry := stripPrefix prefixes entry in
    match mentionMatch entry with
    | Some id =>
        mkAcc (acc_allowAll acc) ({[ id ]} ∪ acc_ids acc) (acc_names acc)
    | None =>
        let entry := Js.trim entry in
        let entry :=
          if Js.startsWith entry "@" || Js.startsWith entry "#"
          then Js.slice 1 entry else entry in
        if Js.truthy entry && Js.all Js.isDigit entry then
          mkAcc (acc_allowAll acc) ({[ entry ]} ∪ acc_ids acc) (acc_names acc)
        else
          let normalized := normalizeDiscordName (Some entry) in
          let names := addIf normalized (acc_names acc) in
          let slugged := normalizeDiscordSlug (Some entry) in
          let names := addIf slugged names in
          mkAcc (acc_allowAll acc) (acc_ids acc) names
    end.

Definition allowListLoop (prefixes : list string) (raw : list RawEntry)
    (acc : AllowAcc) : AllowAcc :=
  fold_left (allowListStep prefixes) raw acc.

Definition isEmptySet (s : gset string) : bool := bool_decide (s = ∅).

Definition normalizeDiscordAllowList (raw : option (list RawEntry))
    (prefixes : list string) : option DiscordAllowList :=
  match raw with
  | None => None
  | Some [] => None
  | Some raw =>
      let acc := allowListLoop prefixes raw (mkAcc false ∅ ∅) in
      if negb (acc_allowAll acc) && isEmptySet (acc_ids acc)
         && isEmptySet (acc_names acc)
      then None
      else Some (mkAllowList (acc_allowAll acc) (acc_ids acc) (acc_names acc))
  end.

Record Candidates := mkCand {
  cand_id : option string;
  cand_name : option string;
  cand_tag : option string;
}.

Definition hasStr (s : gset string) (x : string) : bool :=
  bool_decide (x ∈ s).

Definition allowListMatches (allowList : DiscordAllowList)
    (candidates : Candidates) : bool :=
  if allowAll allowList then true else
  let id := cand_id candidates in
  let name := cand_name candidates in
  let tag := cand_tag candidates in
  if Js.truthyOpt id && hasStr (ids allowList) (Js.nullish id "") then true else
  let normalizedName := normalizeDiscordName name in
  if Js.truthy normalizedName && hasStr (names allowList) normalizedName
  then true else
  let normalizedTag := normalizeDiscordName tag in
  if Js.truthy normalizedTag && hasStr (names allowList) normalizedTag
  then true else
  let slugName := normalizeDiscordSlug name in
  if Js.truthy slugName && hasStr (names allowList) slugName then true else
  let slugTag := normalizeDiscordSlug tag in
  if Js.truthy slugTag && hasStr (names allowList) slugTag then true else
  false.

(** ** Guild and channel configuration *)

Inductive ReactionMode := ReactOff | ReactOwn | ReactAll | ReactAllowlist.

Record ChannelEntry := mkChannelEntry {
  ce_allow : option bool;
  ce_requireMention : option bool;
}.

(** [DiscordGuildEntryResolved]; a configured guild entry has the same
    shape, with [ge_id] unset. *)
Record DiscordGuildEntryResolved := mkGuildEntry {
  ge_id : option string;
  ge_slug : option string;
  ge_requireMention : option bool;
  ge_reactionNotifications : option ReactionMode;
  ge_users : option (list RawEntry);
  ge_channels : option (gmap string ChannelEntry);
}.

Record DiscordChannelConfigResolved := mkChannelConfig {
  cc_allowed : bool;
  cc_requireMention : option bool;
}.

Record Guild := mkGuild {
  guild_id : string;
  guild_name : string;
}.

(** [Record<string, DiscordGuildEntryResolved>]: own keys in enumeration
    order, each key once. *)
Definition GuildEntries := list (string * DiscordGuildEntryResolved).

(** The own property [key] of the configured entries. *)
Fixpoint ownEntry (entries : GuildEntries) (key : string)
  : option DiscordGuildEntryResolved :=
  match entries with
  | [] => None
  | (k, e) :: rest => if String.eqb k key then Some e else ownEntry rest key
  end.

(** The property names a plain object inherits from [Object.prototype].
    The configuration objects are plain objects, so [entries[key]] finds
    the inherited function (or, for [__proto__], the prototype) when
    [entries] has no own property of that name. *)
Definition inheritedKeys : list string :=
  ["constructor"; "hasOwnProperty"; "isPrototypeOf";
   "propertyIsEnumerable"; "toLocaleString"; "toString"; "valueOf";
   "__proto__"; "__defineGetter__"; "__defineSetter__";
   "__lookupGetter__"; "__lookupSetter__"].

Definition isInheritedKey (key : string) : bool :=
  existsb (String.eqb key) inheritedKeys.

(** What the fields of a guild entry read on an inherited value: each of
    them is [undefined]. *)
Definition inheritedEntry : DiscordGuildEntryResolved :=
  mkGuildEntry None None None None None None.

(** [guildEntries[key]]: the own property, or else the inherited one. *)
Definition getEntry (entries : GuildEntries) (key : string)
  : option DiscordGuildEntryResolved :=
  match ownEntry entries key with
  | Some e => Some e
  | None => if isInheritedKey key then Some inheritedEntry else None
  end.

Definition resolvedFrom (guildId guildSlug : string)
    (entry : DiscordGuildEntryResolved) : DiscordGuildEntryResolved :=
  {| ge_id := Some guildId;
     ge_slug := Some (Js.nullish (ge_slug entry) guildSlug);
     ge_requireMention := ge_requireMention entry;
     ge_reactionNotifications := ge_reactionNotifications entry;
     ge_users := ge_users entry;
     ge_channels := ge_channels entry |}.

Definition resolveDiscordGuildEntry (guild : option Guild)
    (guildEntries : option GuildEntries) : option DiscordGuildEntryResolved :=
  match guild, guildEntries with
  | Some guild, Some ((_ :: _) as guildEntries) =>
      let guildId := guild_id guild in
      let guildSlug := normalizeDiscordSlug (Some (guild_name guild)) in
      match getEntry guildEntries guildId with
      | Some direct => Some (resolvedFrom guildId guildSlug direct)
      | None =>
          match (if Js.truthy guildSlug then getEntry guildEntries guildSlug
                 else None) with
          | Some entry => Some (resolvedFrom guildId guildSlug entry)
          | None =>
              let matchBySlug :=
                List.find
                  (fun '(_, entry) =>
                     let entrySlug := normalizeDiscordSlug (ge_slug entry) in
                     Js.truthy entrySlug && String.eqb entrySlug guildSlug)
                  guildEntries in
              match matchBySlug with
              | Some (_, entry) => Some (resolvedFrom guildId guildSlug entry)
              | None =>
                  match getEntry guildEntries "*" with
                  | Some wildcard =>
                      Some (resolvedFrom guildId guildSlug wildcard)
                  | None => None
                  end
              end
          end
      end
  | _, _ => None
  end.

Definition mapNonEmpty {V} (m : gmap string V) : bool :=
  negb (bool_decide (m = ∅)).

(** [channelEntries[key]]: the own property, or else the inherited one,
    whose [allow] and [requireMention] read [undefined]. *)
Definition getChannel (channelEntries : gmap string ChannelEntry)
    (key : string) : option ChannelEntry :=
  match channelEntries !! key with
  | Some e => Some e
  | None => if isInheritedKey key then Some (mkChannelEntry None None)
            else None
  end.

Definition resolveDiscordChannelConfig
    (guildInfo : option DiscordGuildEntryResolved) (channelId : string)
    (channelName : option string) (channelSlug : string)
  : option DiscordChannelConfigResolved :=
  let channelEntries :=
    match guildInfo with Some g => ge_channels g | None => None end in
  match channelEntries with
  | Some channelEntries =>
      if mapNonEmpty channelEntries then
        let entry :=
          Js.nullishOpt (getChannel channelEntries channelId)
            (Js.nullishOpt
               (if Js.truthy channelSlug
                then Js.nullishOpt (getChannel channelEntries channelSlug)
                       (getChannel channelEntries ("#" ++ channelSlug))
                else None)
               (if Js.truthyOpt channelName
                then getChannel channelEntries
                       (normalizeDiscordSlug channelName)
                else None)) in
        match entry with
        | None => Some (mkChannelConfig false None)
        | Some entry =>
            Some (mkChannelConfig
                    (negb (bool_decide (ce_allow entry = Some false)))
                    (ce_requireMention entry))
        end
      else Some (mkChannelConfig true None)
  | None => Some (mkChannelConfig true None)
  end.

Definition resolveGroupDmAllow (channels : option (list RawEntry))
    (channelId : string) (channelName : option string)
    (channelSlug : string) : bool :=
  match channels with
  | None | Some [] => true
  | Some _ =>
      match normalizeDiscordAllowList channels ["channel:"] with
      | None => true
      | Some allowList =>
          allowListMatches allowList
            (mkCand (Some channelId)
               (if Js.truthy channelSlug then Some channelSlug
                else channelName)
               None)
      end
  end.

(** ** Reply threading and delivery *)

(** [ReplyToMode] is declared in the configuration module; the monitor
    tells ["off"] and ["all"] from every other value. *)
Inductive ReplyToMode := ReplyOff | ReplyFirst | ReplyAll.

Definition resolveDiscordReplyTarget (replyToMode : ReplyToMode)
    (replyToId : option string) (hasReplied : bool) : option string :=
  match replyToMode with
  | ReplyOff => None
  | _ =>
      let replyToId := Js.trim <$> replyToId in
      if negb (Js.truthyOpt replyToId) then None
      else
        match replyToMode with
        | ReplyAll => replyToId
        | _ => if hasReplied then None else replyToId
        end
  end.

Record ReplyPayload := mkPayload {
  text : option string;
  mediaUrl : option string;
  mediaUrls : option (list string);
  replyToId : option string;
}.

(** One call
    [sendMessageDiscord(target, text, { token, mediaUrl, replyTo })]. *)
Record OutboundSend := mkSend {
  send_target : string;
  send_text : string;
  send_token : string;
  send_mediaUrl : option string;
  send_replyTo : option string;
}.

(** Code that sends: it appends to the log of completed sends and either
    returns or throws. *)
Inductive Res (A : Type) :=
| Ok (a : A)
| Threw.
Arguments Ok {A} a.
Arguments Threw {A}.

Definition Sending (A : Type) : Type :=
  list OutboundSend -> Res A * list OutboundSend.

Definition ret {A} (a : A) : Sending A := fun log => (Ok a, log).

Definition bind {A B} (m : Sending A) (k : A -> Sending B) : Sending B :=
  fun log =>
    match m log with
    | (Ok a, log') => k a log'
    | (Threw, log') => (Threw, log')
    end.

Notation "x <- m ;; k" := (bind m (fun x => k))
  (at level 100, m at next level, right associativity).

(** [for (const x of xs) body], threading the locals the body assigns. *)
Fixpoint forEach {X S} (xs : list X) (body : X -> S -> Sending S) (s : S)
  : Sending S :=
  match xs with
  | [] => ret s
  | x :: rest => s' <- body x s ;; forEach rest body s'
  end.

Section Delivery.

(** [chunkText] of the auto-reply module. *)
Variable chunkText : string -> Z -> list string.

(** Whether a given [sendMessageDiscord] call resolves. *)
Variable sendResolves : OutboundSend -> bool.

Definition sendMessageDiscord (s : OutboundSend) : Sending unit :=
  fun log =>
    if sendResolves s then (Ok tt, (log ++ [s])%list) else (Threw, log).

Definition mediaListOf (payload : ReplyPayload) : list string :=
  match mediaUrls payload with
  | Some l => l
  | None =>
      match mediaUrl payload with
      | Some u => if Js.truthy u then [u] else []
      | None => []
      end
  end.

Definition markReplied (replyTo : option string) (hasReplied : bool)
  : bool :=
  if Js.truthyOpt replyTo && negb hasReplied then true else hasReplied.

Section OneCall.

Variables (target token : string) (replyToMode : ReplyToMode)
          (chunkLimit : Z).

(** Body of the loop over the chunks of a text-only payload. *)
Definition sendChunk (replyToId : option string) (chunk : string)
    (hasReplied : bool) : Sending bool :=
  let replyTo :=
    resolveDiscordReplyTarget replyToMode replyToId hasReplied in
  _ <- sendMessageDiscord (mkSend target chunk token None replyTo) ;;
  ret (markReplied replyTo hasReplied).

(** Body of the loop over the media of a payload; the locals are
    [first] and [hasReplied]. *)
Definition sendMedia (text : string) (replyToId : option string)
    (mediaUrl : string) (st : bool * bool) : Sending (bool * bool) :=
  let '(first, hasReplied) := st in
  let caption := if first then text else "" in
  let replyTo :=
    resolveDiscordReplyTarget replyToMode replyToId hasReplied in
  _ <- sendMessageDiscord
         (mkSend target caption token (Some mediaUrl) replyTo) ;;
  ret (false, markReplied replyTo hasReplied).

(** Body of [for (const payload of replies)]. *)
Definition deliverPayload (payload : ReplyPayload) (hasReplied : bool)
  : Sending bool :=
  let mediaList := mediaListOf payload in
  let text := Js.nullish (text payload) "" in
  let replyToId := replyToId payload in
  match mediaList with
  | [] =>
      if Js.isEmpty text then ret hasReplied
      else forEach (chunkText text chunkLimit) (sendChunk replyToId)
             hasReplied
  | _ :: _ =>
      st <- forEach mediaList (sendMedia text replyToId)
              (true, hasReplied) ;;
      ret (snd st)
  end.

End OneCall.

Definition deliverReplies (replies : list ReplyPayload)
    (target token : string) (replyToMode : ReplyToMode) (textLimit : Z)
  : Sending unit :=
  let chunkLimit := Z.min textLimit 2000 in
  _ <- forEach replies (deliverPayload target token replyToMode chunkLimit)
         false ;;
  ret tt.

End Delivery.

(** ** Messages, configuration and the outside world *)

Record User := mkUser {
  user_id : string;
  user_username : string;
  user_tag : string;
  user_bot : bool;
}.

(** [message.channel.type], as far as the monitor tells the values apart. *)
Inductive ChannelType := ChDM | ChGroupDM | ChOtherChannel.

Inductive MessageType :=
| MtDefault | MtReply | MtChatInputCommand | MtContextMenuCommand
| MtChannelPinnedMessage | MtRecipientAdd | MtRecipientRemove | MtUserJoin
| MtGuildBoost | MtGuildBoostTier1 | MtGuildBoostTier2 | MtGuildBoostTier3
| MtThreadCreated | MtAutoModerationAction
| MtGuildIncidentAlertModeEnabled | MtGuildIncidentAlertModeDisabled
| MtGuildIncidentReportRaid | MtGuildIncidentReportFalseAlarm
| MtStageStart | MtStageEnd | MtStageSpeaker | MtStageTopic
| MtPollResult | MtPurchaseNotification | MtOtherType.

Record Attachment := mkAttachment {
  att_url : string;
  att_contentType : option string;
  att_name : option string;
}.

Record Embed := mkEmbed { embed_description : option string }.

Record MessageSnapshot := mkSnapshot {
  snap_content : option string;
  snap_embeds : list Embed;
  snap_type : option Z;
  snap_createdTimestamp : option Z;
}.

Record MessageReference := mkReference {
  ref_messageId : option string;
  ref_channelId : option string;
  ref_guildId : option string;
}.

Record Message := mkMessage {
  msg_id : string;
  msg_author : option User;
  msg_channelType : ChannelType;
  (** [None] when the channel object has no [name] property, otherwise its
      value, which may be null. *)
  msg_channelName : option (option string);
  msg_guild : option Guild;
  msg_channelId : string;
  msg_type : MessageType;
  msg_content : option string;
  msg_attachments : list Attachment;
  msg_embeds : list Embed;
  msg_mentionsHas : string -> bool;
  msg_memberDisplayName : option string;
  msg_createdTimestamp : Z;
  msg_snapshots : list MessageSnapshot;
  msg_reference : option MessageReference;
}.

Record DiscordHistoryEntry := mkHistoryEntry {
  he_sender : string;
  he_body : string;
  he_timestamp : option Z;
  he_messageId : option string;
}.

Record MonitorDiscordOpts := mkOpts {
  opt_mediaMaxMb : option Z;
  opt_historyLimit : option Z;
  opt_replyToMode : option ReplyToMode;
}.

(** [cfg.discord], with [dm] flattened. *)
Record DiscordConfig := mkDiscordConfig {
  dc_mediaMaxMb : option Z;
  dc_historyLimit : option Z;
  dc_replyToMode : option ReplyToMode;
  dc_dmEnabled : option bool;
  dc_dmGroupEnabled : option bool;
  dc_dmAllowFrom : option (list RawEntry);
  dc_dmGroupChannels : option (list RawEntry);
  dc_guilds : option GuildEntries;
}.

(** The constants [monitorDiscordProvider] computes before it subscribes. *)
Record Setup := mkSetup {
  token : string;
  allowFrom : option (list RawEntry);
  guildEntries : option GuildEntries;
  mediaMaxBytes : Z;
  textLimit : Z;
  historyLimit : Z;
  replyToMode : ReplyToMode;
  dmEnabled : bool;
  groupDmEnabled : bool;
  groupDmChannels : option (list RawEntry);
  mainKey : string;
}.

Definition monitorSetup (token : string) (textLimit : Z) (mainKey : string)
    (opts : MonitorDiscordOpts) (discord : DiscordConfig) : Setup :=
  {| token := token;
     allowFrom := dc_dmAllowFrom discord;
     guildEntries := dc_guilds discord;
     mediaMaxBytes :=
       Js.nullish (Js.nullishOpt (opt_mediaMaxMb opts) (dc_mediaMaxMb discord))
         8 * 1024 * 1024;
     textLimit := textLimit;
     historyLimit :=
       Z.max 0
         (Js.nullish
            (Js.nullishOpt (opt_historyLimit opts) (dc_historyLimit discord))
            20);
     replyToMode :=
       Js.nullish
         (Js.nullishOpt (opt_replyToMode opts) (dc_replyToMode discord))
         ReplyOff;
     dmEnabled := Js.nullish (dc_dmEnabled discord) true;
     groupDmEnabled := Js.nullish (dc_dmGroupEnabled discord) false;
     groupDmChannels := dc_dmGroupChannels discord;
     mainKey := mainKey |}.

Record Envelope := mkEnvelope {
  env_surface : string;
  env_from : string;
  env_timestamp : option Z;
  env_body : string;
}.

(** The [ctxPayload] handed to the reply generator. *)
Record MsgContext := mkContext {
  Body : string;
  From : string;
  To : string;
  ChatType : string;
  SenderName : string;
  SenderUsername : string;
  SenderTag : string;
  GroupSubject : option string;
  GroupRoom : option string;
  GroupSpace : option string;
  Surface : string;
  WasMentioned : bool;
  MessageSid : string;
  Timestamp : Z;
  MediaPath : option string;
  MediaType : option string;
  MediaUrl : option string;
}.

Record Response := mkResponse {
  res_status : Z;
  res_body : string;
  res_contentType : option string;
}.

(** [res.ok]: the status is in the range 200-299. *)
Definition res_ok (res : Response) : bool :=
  (200 <=? res_status res) && (res_status res <=? 299).

Record SavedMedia := mkSaved {
  saved_path : string;
  saved_contentType : option string;
}.

Record DiscordMediaInfo := mkMediaInfo {
  media_path : string;
  media_contentType : option string;
  media_placeholder : string;
}.

(** What [getReplyFromConfig] returns: null, one payload or an array. *)
Inductive ReplyResult :=
| NoReply
| OneReply (payload : ReplyPayload)
| ManyReplies (payloads : list ReplyPayload).

(** One run of the reply generator: the payloads it hands to
    [onBlockReply], in order, and then its result or its failure. *)
Record Generation := mkGeneration {
  gen_blocks : list ReplyPayload;
  gen_result : Res ReplyResult;
}.

(** The answers of the outside world during one event. *)
Record Env := mkEnv {
  botId : option string;
  fetch : string -> Res Response;
  detectMime : string -> option string -> string -> option string;
  saveMediaBuffer : string -> option string -> Z -> Res SavedMedia;
  fetchReference : Message -> Res (option Message);
  updateLastRoute : string -> string -> bool;
  getReplyFromConfig : MsgContext -> Generation;
  sendResolves : OutboundSend -> bool;
}.

Inductive DropReason :=
| BotAuthor | NoAuthor | GroupDmDisabled | DmDisabled | CommandMessage
| GuildNotListed | GroupDmNotAllowed | ChannelNotAllowed | NoMention
| GuildSenderNotAllowed | DmSenderNotAllowed | EmptyContent
| MissingReplyTarget.

Inductive HandlerError :=
| MediaDownloadFailed (status : Z)
| ExternalFailure (callee : string).

(** How the handler ended: an early [return], the system-event path, the
    [catch] of the handler, a turn without final replies, or the end of the
    final delivery. *)
Inductive Ending :=
| Dropped (why : DropReason)
| SystemEventQueued
| HandlerFailed (err : HandlerError)
| NoFinalReplies
| FinalDelivered.

Record Outcome := mkOutcome {
  out_histories : gmap string (list DiscordHistoryEntry);
  out_sends : list OutboundSend;
  out_generated : option MsgContext;
  out_systemEvents : list (string * string);
  out_lastRoute : option (string * string);
  out_ending : Ending;
}.

(** ** The [MessageCreate] handler *)

Definition orStrOpt (a : option string) (b : string) : string :=
  match a with
  | Some s => if Js.truthy s then s else b
  | None => b
  end.

Definition inferPlaceholder (attachment : Attachment) : string :=
  let mime := Js.nullish (att_contentType attachment) "" in
  if Js.startsWith mime "image/" then "<media:image>"
  else if Js.startsWith mime "video/" then "<media:video>"
  else if Js.startsWith mime "audio/" then "<media:audio>"
  else "<media:document>".

Definition firstDescription (embeds : list Embed) : option string :=
  match embeds with
  | e :: _ => embed_description e
  | [] => None
  end.

Definition resolveDiscordMessageText (message : Message)
    (fallbackText : option string) : string :=
  orStrOpt (Js.trim <$> msg_content message)
    (Js.orStr
       (match msg_attachments message with
        | attachment :: _ => inferPlaceholder attachment
        | [] => ""
        end)
       (orStrOpt (firstDescription (msg_embeds message))
          (orStrOpt (Js.trim <$> fallbackText) ""))).

Definition resolveDiscordSnapshotText (snapshot : MessageSnapshot) : string :=
  orStrOpt (Js.trim <$> snap_content snapshot)
    (orStrOpt (firstDescription (snap_embeds snapshot)) "").

Record Forwarded := mkForwarded {
  fw_snapshot : MessageSnapshot;
  fw_messageId : option string;
  fw_channelId : option string;
  fw_guildId : option string;
}.

Definition resolveForwardedSnapshot (message : Message) : option Forwarded :=
  match msg_snapshots message with
  | [] => None
  | snapshot :: _ =>
      let reference := msg_reference message in
      Some (mkForwarded snapshot
              (reference ≫= ref_messageId)
              (reference ≫= ref_channelId)
              (reference ≫= ref_guildId))
  end.

Definition isGroupDm (message : Message) : bool :=
  match msg_channelType message with ChGroupDM => true | _ => false end.

Definition isDirectMessage (message : Message) : bool :=
  match msg_channelType message with ChDM => true | _ => false end.

Definition isGuildMessage (message : Message) : bool :=
  match msg_guild message with Some _ => true | None => false end.

(** Interpolation of a value that may be null into a template string. *)
Definition showOpt (o : option string) : string := Js.nullish o "null".

(** ["name" in message.channel ? message.channel.name : message.channelId],
    interpolated. *)
Definition channelLabel (message : Message) : string :=
  match msg_channelName message with
  | Some name => showOpt name
  | None => msg_channelId message
  end.

Definition buildDirectLabel (author : User) : string :=
  user_tag author ++ " user id:" ++ user_id author.

Definition buildGuildLabel (message : Message) : string :=
  Js.nullish (guild_name <$> msg_guild message) "Guild"
  ++ " #" ++ channelLabel message
  ++ " channel id:" ++ msg_channelId message.

Definition buildDiscordSystemEvent (message : Message) (action : string)
  : string :=
  let location :=
    match msg_guild message with
    | Some g =>
        if Js.truthy (guild_name g)
        then guild_name g ++ " #" ++ channelLabel message
        else if isGroupDm message
             then "Group DM #" ++ channelLabel message else "DM"
    | None =>
        if isGroupDm message
        then "Group DM #" ++ channelLabel message else "DM"
    end in
  let actor :=
    match msg_author message with
    | Some a => if Js.truthy (user_tag a) then user_tag a ++ " " else ""
    | None => ""
    end in
  "Discord system: " ++ actor ++ action ++ " in " ++ location.

Definition systemAction (t : MessageType) : option string :=
  match t with
  | MtChannelPinnedMessage => Some "pinned a message"
  | MtRecipientAdd => Some "added a recipient"
  | MtRecipientRemove => Some "removed a recipient"
  | MtUserJoin => Some "user joined"
  | MtGuildBoost => Some "boosted the server"
  | MtGuildBoostTier1 => Some "boosted the server (Tier 1 reached)"
  | MtGuildBoostTier2 => Some "boosted the server (Tier 2 reached)"
  | MtGuildBoostTier3 => Some "boosted the server (Tier 3 reached)"
  | MtThreadCreated => Some "created a thread"
  | MtAutoModerationAction => Some "auto moderation action"
  | MtGuildIncidentAlertModeEnabled => Some "raid protection enabled"
  | MtGuildIncidentAlertModeDisabled => Some "raid protection disabled"
  | MtGuildIncidentReportRaid => Some "raid reported"
  | MtGuildIncidentReportFalseAlarm => Some "raid report marked false alarm"
  | MtStageStart => Some "stage started"
  | MtStageEnd => Some "stage ended"
  | MtStageSpeaker => Some "stage speaker updated"
  | MtStageTopic => Some "stage topic updated"
  | MtPollResult => Some "poll results posted"
  | MtPurchaseNotification => Some "purchase notification"
  | _ => None
  end.

Definition resolveDiscordSystemEvent (message : Message) : option string :=
  buildDiscordSystemEvent message <$> systemAction (msg_type message).

(** The [while (history.length > historyLimit) history.shift()] loop. *)
Fixpoint shiftWhileOver {A} (limit : Z) (history : list A) : list A :=
  match history with
  | [] => []
  | _ :: rest =>
      if Z.of_nat (List.length history) >? limit
      then shiftWhileOver limit rest else history
  end.

(** [history.push(entry)] followed by the eviction loop. *)
Definition pushBounded {A} (limit : Z) (history : list A) (entry : A)
  : list A :=
  shiftWhileOver limit (history ++ [entry])%list.

(** [history.slice(0, -1)] *)
Definition dropLast {A} (l : list A) : list A := removelast l.

Definition isCommandType (t : MessageType) : bool :=
  match t with
  | MtChatInputCommand | MtContextMenuCommand => true
  | _ => false
  end.

Definition senderCandidates (author : User) : Candidates :=
  mkCand (Some (user_id author)) (Some (user_username author))
    (Some (user_tag author)).

Definition userPrefixes : list string := ["discord:"; "user:"].

Abbreviation Histories := (gmap string (list DiscordHistoryEntry)).

Definition nl : string := String (ascii_of_nat 10) EmptyString.

Section Monitor.

(** [chunkText] and [formatAgentEnvelope] of the auto-reply module. *)
Variable chunkText : string -> Z -> list string.
Variable formatAgentEnvelope : Envelope -> string.

Variable cfg : Setup.

(** *** Locals computed from the message *)

Definition wasMentioned (env : Env) (message : Message) : bool :=
  negb (isDirectMessage message)
  && match botId env with
     | Some bot => Js.truthy bot && msg_mentionsHas message bot
     | None => false
     end.

Definition forwardedTextOf (message : Message) : string :=
  match resolveForwardedSnapshot message with
  | Some fw => resolveDiscordSnapshotText (fw_snapshot fw)
  | None => ""
  end.

Definition baseTextOf (message : Message) : string :=
  resolveDiscordMessageText message (Some (forwardedTextOf message)).

Definition guildInfoOf (message : Message)
  : option DiscordGuildEntryResolved :=
  if isGuildMessage message
  then resolveDiscordGuildEntry (msg_guild message) (guildEntries cfg)
  else None.

Definition channelNameOf (message : Message) : option string :=
  if isGuildMessage message || isGroupDm message
  then match msg_channelName message with
       | Some name => name
       | None => None
       end
  else None.

Definition channelSlugOf (message : Message) : string :=
  if Js.truthyOpt (channelNameOf message)
  then normalizeDiscordSlug (channelNameOf message) else "".

Definition guildSlugOf (message : Message) : string :=
  orStrOpt (guildInfoOf message ≫= ge_slug)
    (match msg_guild message with
     | Some g =>
         if Js.truthy (guild_name g)
         then normalizeDiscordSlug (Some (guild_name g)) else ""
     | None => ""
     end).

Definition channelConfigOf (message : Message)
  : option DiscordChannelConfigResolved :=
  if isGuildMessage message
  then resolveDiscordChannelConfig (guildInfoOf message)
         (msg_channelId message) (channelNameOf message)
         (channelSlugOf message)
  else None.

Definition groupDmAllowedOf (message : Message) : bool :=
  isGroupDm message
  && resolveGroupDmAllow (groupDmChannels cfg) (msg_channelId message)
       (channelNameOf message) (channelSlugOf message).

Definition hasEntries {A} (l : option (list A)) : bool :=
  match l with Some (_ :: _) => true | _ => false end.

(** [channelConfig?.requireMention ?? guildInfo?.requireMention ?? true] *)
Definition resolvedRequireMention (message : Message) : bool :=
  Js.nullish
    (Js.nullishOpt (channelConfigOf message ≫= cc_requireMention)
       (guildInfoOf message ≫= ge_requireMention))
    true.

(** *** The checks before the history step *)

Definition screenBeforeHistory (message : Message) : option DropReason :=
  if isGroupDm message && negb (groupDmEnabled cfg)
  then Some GroupDmDisabled
  else if isDirectMessage message && negb (dmEnabled cfg)
  then Some DmDisabled
  else if isGuildMessage message && isCommandType (msg_type message)
  then Some CommandMessage
  else if isGuildMessage message && hasEntries (guildEntries cfg)
          && negb (bool_decide (is_Some (guildInfoOf message)))
  then Some GuildNotListed
  else if isGroupDm message && negb (groupDmAllowedOf message)
  then Some GroupDmNotAllowed
  else if isGuildMessage message
          && bool_decide (cc_allowed <$> channelConfigOf message
                          = Some false)
  then Some ChannelNotAllowed
  else None.

(** *** The history step *)

Definition historyEntryOf (message : Message) (author : User)
  : DiscordHistoryEntry :=
  {| he_sender :=
       Js.nullish (msg_memberDisplayName message) (user_tag author);
     he_body := baseTextOf message;
     he_timestamp := Some (msg_createdTimestamp message);
     he_messageId := Some (msg_id message) |}.

Definition recordsHistory (message : Message) : bool :=
  isGuildMessage message && (historyLimit cfg >? 0)
  && Js.truthy (baseTextOf message).

Definition recordHistory (message : Message) (author : User)
    (guildHistories : Histories) : Histories :=
  if recordsHistory message then
    let history :=
      Js.nullish (guildHistories !! msg_channelId message) [] in
    <[ msg_channelId message :=
         pushBounded (historyLimit cfg) history
           (historyEntryOf message author) ]> guildHistories
  else guildHistories.

(** *** The checks after the history step *)

Definition guildSenderOk (message : Message) (author : User) : bool :=
  match guildInfoOf message ≫= ge_users with
  | Some ((_ :: _) as userAllow) =>
      match normalizeDiscordAllowList (Some userAllow) userPrefixes with
      | None => true
      | Some users => allowListMatches users (senderCandidates author)
      end
  | _ => true
  end.

Definition dmSenderPermitted (author : User) : bool :=
  match allowFrom cfg with
  | Some ((_ :: _) as allowFrom) =>
      match normalizeDiscordAllowList (Some allowFrom) userPrefixes with
      | None => false
      | Some allowList =>
          allowListMatches allowList (senderCandidates author)
      end
  | _ => true
  end.

Definition screenAfterHistory (env : Env) (message : Message)
    (author : User) : option DropReason :=
  if isGuildMessage message && resolvedRequireMention message
     && Js.truthyOpt (botId env) && negb (wasMentioned env message)
  then Some NoMention
  else if isGuildMessage message && negb (guildSenderOk message author)
  then Some GuildSenderNotAllowed
  else if isDirectMessage message && negb (dmSenderPermitted author)
  then Some DmSenderNotAllowed
  else None.

(** *** Media *)

Definition resolveMedia (env : Env) (message : Message) (maxBytes : Z)
  : HandlerError + option DiscordMediaInfo :=
  match msg_attachments message with
  | [] => inr None
  | attachment :: _ =>
      match fetch env (att_url attachment) with
      | Threw => inl (ExternalFailure "fetch")
      | Ok res =>
          if negb (res_ok res)
          then inl (MediaDownloadFailed (res_status res))
          else
            let buffer := res_body res in
            let mime :=
              detectMime env buffer
                (Js.nullishOpt (att_contentType attachment)
                   (res_contentType res))
                (Js.nullish (att_name attachment) (att_url attachment)) in
            match saveMediaBuffer env buffer mime maxBytes with
            | Threw => inl (ExternalFailure "saveMediaBuffer")
            | Ok saved =>
                inr (Some (mkMediaInfo (saved_path saved)
                             (saved_contentType saved)
                             (inferPlaceholder attachment)))
            end
      end
  end.

(** [message.content?.trim() ?? media?.placeholder
     ?? message.embeds[0]?.description ?? (forwarded ? ... : "")] *)
Definition turnText (message : Message) (media : option DiscordMediaInfo)
  : string :=
  Js.nullish
    (Js.nullishOpt (Js.trim <$> msg_content message)
       (Js.nullishOpt (media_placeholder <$> media)
          (firstDescription (msg_embeds message))))
    (match resolveForwardedSnapshot message with
     | Some _ => "<forwarded message>"
     | None => ""
     end).

(** *** The body handed to the agent *)

Definition historyLine (message : Message) (fromLabel : string)
    (entry : DiscordHistoryEntry) : string :=
  formatAgentEnvelope
    (mkEnvelope "Discord" fromLabel (he_timestamp entry)
       (he_sender entry ++ ": " ++ he_body entry
        ++ " [id:" ++ Js.nullish (he_messageId entry) "unknown"
        ++ " channel:" ++ msg_channelId message ++ "]")).

(** The entries rendered as context: the stored history without its last
    element. *)
Definition historyWithoutCurrent (message : Message)
    (guildHistories : Histories) : list DiscordHistoryEntry :=
  let history :=
    if historyLimit cfg >? 0
    then Js.nullish (guildHistories !! msg_channelId message) []
    else [] in
  match history with
  | [] => []
  | _ :: _ => dropLast history
  end.

Definition fromLabelOf (message : Message) (author : User) : string :=
  if isDirectMessage message then buildDirectLabel author
  else buildGuildLabel message.

Definition withHistory (message : Message) (author : User)
    (guildHistories : Histories) (combinedBody : string) : string :=
  if isDirectMessage message then combinedBody
  else
    let combinedBody :=
      match historyWithoutCurrent message guildHistories with
      | [] => combinedBody
      | entries =>
          let historyText :=
            Js.join nl
              (map (historyLine message (fromLabelOf message author))
                 entries) in
          "[Chat messages since your last reply - for context]" ++ nl
          ++ historyText ++ nl ++ nl
          ++ "[Current message - respond to this]" ++ nl ++ combinedBody
      end in
    combinedBody ++ nl ++ "[from: " ++ user_tag author
    ++ " user id:" ++ user_id author ++ "]".

Definition resolveReplyContext (env : Env) (message : Message)
  : option string :=
  if negb (Js.truthyOpt (msg_reference message ≫= ref_messageId))
  then None
  else
    match fetchReference env message with
    | Threw => None
    | Ok None => None
    | Ok (Some referenced) =>
        match msg_author referenced with
        | None => None
        | Some refAuthor =>
            let referencedText :=
              resolveDiscordMessageText referenced None in
            if Js.isEmpty referencedText then None
            else
              let fromLabel :=
                if isDirectMessage referenced
                then buildDirectLabel refAuthor
                else Js.nullish (msg_memberDisplayName referenced)
                       (user_tag refAuthor) in
              let body :=
                referencedText ++ nl ++ "[discord message id: "
                ++ msg_id referenced ++ " channel: "
                ++ msg_channelId referenced ++ " from: "
                ++ user_tag refAuthor ++ " user id:"
                ++ user_id refAuthor ++ "]" in
              Some (formatAgentEnvelope
                      (mkEnvelope "Discord" fromLabel
                         (Some (msg_createdTimestamp referenced)) body))
        end
    end.

Definition withReplyContext (env : Env) (message : Message)
    (combinedBody : string) : string :=
  match resolveReplyContext env message with
  | Some replyContext =>
      if Js.truthy replyContext
      then "[Replied message - for context]" ++ nl ++ replyContext
           ++ nl ++ nl ++ combinedBody
      else combinedBody
  | None => combinedBody
  end.

Definition metaPart (label : string) (value : option string)
  : list string :=
  match value with
  | Some v => if Js.truthy v then [label ++ v] else []
  | None => []
  end.

Definition withForwarded (message : Message) (author : User)
    (combinedBody : string) : string :=
  match resolveForwardedSnapshot message with
  | None => combinedBody
  | Some fw =>
      let forwarderName := user_tag author in
      let forwarder :=
        if Js.truthy forwarderName
        then forwarderName ++ " id:" ++ user_id author
        else user_id author in
      let snapshotText :=
        Js.orStr (resolveDiscordSnapshotText (fw_snapshot fw))
          "<forwarded message>" in
      let typePart :=
        match snap_type (fw_snapshot fw) with
        | Some t => ["snapshot type: " ++ pretty t]
        | None => []
        end in
      let forwardMetaParts :=
        List.concat
          [ metaPart "forwarded message id: " (fw_messageId fw);
            metaPart "channel: " (fw_channelId fw);
            metaPart "guild: " (fw_guildId fw);
            typePart ] in
      let forwardedBody :=
        match forwardMetaParts with
        | [] => snapshotText
        | _ => snapshotText ++ nl ++ "["
               ++ Js.join " " forwardMetaParts ++ "]"
        end in
      let forwardedEnvelope :=
        formatAgentEnvelope
          (mkEnvelope "Discord" ("Forwarded by " ++ forwarder)
             (Some (Js.nullish (snap_createdTimestamp (fw_snapshot fw))
                      (msg_createdTimestamp message)))
             forwardedBody) in
      "[Forwarded message]" ++ nl ++ forwardedEnvelope ++ nl ++ nl
      ++ combinedBody
  end.

Definition combinedBodyOf (env : Env) (message : Message) (author : User)
    (guildHistories : Histories) (messageText : string) : string :=
  let combinedBody :=
    formatAgentEnvelope
      (mkEnvelope "Discord" (fromLabelOf message author)
         (Some (msg_createdTimestamp message)) messageText) in
  withForwarded message author
    (withReplyContext env message
       (withHistory message author guildHistories combinedBody)).

Definition ctxPayloadOf (env : Env) (message : Message) (author : User)
    (guildHistories : Histories) (media : option DiscordMediaInfo)
    (messageText : string) : MsgContext :=
  let groupRoom :=
    if isGuildMessage message && Js.truthy (channelSlugOf message)
    then Some ("#" ++ channelSlugOf message) else None in
  let groupSubject :=
    if isDirectMessage message then None else groupRoom in
  {| Body := combinedBodyOf env message author guildHistories messageText;
     From := if isDirectMessage message
             then "discord:" ++ user_id author
             else "group:" ++ msg_channelId message;
     To := if isDirectMessage message
           then "user:" ++ user_id author
           else "channel:" ++ msg_channelId message;
     ChatType := if isDirectMessage message then "direct" else "group";
     SenderName :=
       Js.nullish (msg_memberDisplayName message) (user_tag author);
     SenderUsername := user_username author;
     SenderTag := user_tag author;
     GroupSubject := groupSubject;
     GroupRoom := groupRoom;
     GroupSpace :=
       if isGuildMessage message && Js.truthy (guildSlugOf message)
       then Some (guildSlugOf message) else None;
     Surface := "discord";
     WasMentioned := wasMentioned env message;
     MessageSid := msg_id message;
     Timestamp := msg_createdTimestamp message;
     MediaPath := media_path <$> media;
     MediaType := media ≫= media_contentType;
     MediaUrl := media_path <$> media |}.

(** *** Generation and delivery *)

Definition blockHasContent (payload : ReplyPayload) : bool :=
  Js.truthyOpt (text payload) || Js.truthyOpt (mediaUrl payload)
  || negb (bool_decide (Js.nullish (mediaUrls payload) [] = [])).

(** One link of [blockSendChain]: a delivery call of its own for the
    payload; a failure is logged and swallowed. *)
Definition sendBlockReply (env : Env) (replyTarget : string)
    (st : bool * list OutboundSend) (payload : ReplyPayload)
  : bool * list OutboundSend :=
  let '(didSendReply, log) := st in
  if negb (blockHasContent payload) then st
  else
    match deliverReplies chunkText (sendResolves env) [payload]
            replyTarget (token cfg) (replyToMode cfg) (textLimit cfg) log
    with
    | (Ok _, log') => (true, log')
    | (Threw, log') => (didSendReply, log')
    end.

Definition repliesOf (replyResult : ReplyResult) : list ReplyPayload :=
  match replyResult with
  | NoReply => []
  | OneReply payload => [payload]
  | ManyReplies payloads => payloads
  end.

(** The two places where the handler empties the channel history. *)
Definition clearAfterReply (message : Message) (didSendReply : bool)
    (guildHistories : Histories) : Histories :=
  let shouldClearHistory := negb (isDirectMessage message) in
  if isGuildMessage message && shouldClearHistory
     && (historyLimit cfg >? 0) && didSendReply
  then <[ msg_channelId message := [] ]> guildHistories
  else guildHistories.

Definition dropped (guildHistories : Histories) (why : DropReason)
  : Outcome :=
  mkOutcome guildHistories [] None [] None (Dropped why).

Definition runTurn (env : Env) (guildHistories : Histories)
    (message : Message) (author : User) (media : option DiscordMediaInfo)
    (messageText : string) : Outcome :=
  let ctxPayload :=
    ctxPayloadOf env message author guildHistories media messageText in
  let replyTarget := To ctxPayload in
  if Js.isEmpty replyTarget then dropped guildHistories MissingReplyTarget
  else
    let routeTo := "user:" ++ user_id author in
    if isDirectMessage message
       && negb (updateLastRoute env (mainKey cfg) routeTo)
    then mkOutcome guildHistories [] None [] None
           (HandlerFailed (ExternalFailure "updateLastRoute"))
    else
      let lastRoute :=
        if isDirectMessage message then Some (mainKey cfg, routeTo)
        else None in
      let generation := getReplyFromConfig env ctxPayload in
      let '(didSendReply, blockSends) :=
        fold_left (sendBlockReply env replyTarget) (gen_blocks generation)
          (false, []) in
      match gen_result generation with
      | Threw =>
          mkOutcome guildHistories blockSends (Some ctxPayload) []
            lastRoute (HandlerFailed (ExternalFailure "getReplyFromConfig"))
      | Ok replyResult =>
          match repliesOf replyResult with
          | [] =>
              mkOutcome
                (clearAfterReply message didSendReply guildHistories)
                blockSends (Some ctxPayload) [] lastRoute NoFinalReplies
          | replies =>
              match deliverReplies chunkText (sendResolves env) replies
                      replyTarget (token cfg) (replyToMode cfg)
                      (textLimit cfg) blockSends
              with
              | (Threw, log) =>
                  mkOutcome guildHistories log (Some ctxPayload) []
                    lastRoute
                    (HandlerFailed (ExternalFailure "sendMessageDiscord"))
              | (Ok _, log) =>
                  mkOutcome (clearAfterReply message true guildHistories)
                    log (Some ctxPayload) [] lastRoute FinalDelivered
              end
          end
      end.

Definition afterScreening (env : Env) (guildHistories : Histories)
    (message : Message) (author : User) : Outcome :=
  match resolveDiscordSystemEvent message with
  | Some systemText =>
      mkOutcome guildHistories [] None
        [(systemText,
          "discord:system:" ++ msg_channelId message ++ ":"
          ++ msg_id message)]
        None SystemEventQueued
  | None =>
      match resolveMedia env message (mediaMaxBytes cfg) with
      | inl err =>
          mkOutcome guildHistories [] None [] None (HandlerFailed err)
      | inr media =>
          let text := turnText message media in
          if Js.isEmpty text then dropped guildHistories EmptyContent
          else runTurn env guildHistories message author media text
      end
  end.

(** The handler subscribed to [Events.MessageCreate]: from the history
    map and a message to the new map and what was done. *)
Definition messageCreate (env : Env) (guildHistories : Histories)
    (message : Message) : Outcome :=
  match msg_author message with
  | None => dropped guildHistories NoAuthor
  | Some author =>
      if user_bot author then dropped guildHistories BotAuthor
      else
        match screenBeforeHistory message with
        | Some why => dropped guildHistories why
        | None =>
            let recorded := recordHistory message author guildHistories in
            match screenAfterHistory env message author with
            | Some why => dropped recorded why
            | None => afterScreening env recorded message author
            end
        end
  end.

End Monitor.

(** ** Vocabulary of the statements *)

(** An entry that [normalizeDiscordAllowList] skips at its first test. *)
Definition isBlankEntry (e : RawEntry) : bool :=
  Js.isEmpty (Js.trim (String_ e)).

(** [guildHistories.get(key) ?? []] *)
Definition historyOf (guildHistories : Histories) (key : string)
  : list DiscordHistoryEntry :=
  Js.nullish (guildHistories !! key) [].

(** The history map after a sequence of events, each with the answers the
    outside world gave during it, starting from the empty map the monitor
    creates.  The events are handled one after another: a handler runs to
    its end before the next event is taken.  The handler is asynchronous,
    and between its append to the history and its reading or emptying of
    it another event of the channel can be handled; such interleavings
    are not runs of this definition. *)
Definition runEvents (chunkText : string -> Z -> list string)
    (formatAgentEnvelope : Envelope -> string) (cfg : Setup)
    (events : list (Env * Message)) : Histories :=
  fold_left
    (fun st ev =>
       out_histories
         (messageCreate chunkText formatAgentEnvelope cfg (fst ev) st
            (snd ev)))
    events ∅.

(** A send carries a reply-thread reference. *)
Definition isThreaded (s : OutboundSend) : bool :=
  match send_replyTo s with Some _ => true | None => false end.

(** The payload's [replyToId] is present and not blank. *)
Definition hasReplyToId (payload : ReplyPayload) : bool :=
  Js.truthyOpt (Js.trim <$> replyToId payload).

(** What a send shows to the recipient: its text and its media. *)
Definition sendShape (s : OutboundSend) : string * option string :=
  (send_text s, send_mediaUrl s).

(** Spec wording of media delivery: one message per media URL, the first
    captioned with the text, the others with the empty caption. *)
Definition captionedMedia (text : string) (urls : list string)
  : list (string * option string) :=
  match urls with
  | [] => []
  | u :: rest => (text, Some u) :: map (fun u' => ("", Some u')) rest
  end.

Definition isOk {A} (r : Res A) : bool :=
  match r with Ok _ => true | Threw => false end.

(** The sends a piece of sending code completes when started on the empty
    log. *)
Definition sendsOf {A} (m : Sending A) : list OutboundSend := snd (m []).

(** The delivery call made for a block reply returns. *)
Definition blockDelivered (chunkText : string -> Z -> list string)
    (cfg : Setup) (env : Env) (replyTarget : string)
    (payload : ReplyPayload) : bool :=
  blockHasContent payload
  && isOk (fst (deliverReplies chunkText (sendResolves env) [payload]
                  replyTarget (token cfg) (replyToMode cfg) (textLimit cfg)
                  [])).

(** Partial correctness of sending code: from a log satisfying [P], a
    return establishes [Q] and a throw establishes [E]. *)
Definition hoare {A} (P : list OutboundSend -> Prop) (m : Sending A)
    (Q : A -> list OutboundSend -> Prop) (E : list OutboundSend -> Prop)
  : Prop :=
  forall log, P log ->
    match m log with
    | (Ok a, log') => Q a log'
    | (Threw, log') => E log'
    end.

(** Sending code only appends to the log, and what it appends and whether
    it returns do not depend on the log it starts from. *)
Definition framed {A} (m : Sending A) : Prop :=
  forall log, m log = (fst (m []), (log ++ snd (m []))%list).

(** No send of the log carries a reference. *)
Definition unthreadedLog (log : list OutboundSend) : Prop :=
  Forall (fun s => isThreaded s = false) log.

(** Exactly one send of the log carries a reference. *)
Definition threadedOnce (log : list OutboundSend) : Prop :=
  exists before s after,
    log = (before ++ s :: after)%list
    /\ unthreadedLog before
    /\ isThreaded s = true
    /\ unthreadedLog after.

(** Invariant of one delivery call in a mode other than ["off"] and
    ["all"]: while the flag is unset no send is threaded, and once it is
    set exactly one is. *)
Definition firstInv (hasReplied : bool) (log : list OutboundSend) : Prop :=
  if hasReplied then threadedOnce log else unthreadedLog log.

(** Invariant of one delivery call in the same mode when every payload
    carries a reply id: the log is empty until the flag is set. *)
Definition firstInvStrict (hasReplied : bool) (log : list OutboundSend)
  : Prop :=
  if hasReplied
  then exists s rest,
         log = s :: rest /\ isThreaded s = true /\ unthreadedLog rest
  else log = [].

(** The first send of the log carries a reference and no other does. *)
Definition onlyFirstThreaded (log : list OutboundSend) : Prop :=
  exists s rest,
    log = s :: rest /\ isThreaded s = true /\ unthreadedLog rest.

(** Every stored history holds at most [limit] entries. *)
Definition boundedBy (limit : Z) (guildHistories : Histories) : Prop :=
  forall key history,
    guildHistories !! key = Some history ->
    Z.of_nat (List.length history) <= limit.

(** ** Scenarios used to exercise the model *)

Module Fixture.

Fixpoint chunkEvery (fuel n : nat) (s : string) : list string :=
  match fuel with
  | O => []
  | S fuel' =>
      if Js.isEmpty s then []
      else if (String.length s <=? n)%nat then [s]
      else String.substring 0 n s :: chunkEvery fuel' n (Js.slice n s)
  end.

(** Modelled from the spec: [chunkText] of the auto-reply module, which
    is not part of the sources.  Consecutive pieces of at most [limit]
    characters whose concatenation is the text. *)
Definition chunkText (text : string) (limit : Z) : list string :=
  if limit <=? 0 then [text]
  else chunkEvery (String.length text) (Z.to_nat limit) text.

(** A rendering for [formatAgentEnvelope], which is not part of the
    sources either. *)
Definition formatAgentEnvelope (e : Envelope) : string :=
  "[" ++ env_surface e ++ " " ++ env_from e ++ "] " ++ env_body e.

Definition alice : User := mkUser "1001" "alice" "alice#0001" false.

Definition guild : Guild := mkGuild "5000" "Test Guild".

Definition guildMessage (id content : string) (mentioned : bool)
    (attachments : list Attachment) : Message :=
  {| msg_id := id;
     msg_author := Some alice;
     msg_channelType := ChOtherChannel;
     msg_channelName := Some (Some "general");
     msg_guild := Some guild;
     msg_channelId := "7000";
     msg_type := MtDefault;
     msg_content := Some content;
     msg_attachments := attachments;
     msg_embeds := [];
     msg_mentionsHas := fun _ => mentioned;
     msg_memberDisplayName := Some "Alice";
     msg_createdTimestamp := 1700000000000;
     msg_snapshots := [];
     msg_reference := None |}.

Definition directMessage (id content : string) : Message :=
  {| msg_id := id;
     msg_author := Some alice;
     msg_channelType := ChDM;
     msg_channelName := None;
     msg_guild := None;
     msg_channelId := "8000";
     msg_type := MtDefault;
     msg_content := Some content;
     msg_attachments := [];
     msg_embeds := [];
     msg_mentionsHas := fun _ => false;
     msg_memberDisplayName := None;
     msg_createdTimestamp := 1700000000000;
     msg_snapshots := [];
     msg_reference := None |}.

Definition noDiscordConfig : DiscordConfig :=
  mkDiscordConfig None None None None None None None None.

Definition setup (limit : option Z) (mode : option ReplyToMode) : Setup :=
  monitorSetup "tok" 2000 "main" (mkOpts None limit mode) noDiscordConfig.

Definition setupWith (discord : DiscordConfig) : Setup :=
  monitorSetup "tok" 2000 "main" (mkOpts None None None) discord.

(** A world where the bot is [bot], downloads answer [status], the
    generator behaves as [gen] and sends resolve as [resolves] says. *)
Definition world (bot : option string) (status : Z) (gen : Generation)
    (resolves : OutboundSend -> bool) : Env :=
  {| botId := bot;
     fetch := fun _ => Ok (mkResponse status "" None);
     detectMime := fun _ headerMime _ => headerMime;
     saveMediaBuffer := fun _ mime _ => Ok (mkSaved "/tmp/inbound" mime);
     fetchReference := fun _ => Ok None;
     updateLastRoute := fun _ _ => true;
     getReplyFromConfig := fun _ => gen;
     sendResolves := resolves |}.

Definition textReply (t : string) (replyTo : option string)
  : ReplyPayload :=
  mkPayload (Some t) None None replyTo.

Definition handle (cfg : Setup) (env : Env) (st : Histories)
    (m : Message) : Outcome :=
  messageCreate chunkText formatAgentEnvelope cfg env st m.

Definition always (s : OutboundSend) : bool := true.

(** A world that answers nothing: the generator returns null. *)
Definition silentWorld : Env :=
  world (Some "42") 200 (mkGeneration [] (Ok NoReply)) always.

(** Three unanswered guild messages in one channel. *)
Definition threeMessages : list (Env * Message) :=
  [(silentWorld, guildMessage "m1" "one" false []);
   (silentWorld, guildMessage "m2" "two" false []);
   (silentWorld, guildMessage "m3" "three" false [])].

(** Three payloads of two media each, all answering message [m1]. *)
Definition twoMedia (a b : string) : ReplyPayload :=
  mkPayload (Some "caption") None (Some [a; b]) (Some "m1").

Definition threeByTwo : list ReplyPayload :=
  [twoMedia "http://x/1.jpg" "http://x/2.jpg";
   twoMedia "http://x/3.jpg" "http://x/4.jpg";
   twoMedia "http://x/5.jpg" "http://x/6.jpg"].

(** A turn in first mode whose generator streams one block reply and
    then returns one final reply, both answering message [m1]. *)
Definition streamedTurn : Outcome :=
  handle (setup None (Some ReplyFirst))
    (world (Some "42") 200
       (mkGeneration [textReply "partial" (Some "m1")]
          (Ok (OneReply (textReply "final" (Some "m1")))))
       always)
    ∅ (guildMessage "m1" "hi" true []).

(** A world whose generator returns one text reply. *)
Definition answeringWorld (bot : option string) : Env :=
  world bot 200 (mkGeneration [] (Ok (OneReply (textReply "yo" None))))
    always.


(** A guild entry that lists the permitted users of guild 5000. *)
Definition listedUsers : DiscordConfig :=
  mkDiscordConfig None None None None None None None
    (Some [("5000",
            mkGuildEntry None None None None (Some [RawStr "9999"])
              None)]).

Definition unmentionedUnlistedTurn : Outcome :=
  handle (setupWith listedUsers) (answeringWorld (Some "42")) ∅
    (guildMessage "m1" "hi" false []).


Definition picture : Attachment :=
  mkAttachment "http://x/a.png" (Some "image/png") None.

(** A mentioned guild message whose attachment download answers 404. *)
Definition failedDownloadWorld : Env :=
  world (Some "42") 404
    (mkGeneration [] (Ok (OneReply (textReply "yo" None)))) always.

Definition failedDownloadTurn : Outcome :=
  handle (setup None None) failedDownloadWorld ∅
    (guildMessage "m1" "look" true [picture]).

(** History limit 1: a message dropped for lack of a mention, then a
    mentioned message that is answered. *)
Definition afterUnmentioned : Histories :=
  out_histories
    (handle (setup (Some 1) None) (answeringWorld (Some "42")) ∅
       (guildMessage "m1" "one" false [])).

Definition answeredAfterUnmentioned : Outcome :=
  handle (setup (Some 1) None) (answeringWorld (Some "42"))
    afterUnmentioned (guildMessage "m2" "two" true []).

(** The channel history after one unanswered message, default limit. *)
Definition oneUnanswered : Histories :=
  out_histories
    (handle (setup None None) (answeringWorld (Some "42")) ∅
       (guildMessage "m0" "earlier" false [])).

(** The generator returns one payload without text and media. *)
Definition emptyPayloadTurn : Outcome :=
  handle (setup None None)
    (world (Some "42") 200
       (mkGeneration [] (Ok (OneReply (mkPayload None None None None))))
       always)
    oneUnanswered (guildMessage "m1" "hi" true []).

(** A block reply is delivered, then the send of the final reply
    fails. *)
Definition failedFinalTurn : Outcome :=
  handle (setup None None)
    (world (Some "42") 200
       (mkGeneration [textReply "partial" None]
          (Ok (OneReply (textReply "final" None))))
       (fun s => negb (String.eqb (send_text s) "final")))
    ∅ (guildMessage "m1" "hi" true []).

(** The two payloads of the media scenario. *)
Definition part1ThenImage : list ReplyPayload :=
  [mkPayload (Some "part1") None None None;
   mkPayload (Some "") (Some "http://x/img.jpg") None None].

End Fixture.

(** ** Canonical slugs *)

(** The characters [a-z0-9-] a slug is made of. *)
Definition isSlugChar (c : ascii) : bool :=
  Js.isLowerAlpha c || Js.isDigit c || isHyphen c.

Definition headIs (p : ascii -> bool) (s : string) : bool :=
  match s with
  | String c _ => p c
  | EmptyString => false
  end.

Fixpoint lastIs (p : ascii -> bool) (s : string) : bool :=
  match s with
  | EmptyString => false
  | String c EmptyString => p c
  | String _ r => lastIs p r
  end.

(** No two adjacent characters both satisfy [p]. *)
Fixpoint noAdjacent (p : ascii -> bool) (s : string) : bool :=
  match s with
  | EmptyString => true
  | String c r =>
      match r with
      | EmptyString => true
      | String c' _ => negb (p c && p c') && noAdjacent p r
      end
  end.

(** Made of [a-z0-9-] only, with no hyphen at either end and no two
    hyphens in a row. *)
Definition isCanonicalSlug (s : string) : bool :=
  Js.all isSlugChar s
  && negb (headIs isHyphen s)
  && negb (lastIs isHyphen s)
  && noAdjacent isHyphen s.

(** ** Allow lists: vocabulary *)

(** What one raw entry adds to the three locals of the builder. *)
Definition entryContribution (prefixes : list string) (e : RawEntry)
  : AllowAcc :=
  allowListStep prefixes (mkAcc false ∅ ∅) e.

Definition mergeAcc (a b : AllowAcc) : AllowAcc :=
  mkAcc (acc_allowAll a || acc_allowAll b)
    (acc_ids b ∪ acc_ids a) (acc_names b ∪ acc_names a).

(** A non-empty string of decimal digits. *)
Definition isDigits (s : string) : bool :=
  Js.truthy s && Js.all Js.isDigit s.

(** The ways of writing the id [d] in an allow list whose prefixes are
    ["discord:"] and ["user:"]. *)
Definition idForms (d : string) : list string :=
  [d; "<@" ++ d ++ ">"; "<@!" ++ d ++ ">"; "<#" ++ d ++ ">";
   "discord:" ++ d; "user:" ++ d].

(** [b] permits whatever [a] permits. *)
Definition allowListIncluded (a b : DiscordAllowList) : Prop :=
  (allowAll a = true -> allowAll b = true)
  /\ ids a ⊆ ids b /\ names a ⊆ names b.

(** ** Delivery and turns: vocabulary *)

(** Where the replies to a message are sent. *)
Definition originTarget (message : Message) (author : User) : string :=
  if isDirectMessage message then "user:" ++ user_id author
  else "channel:" ++ msg_channelId message.

(** The sends of the delivery call made for one block reply. *)
Definition blockSendsOf (chunkText : string -> Z -> list string)
    (cfg : Setup) (env : Env) (replyTarget : string)
    (payload : ReplyPayload) : list OutboundSend :=
  if blockHasContent payload
  then sendsOf (deliverReplies chunkText (sendResolves env) [payload]
                  replyTarget (token cfg) (replyToMode cfg) (textLimit cfg))
  else [].

(** The media of a payload, read off its two fields: the URLs of the
    [mediaUrls] array when that field is present, even when the array is
    empty, and otherwise the [mediaUrl] when it is not empty. *)
Definition statedMedia (payload : ReplyPayload) : list string :=
  match mediaUrls payload, mediaUrl payload with
  | Some urls, _ => urls
  | None, Some url => if Js.isEmpty url then [] else [url]
  | None, None => []
  end.

(** The payload names a media URL in one of its two fields. *)
Definition namesMedia (payload : ReplyPayload) : bool :=
  Js.truthyOpt (mediaUrl payload)
  || match mediaUrls payload with Some (_ :: _) => true | _ => false end.

(** What the recipient is to see for one payload: nothing for a payload
    without text and media, the chunks of the text for a payload without
    media, and otherwise one message per media URL, the text being the
    caption of the first. *)
Definition payloadShapes (chunkText : string -> Z -> list string)
    (chunkLimit : Z) (payload : ReplyPayload)
  : list (string * option string) :=
  let text := Js.nullish (text payload) "" in
  match statedMedia payload with
  | [] =>
      if Js.isEmpty text then []
      else map (fun chunk => (chunk, None)) (chunkText text chunkLimit)
  | urls => captionedMedia text urls
  end.

(** Sending code follows a plan: when it returns it has sent the plan, and
    when it throws it has sent a part of the plan that stops before a
    message of the plan. *)
Definition follows {A} (m : Sending A) (plan : list (string * option string))
  : Prop :=
  forall log,
    exists new,
      snd (m log) = (log ++ new)%list
      /\ if isOk (fst (m log))
         then map sendShape new = plan
         else exists next rest,
                plan = (map sendShape new ++ next :: rest)%list.

(** ** Further scenarios *)

Module Scene.

(** A guild message of a given type, without text. *)
Definition systemMessage (t : MessageType) : Message :=
  {| msg_id := "s1";
     msg_author := Some Fixture.alice;
     msg_channelType := ChOtherChannel;
     msg_channelName := Some (Some "general");
     msg_guild := Some Fixture.guild;
     msg_channelId := "7000";
     msg_type := t;
     msg_content := Some "";
     msg_attachments := [];
     msg_embeds := [];
     msg_mentionsHas := fun _ => true;
     msg_memberDisplayName := Some "Alice";
     msg_createdTimestamp := 1700000000000;
     msg_snapshots := [];
     msg_reference := None |}.

(** A message in a group DM channel. *)
Definition groupDmMessage (content : string) : Message :=
  {| msg_id := "g1";
     msg_author := Some Fixture.alice;
     msg_channelType := ChGroupDM;
     msg_channelName := Some (Some "friends");
     msg_guild := None;
     msg_channelId := "9000";
     msg_type := MtDefault;
     msg_content := Some content;
     msg_attachments := [];
     msg_embeds := [];
     msg_mentionsHas := fun _ => true;
     msg_memberDisplayName := None;
     msg_createdTimestamp := 1700000000000;
     msg_snapshots := [];
     msg_reference := None |}.

(** A payload with a [mediaUrl] beside an empty [mediaUrls] array. *)
Definition hiddenMediaUrl (text : string) : ReplyPayload :=
  mkPayload (Some text) (Some "http://x/img.jpg") (Some []) None.

(** A payload with a [mediaUrl] beside two other [mediaUrls]. *)
Definition twoOfThree : ReplyPayload :=
  mkPayload (Some "two") (Some "http://x/0.jpg")
    (Some ["http://x/1.jpg"; "http://x/2.jpg"]) None.

End Scene.

(** ** Channels: vocabulary *)

(** The events whose message is in channel [key], in order. *)
Definition onChannel (key : string) (events : list (Env * Message))
  : list (Env * Message) :=
  List.filter (fun ev => bool_decide (msg_channelId (snd ev) = key)) events.

(** One step of [runEvents]: one event handled to its end. *)
Definition stepHistories (chunkText : string -> Z -> list string)
    (formatAgentEnvelope : Envelope -> string) (cfg : Setup)
    (st : Histories) (ev : Env * Message) : Histories :=
  out_histories
    (messageCreate chunkText formatAgentEnvelope cfg (fst ev) st (snd ev)).

(** ** Reaction events *)

Definition shouldEmitDiscordReactionNotification
    (mode : option ReactionMode) (botId messageAuthorId : option string)
    (userId : string) (userName userTag : option string)
    (allowlist : option (list RawEntry)) : bool :=
  match Js.nullish mode ReactOwn with
  | ReactOff => false
  | ReactOwn =>
      if negb (Js.truthyOpt botId) || negb (Js.truthyOpt messageAuthorId)
      then false
      else bool_decide (messageAuthorId = botId)
  | ReactAllowlist =>
      match allowlist with
      | Some ((_ :: _) as allowlist) =>
          match normalizeDiscordAllowList (Some allowlist) userPrefixes with
          | None => false
          | Some users =>
              allowListMatches users (mkCand (Some userId) userName userTag)
          end
      | _ => false
      end
  | ReactAll => true
  end.

(** [reaction.emoji]: what [toString()] renders when it is a function,
    and the two fields read otherwise. *)
Record Emoji := mkEmoji {
  emoji_toString : option string;
  emoji_id : option string;
  emoji_name : option string;
}.

Definition formatDiscordReactionEmoji (emoji : Emoji) : string :=
  let byFields :=
    if Js.truthyOpt (emoji_id emoji) && Js.truthyOpt (emoji_name emoji)
    then Js.nullish (emoji_name emoji) "" ++ ":"
         ++ Js.nullish (emoji_id emoji) ""
    else Js.nullish (emoji_name emoji) "emoji" in
  match emoji_toString emoji with
  | Some rendered =>
      if Js.truthy rendered && negb (String.eqb rendered "[object Object]")
      then rendered else byFields
  | None => byFields
  end.

(** [User | PartialUser]: a partial user may lack name and tag. *)
Record ReactionUser := mkReactionUser {
  ru_id : string;
  ru_bot : bool;
  ru_username : option string;
  ru_tag : option string;
}.

Record ReactedMessage := mkReactedMessage {
  rm_id : string;
  rm_channelId : string;
  (** [None]: the channel has no [name] property. *)
  rm_channelName : option (option string);
  rm_guild : option Guild;
  rm_author : option ReactionUser;
}.

(** A message that may be partial, with what [fetch()] gives. *)
Record MessageHandle := mkMessageHandle {
  mh_partial : bool;
  mh_fetch : Res ReactedMessage;
  mh_now : ReactedMessage;
}.

Record ReactionData := mkReactionData {
  rd_emoji : Emoji;
  rd_message : MessageHandle;
}.

(** A reaction that may be partial, with what [fetch()] gives. *)
Record Reaction := mkReaction {
  rx_partial : bool;
  rx_fetch : Res ReactionData;
  rx_now : ReactionData;
}.

Inductive ReactionAction := ReactionAdded | ReactionRemoved.

Definition actionName (action : ReactionAction) : string :=
  match action with
  | ReactionAdded => "added"
  | ReactionRemoved => "removed"
  end.

(** How [handleReactionEvent] ends: one system event queued, an early
    [return], or the [catch]. *)
Inductive ReactionEnding :=
| ReactionQueued (text contextKey : string)
| ReactionIgnored
| ReactionFailed.

Definition reactionText (guildInfo : option DiscordGuildEntryResolved)
    (guild : Guild) (message : ReactedMessage) (channelName : option string)
    (channelSlug : string) (emojiLabel : string) (user : ReactionUser)
    (action : ReactionAction) : string :=
  let actorLabel :=
    Js.nullish (Js.nullishOpt (ru_tag user) (ru_username user))
      (ru_id user) in
  let guildSlug :=
    orStrOpt (guildInfo ≫= ge_slug)
      (if Js.truthy (guild_name guild)
       then normalizeDiscordSlug (Some (guild_name guild))
       else guild_id guild) in
  let channelLabel :=
    if Js.truthy channelSlug then "#" ++ channelSlug
    else if Js.truthyOpt channelName
         then "#" ++ normalizeDiscordSlug channelName
         else "#" ++ rm_channelId message in
  let authorLabel :=
    Js.nullishOpt (rm_author message ≫= ru_tag)
      (rm_author message ≫= ru_username) in
  let baseText :=
    "Discord reaction " ++ actionName action ++ ": " ++ emojiLabel
    ++ " by " ++ actorLabel ++ " on " ++ guildSlug ++ " " ++ channelLabel
    ++ " msg " ++ rm_id message in
  if Js.truthyOpt authorLabel
  then baseText ++ " from " ++ Js.nullish authorLabel ""
  else baseText.

Definition reactionKey (message : ReactedMessage) (emojiLabel : string)
    (user : ReactionUser) (action : ReactionAction) : string :=
  "discord:reaction:" ++ actionName action ++ ":" ++ rm_id message ++ ":"
  ++ ru_id user ++ ":" ++ emojiLabel.

(** The body of [handleReactionEvent] once reaction and message are
    resolved. *)
Definition notifyReaction (cfg : Setup) (botId : option string)
    (resolvedReaction : ReactionData) (message : ReactedMessage)
    (user : ReactionUser) (action : ReactionAction) : ReactionEnding :=
  match rm_guild message with
  | None => ReactionIgnored
  | Some guild =>
      let guildInfo :=
        resolveDiscordGuildEntry (Some guild) (guildEntries cfg) in
      if hasEntries (guildEntries cfg)
         && negb (bool_decide (is_Some guildInfo))
      then ReactionIgnored
      else
        let channelName :=
          match rm_channelName message with
          | Some name => name
          | None => None
          end in
        let channelSlug :=
          if Js.truthyOpt channelName
          then normalizeDiscordSlug channelName else "" in
        let channelConfig :=
          resolveDiscordChannelConfig guildInfo (rm_channelId message)
            channelName channelSlug in
        if bool_decide (cc_allowed <$> channelConfig = Some false)
        then ReactionIgnored
        else if Js.truthyOpt botId
                && bool_decide (Some (ru_id user) = botId)
        then ReactionIgnored
        else
          let reactionMode :=
            Js.nullish (guildInfo ≫= ge_reactionNotifications) ReactOwn in
          if negb (shouldEmitDiscordReactionNotification
                     (Some reactionMode) botId
                     (ru_id <$> rm_author message) (ru_id user)
                     (ru_username user) (ru_tag user)
                     (guildInfo ≫= ge_users))
          then ReactionIgnored
          else
            let emojiLabel :=
              formatDiscordReactionEmoji (rd_emoji resolvedReaction) in
            ReactionQueued
              (reactionText guildInfo guild message channelName channelSlug
                 emojiLabel user action)
              (reactionKey message emojiLabel user action)
  end.

Definition handleReactionEvent (cfg : Setup) (botId : option string)
    (reaction : Reaction) (user : option ReactionUser)
    (action : ReactionAction) : ReactionEnding :=
  match user with
  | None => ReactionIgnored
  | Some user =>
      if ru_bot user then ReactionIgnored
      else
        match (if rx_partial reaction then rx_fetch reaction
               else Ok (rx_now reaction)) with
        | Threw => ReactionFailed
        | Ok resolvedReaction =>
            let handle := rd_message resolvedReaction in
            match (if mh_partial handle then mh_fetch handle
                   else Ok (mh_now handle)) with
            | Threw => ReactionFailed
            | Ok message =>
                notifyReaction cfg botId resolvedReaction message user
                  action
            end
        end
  end.

(** ** The slash command *)

(** [DiscordSlashCommandConfig], every field optional. *)
Record DiscordSlashCommandConfig := mkRawSlash {
  raw_enabled : option bool;
  raw_name : option string;
  raw_sessionPrefix : option string;
  raw_ephemeral : option bool;
}.

(** [Required<DiscordSlashCommandConfig>] *)
Record SlashCommand := mkSlash {
  slash_enabled : bool;
  slash_name : string;
  slash_sessionPrefix : string;
  slash_ephemeral : bool;
}.

Definition resolveSlashCommandConfig
    (raw : option DiscordSlashCommandConfig) : SlashCommand :=
  {| slash_enabled :=
       match raw with
       | Some r => negb (bool_decide (raw_enabled r = Some false))
       | None => false
       end;
     slash_name := orStrOpt (Js.trim <$> (raw ≫= raw_name)) "clawd";
     slash_sessionPrefix :=
       orStrOpt (Js.trim <$> (raw ≫= raw_sessionPrefix)) "discord:slash";
     slash_ephemeral :=
       negb (bool_decide (raw ≫= raw_ephemeral = Some false)) |}.

(** The [slashCommand] constant of [monitorDiscordProvider]. *)
Definition slashSetup (fromOpts fromConfig : option DiscordSlashCommandConfig)
  : SlashCommand :=
  resolveSlashCommandConfig (Js.nullishOpt fromOpts fromConfig).

(** [option.value]: [string | number | boolean]. *)
Inductive OptionValue :=
| ValString (s : string)
| ValNumber (n : Z)
| ValBoolean (b : bool).

(** [CommandInteractionOption], as far as the monitor reads it. *)
#[local] Unset Elimination Schemes.
Inductive CommandInteractionOption :=
| mkOption (value : option OptionValue)
    (options : option (list CommandInteractionOption)).
#[local] Set Elimination Schemes.

Section FirstSome.

Context {A B : Type}.
Variable f : A -> option B.

(** A [for] loop that returns at the first element giving a result. *)
Fixpoint firstSome (l : list A) : option B :=
  match l with
  | [] => None
  | x :: rest =>
      match f x with
      | Some b => Some b
      | None => firstSome rest
      end
  end.

End FirstSome.

(** [typeof option.value === "string"], trimmed, when that is not empty. *)
Definition ownString (value : option OptionValue) : option string :=
  match value with
  | Some (ValString s) =>
      if Js.truthy (Js.trim s) then Some (Js.trim s) else None
  | _ => None
  end.

(** The body of the loop of [findFirstStringOption] for one option. *)
Fixpoint findInOption (opt : CommandInteractionOption) : option string :=
  match opt with
  | mkOption value options =>
      match ownString value with
      | Some trimmed => Some trimmed
      | None =>
          match options with
          | Some ((_ :: _) as options) => firstSome findInOption options
          | _ => None
          end
      end
  end.

Definition findFirstStringOption (options : list CommandInteractionOption)
  : option string :=
  firstSome findInOption options.

Definition resolveSlashPrompt (options : list CommandInteractionOption)
  : option string :=
  findFirstStringOption options.

(** A call on the interaction object. *)
Inductive InteractionCall :=
| CallReply (content : string) (ephemeral : bool)
| CallDeferReply (ephemeral : bool)
| CallEditReply (content : string)
| CallFollowUp (content : string) (ephemeral : bool).

(** The calls in order, up to the first that rejects: the completed calls
    and whether all of them resolved. *)
Fixpoint perform (resolves : InteractionCall -> bool)
    (calls : list InteractionCall) (log : list InteractionCall)
  : Res unit * list InteractionCall :=
  match calls with
  | [] => (Ok tt, log)
  | c :: rest =>
      if resolves c then perform resolves rest (log ++ [c])%list
      else (Threw, log)
  end.

Section SlashDelivery.

Variable chunkText : string -> Z -> list string.

(** [SILENT_REPLY_TOKEN] of the auto-reply module. *)
Variable silentReplyToken : string.

(** The text of one payload in [deliverSlashReplies]. *)
Definition slashCombined (payload : ReplyPayload) : string :=
  let textRaw := Js.nullish (Js.trim <$> text payload) "" in
  let text :=
    if Js.truthy textRaw && negb (String.eqb textRaw silentReplyToken)
    then Some textRaw else None in
  let mediaList := mediaListOf payload in
  Js.join nl
    (List.filter Js.truthy
       (Js.nullish text ""
        :: List.filter Js.truthy (map Js.trim mediaList))).

(** The [messages] array after the loop over the payloads. *)
Definition slashMessages (replies : list ReplyPayload) (textLimit : Z)
  : list string :=
  let chunkLimit := Z.min textLimit 2000 in
  flat_map
    (fun payload =>
       let combined := slashCombined payload in
       if Js.isEmpty combined then [] else chunkText combined chunkLimit)
    replies.

(** [deliverSlashReplies]: the calls it makes, in order; each is awaited
    and none of the results is read. *)
Definition deliverSlashReplies (replies : list ReplyPayload)
    (ephemeral : bool) (textLimit : Z) : list InteractionCall :=
  match slashMessages replies textLimit with
  | [] => [CallEditReply "No response was generated for that command."]
  | first :: rest =>
      CallEditReply first
      :: map (fun message => CallFollowUp message ephemeral) rest
  end.

End SlashDelivery.

(** [interaction.channel], as far as the handler reads it. *)
Record SlashChannel := mkSlashChannel {
  sc_type : ChannelType;
  (** [None]: no [name] property, or one that is not a string. *)
  sc_name : option string;
}.

Record Interaction := mkInteraction {
  ix_id : string;
  ix_isChatInputCommand : bool;
  ix_commandName : string;
  ix_user : User;
  ix_channel : option SlashChannel;
  ix_channelId : string;
  ix_inGuild : bool;
  ix_guild : option Guild;
  ix_options : list CommandInteractionOption;
  ix_createdTimestamp : Z;
  ix_isRepliable : bool;
}.

(** The context of a slash command. *)
Record SlashContext := mkSlashContext {
  sl_Body : string;
  sl_From : string;
  sl_To : string;
  sl_ChatType : string;
  sl_SenderName : string;
  sl_Surface : string;
  sl_WasMentioned : bool;
  sl_MessageSid : string;
  sl_Timestamp : Z;
  sl_SessionKey : string;
}.

(** The outside world during one interaction: the generator, whether a
    call on the interaction resolves, and what
    [interaction.deferred || interaction.replied] reads after the given
    completed calls. *)
Record SlashEnv := mkSlashEnv {
  slashReply : SlashContext -> Res ReplyResult;
  callResolves : InteractionCall -> bool;
  acknowledged : list InteractionCall -> bool;
}.

Inductive SlashEnding :=
| SlashIgnored
| SlashDropped (why : DropReason)
| SlashPromptRequired
| SlashAnswered
| SlashApologised
| SlashNotRepliable
| SlashUnhandled.

Record SlashOutcome := mkSlashOutcome {
  so_calls : list InteractionCall;
  so_generated : option SlashContext;
  so_ending : SlashEnding;
}.

Definition sorry : string :=
  "Sorry, something went wrong handling that command.".

Section SlashHandler.

Variable chunkText : string -> Z -> list string.
Variable silentReplyToken : string.
Variable slashCommand : SlashCommand.
Variable cfg : Setup.

Definition slashChannelName (interaction : Interaction) : option string :=
  ix_channel interaction ≫= sc_name.

Definition slashChannelSlug (interaction : Interaction) : string :=
  if Js.truthyOpt (slashChannelName interaction)
  then normalizeDiscordSlug (slashChannelName interaction) else "".

(** The checks of the handler between the log line and the prompt. *)
Definition slashScreen (interaction : Interaction) : option DropReason :=
  let channelType := sc_type <$> ix_channel interaction in
  let isGroupDm :=
    match channelType with Some ChGroupDM => true | _ => false end in
  let isDirectMessage :=
    negb (ix_inGuild interaction)
    && match channelType with Some ChDM => true | _ => false end in
  let isGuildMessage := ix_inGuild interaction in
  let user := ix_user interaction in
  if isGroupDm && negb (groupDmEnabled cfg) then Some GroupDmDisabled
  else if isDirectMessage && negb (dmEnabled cfg) then Some DmDisabled
  else if isGuildMessage then
    let guildInfo :=
      resolveDiscordGuildEntry (ix_guild interaction) (guildEntries cfg) in
    if hasEntries (guildEntries cfg)
       && negb (bool_decide (is_Some guildInfo))
    then Some GuildNotListed
    else
      let channelConfig :=
        resolveDiscordChannelConfig guildInfo (ix_channelId interaction)
          (slashChannelName interaction) (slashChannelSlug interaction) in
      if bool_decide (cc_allowed <$> channelConfig = Some false)
      then Some ChannelNotAllowed
      else
        match guildInfo ≫= ge_users with
        | Some ((_ :: _) as userAllow) =>
            match normalizeDiscordAllowList (Some userAllow) userPrefixes
            with
            | None => None
            | Some users =>
                if allowListMatches users (senderCandidates user)
                then None else Some GuildSenderNotAllowed
            end
        | _ => None
        end
  else if isGroupDm then
    if resolveGroupDmAllow (groupDmChannels cfg)
         (ix_channelId interaction) (slashChannelName interaction)
         (slashChannelSlug interaction)
    then None else Some GroupDmNotAllowed
  else if isDirectMessage then
    if dmSenderPermitted cfg user then None else Some DmSenderNotAllowed
  else None.

Definition slashContextOf (interaction : Interaction) (prompt : string)
  : SlashContext :=
  let userId := user_id (ix_user interaction) in
  {| sl_Body := prompt;
     sl_From := "discord:" ++ userId;
     sl_To := "slash:" ++ userId;
     sl_ChatType := "direct";
     sl_SenderName := user_username (ix_user interaction);
     sl_Surface := "discord";
     sl_WasMentioned := true;
     sl_MessageSid := ix_id interaction;
     sl_Timestamp := ix_createdTimestamp interaction;
     sl_SessionKey := slash_sessionPrefix slashCommand ++ ":" ++ userId |}.

(** The [catch] of the handler, entered after the completed calls
    [log]. *)
Definition slashCatch (env : SlashEnv) (interaction : Interaction)
    (generated : option SlashContext) (log : list InteractionCall)
  : SlashOutcome :=
  if ix_isRepliable interaction then
    let call :=
      if acknowledged env log then CallFollowUp sorry true
      else CallReply sorry true in
    if callResolves env call
    then mkSlashOutcome (log ++ [call])%list generated SlashApologised
    else mkSlashOutcome log generated SlashUnhandled
  else mkSlashOutcome log generated SlashNotRepliable.

(** The handler subscribed to [Events.InteractionCreate]. *)
Definition interactionCreate (env : SlashEnv) (interaction : Interaction)
  : SlashOutcome :=
  if negb (slash_enabled slashCommand)
  then mkSlashOutcome [] None SlashIgnored
  else if negb (ix_isChatInputCommand interaction)
  then mkSlashOutcome [] None SlashIgnored
  else if negb (String.eqb (ix_commandName interaction)
                  (slash_name slashCommand))
  then mkSlashOutcome [] None SlashIgnored
  else if user_bot (ix_user interaction)
  then mkSlashOutcome [] None SlashIgnored
  else
    match slashScreen interaction with
    | Some why => mkSlashOutcome [] None (SlashDropped why)
    | None =>
        match resolveSlashPrompt (ix_options interaction) with
        | None =>
            let call := CallReply "Message required." true in
            if callResolves env call
            then mkSlashOutcome [call] None SlashPromptRequired
            else slashCatch env interaction None []
        | Some prompt =>
            let defer := CallDeferReply (slash_ephemeral slashCommand) in
            if negb (callResolves env defer)
            then slashCatch env interaction None []
            else
              let ctxPayload := slashContextOf interaction prompt in
              match slashReply env ctxPayload with
              | Threw =>
                  slashCatch env interaction (Some ctxPayload) [defer]
              | Ok replyResult =>
                  match perform (callResolves env)
                          (deliverSlashReplies chunkText silentReplyToken
                             (repliesOf replyResult)
                             (slash_ephemeral slashCommand) (textLimit cfg))
                          [defer]
                  with
                  | (Ok _, log) =>
                      mkSlashOutcome log (Some ctxPayload) SlashAnswered
                  | (Threw, log) =>
                      slashCatch env interaction (Some ctxPayload) log
                  end
              end
        end
    end.

End SlashHandler.

(** ** Reactions and the slash command: vocabulary *)

(** [guildInfo?.reactionNotifications ?? "own"] for a guild. *)
Definition reactionModeFor (cfg : Setup) (guild : Guild) : ReactionMode :=
  Js.nullish
    (resolveDiscordGuildEntry (Some guild) (guildEntries cfg)
     ≫= ge_reactionNotifications)
    ReactOwn.

(** [reaction.partial ? await reaction.fetch() : reaction] *)
Definition resolvedReactionOf (reaction : Reaction) : Res ReactionData :=
  if rx_partial reaction then rx_fetch reaction else Ok (rx_now reaction).

(** [message.partial ? await message.fetch() : message] *)
Definition resolvedMessageOf (data : ReactionData) : Res ReactedMessage :=
  if mh_partial (rd_message data) then mh_fetch (rd_message data)
  else Ok (mh_now (rd_message data)).

Definition isQueued (ending : ReactionEnding) : bool :=
  match ending with ReactionQueued _ _ => true | _ => false end.

Module ReactionScene.

Definition bob : ReactionUser :=
  mkReactionUser "2002" false (Some "bob") (Some "bob#0002").

Definition botUser : ReactionUser :=
  mkReactionUser "42" true (Some "clawd") (Some "clawd#0001").

(** A message written by the bot in the fixture guild. *)
Definition botMessage : ReactedMessage :=
  mkReactedMessage "m9" "7000" (Some (Some "general")) (Some Fixture.guild)
    (Some botUser).

Definition thumbsUp : Emoji := mkEmoji (Some "+1") None (Some "+1").

(** A complete reaction on a complete message. *)
Definition reactionOn (message : ReactedMessage) : Reaction :=
  let data :=
    mkReactionData thumbsUp (mkMessageHandle false Threw message) in
  mkReaction false Threw data.

End ReactionScene.

(** The string values of an option and of the options below it, the
    option's own value first. *)
Fixpoint stringsOfOption (opt : CommandInteractionOption) : list string :=
  match opt with
  | mkOption value options =>
      (match value with Some (ValString s) => [s] | _ => [] end
       ++ match options with
          | Some options => flat_map stringsOfOption options
          | None => []
          end)%list
  end.

(** The string values of an option tree, depth first. *)
Definition stringsOf (options : list CommandInteractionOption)
  : list string :=
  flat_map stringsOfOption options.

(** The trimmed values that are not empty. *)
Definition nonBlank (values : list string) : list string :=
  List.filter Js.truthy (map Js.trim values).

(** The configuration that states every field of a resolved one. *)
Definition explicitSlash (c : SlashCommand) : DiscordSlashCommandConfig :=
  mkRawSlash (Some (slash_enabled c)) (Some (slash_name c))
    (Some (slash_sessionPrefix c)) (Some (slash_ephemeral c)).

(** An interaction and a message of the same user in the same place. *)
Definition sameOrigin (interaction : Interaction) (message : Message)
  : Prop :=
  msg_author message = Some (ix_user interaction)
  /\ ix_inGuild interaction = isGuildMessage message
  /\ ix_guild interaction = msg_guild message
  /\ ix_channel interaction
     = Some (mkSlashChannel (msg_channelType message)
               (match msg_channelName message with
                | Some name => name
                | None => None
                end))
  /\ ix_channelId interaction = msg_channelId message.

(** The checks of the message handler, in its order. *)
Definition messageScreen (cfg : Setup) (env : Env) (message : Message)
    (author : User) : option DropReason :=
  match screenBeforeHistory cfg message with
  | Some why => Some why
  | None => screenAfterHistory cfg env message author
  end.

(** A payload that [deliverSlashReplies] passes over: its trimmed text is
    empty or the silent token, and it has no media URL that is not
    blank. *)
Definition isSilentPayload (silentReplyToken : string)
    (payload : ReplyPayload) : bool :=
  let textRaw := Js.nullish (Js.trim <$> text payload) "" in
  (Js.isEmpty textRaw || String.eqb textRaw silentReplyToken)
  && forallb (fun url => Js.isEmpty (Js.trim url)) (statedMedia payload).

(** The lines of the text a payload hands to the chunker: its trimmed
    text, unless that is empty or the silent token, and then its media
    URLs, trimmed, without the blank ones. *)
Definition statedLines (silentReplyToken : string) (payload : ReplyPayload)
  : list string :=
  let textRaw := Js.nullish (Js.trim <$> text payload) "" in
  ((if Js.isEmpty textRaw || String.eqb textRaw silentReplyToken
    then [] else [textRaw])
   ++ nonBlank (statedMedia payload))%list.

Definition noResponse : string :=
  "No response was generated for that command.".

(** A call that shows the user something. *)
Definition isAnswer (call : InteractionCall) : bool :=
  match call with CallDeferReply _ => false | _ => true end.

Module SlashScene.

(** The slash command of a configuration that sets no field. *)
Definition command : SlashCommand :=
  slashSetup None (Some (mkRawSlash None None None None)).

Definition stringOption (s : string) : CommandInteractionOption :=
  mkOption (Some (ValString s)) None.

(** The command used by Alice in the fixture guild. *)
Definition ask (options : list CommandInteractionOption) : Interaction :=
  {| ix_id := "i1";
     ix_isChatInputCommand := true;
     ix_commandName := "clawd";
     ix_user := Fixture.alice;
     ix_channel := Some (mkSlashChannel ChOtherChannel (Some "general"));
     ix_channelId := "7000";
     ix_inGuild := true;
     ix_guild := Some Fixture.guild;
     ix_options := options;
     ix_createdTimestamp := 1700000000000;
     ix_isRepliable := true |}.

(** A world where every call resolves and the generator ends as given. *)
Definition world (reply : Res ReplyResult) : SlashEnv :=
  mkSlashEnv (fun _ => reply) (fun _ => true)
    (fun log => match log with [] => false | _ => true end).

Definition handle (env : SlashEnv) (interaction : Interaction)
  : SlashOutcome :=
  interactionCreate Fixture.chunkText "SILENT" command
    (Fixture.setup None None) env interaction.

End SlashScene.

(** The reasons of the checks placed before the history step. *)
Definition isEarlyReason (why : DropReason) : bool :=
  match why with
  | BotAuthor | NoAuthor | GroupDmDisabled | DmDisabled | CommandMessage
  | GuildNotListed | GroupDmNotAllowed | ChannelNotAllowed => true
  | _ => false
  end.

(** ** The history between two turns: vocabulary *)

(** A text-bearing guild message under a positive history limit. *)
Definition isTextBearing (cfg : Setup) (message : Message) : bool :=
  match msg_guild message with
  | Some _ =>
      (0 <? historyLimit cfg) && negb (Js.isEmpty (baseTextOf message))
  | None => false
  end.

(** The entry appended to the history of [channel] for an event: the
    message is in the channel, its author is no bot, it passes the checks
    placed before the history step, and it is a text-bearing guild
    message under a positive limit. *)
Definition recordedEntry (cfg : Setup) (channel : string)
    (ev : Env * Message) : list DiscordHistoryEntry :=
  let message := snd ev in
  match msg_author message with
  | Some author =>
      if String.eqb (msg_channelId message) channel
         && negb (user_bot author)
         && match screenBeforeHistory cfg message with
            | None => true
            | Some _ => false
            end
         && isTextBearing cfg message
      then [historyEntryOf message author]
      else []
  | None => []
  end.

(** The entries appended to the history of [channel] by a sequence of
    events, in order. *)
Definition recordedOn (cfg : Setup) (channel : string)
    (events : list (Env * Message)) : list DiscordHistoryEntry :=
  flat_map (recordedEntry cfg channel) events.

(** The context block of a body: the rendered entries, then the current
    message. *)
Definition contextBlock (formatAgentEnvelope : Envelope -> string)
    (message : Message) (author : User)
    (entries : list DiscordHistoryEntry) (current : string) : string :=
  "[Chat messages since your last reply - for context]" ++ nl
  ++ Js.join nl
       (map (historyLine formatAgentEnvelope message
               (fromLabelOf message author))
          entries)
  ++ nl ++ nl ++ "[Current message - respond to this]" ++ nl ++ current.

Module HistoryScene.

(** A mentioned guild message that forwards another one and has neither
    content nor attachments of its own; the forwarded text is empty. *)
Definition forwardedOnly (id : string) : Message :=
  {| msg_id := id;
     msg_author := Some Fixture.alice;
     msg_channelType := ChOtherChannel;
     msg_channelName := Some (Some "general");
     msg_guild := Some Fixture.guild;
     msg_channelId := "7000";
     msg_type := MtDefault;
     msg_content := None;
     msg_attachments := [];
     msg_embeds := [];
     msg_mentionsHas := fun _ => true;
     msg_memberDisplayName := Some "Alice";
     msg_createdTimestamp := 1700000000000;
     msg_snapshots := [mkSnapshot (Some "") [] None None];
     msg_reference := None |}.

Definition world : Env := Fixture.answeringWorld (Some "42").

(** The history map after one unmentioned message, under [limit]. *)
Definition afterDropped (limit : option Z) : Histories :=
  out_histories
    (Fixture.handle (Fixture.setup limit None) world ∅
       (Fixture.guildMessage "m1" "one" false [])).

(** Another unmentioned message of the channel. *)
Definition between : list (Env * Message) :=
  [(world, Fixture.guildMessage "m1b" "between" false [])].

End HistoryScene.

(** ** Allow lists: properties *)

Section AllowListFacts.

Variable prefixes : list string.

Lemma allowListStep_blank acc e :
  isBlankEntry e = true -> allowListStep prefixes acc e = acc.
Proof.
  unfold isBlankEntry, allowListStep. intros ->. reflexivity.
Qed.

Lemma allowListStep_wildcard acc e :
  Js.trim (String_ e) = "*" ->
  acc_allowAll (allowListStep prefixes acc e) = true.
Proof.
  unfold allowListStep. intros ->. reflexivity.
Qed.

Lemma allowListStep_keeps_allowAll acc e :
  acc_allowAll acc = true ->
  acc_allowAll (allowListStep prefixes acc e) = true.
Proof.
  intros H. unfold allowListStep.
  repeat case_match; simpl; auto.
Qed.

Lemma allowListLoop_keeps_allowAll raw : forall acc,
  acc_allowAll acc = true ->
  acc_allowAll (allowListLoop prefixes raw acc) = true.
Proof.
  unfold allowListLoop.
  induction raw as [|e raw IH]; intros acc H; simpl; [exact H|].
  apply IH, allowListStep_keeps_allowAll, H.
Qed.

Lemma allowListLoop_wildcard raw : forall acc e,
  In e raw -> Js.trim (String_ e) = "*" ->
  acc_allowAll (allowListLoop prefixes raw acc) = true.
Proof.
  induction raw as [|x raw IH]; intros acc e Hin He; [destruct Hin|].
  destruct Hin as [->|Hin].
  - apply allowListLoop_keeps_allowAll with (raw := raw).
    apply allowListStep_wildcard, He.
  - exact (IH _ e Hin He).
Qed.

Lemma allowListLoop_skips_blank raw : forall acc,
  allowListLoop prefixes raw acc
  = allowListLoop prefixes
      (List.filter (fun e => negb (isBlankEntry e)) raw) acc.
Proof.
  unfold allowListLoop.
  induction raw as [|e raw IH]; intros acc; simpl; [reflexivity|].
  destruct (isBlankEntry e) eqn:Hb; simpl.
  - rewrite allowListStep_blank by exact Hb. apply IH.
  - apply IH.
Qed.

Lemma allowListLoop_all_blank raw : forall acc,
  allowListLoop prefixes (List.filter isBlankEntry raw) acc = acc.
Proof.
  unfold allowListLoop.
  induction raw as [|e raw IH]; intros acc; simpl; [reflexivity|].
  destruct (isBlankEntry e) eqn:Hb; simpl; [|apply IH].
  rewrite allowListStep_blank by exact Hb. apply IH.
Qed.

(** The result of the builder in terms of the loop alone: the test on
    the length of the input is subsumed by the final test. *)
Lemma normalizeDiscordAllowList_loop raw :
  normalizeDiscordAllowList (Some raw) prefixes
  = let acc := allowListLoop prefixes raw (mkAcc false ∅ ∅) in
    if negb (acc_allowAll acc) && isEmptySet (acc_ids acc)
       && isEmptySet (acc_names acc)
    then None
    else Some (mkAllowList (acc_allowAll acc) (acc_ids acc)
                 (acc_names acc)).
Proof.
  destruct raw as [|e raw]; reflexivity.
Qed.

End AllowListFacts.

Lemma allowListMatches_allowAll allowList candidates :
  allowAll allowList = true -> allowListMatches allowList candidates = true.
Proof.
  unfold allowListMatches. intros ->. reflexivity.
Qed.

(** C4. A raw allow list that contains the entry ["*"] builds a list with
    [allowAll] set, and that list matches every candidate, the candidate
    without id, name and tag included. *)
Theorem C4_wildcard_matches_every_candidate
    (raw : list RawEntry) (prefixes : list string) :
  In (RawStr "*") raw ->
  exists allowList,
    normalizeDiscordAllowList (Some raw) prefixes = Some allowList
    /\ allowAll allowList = true
    /\ (forall candidates, allowListMatches allowList candidates = true)
    /\ allowListMatches allowList (mkCand None None None) = true.
Proof.
  intros Hin.
  assert (Hall : acc_allowAll
                   (allowListLoop prefixes raw (mkAcc false ∅ ∅)) = true).
  { apply allowListLoop_wildcard with (e := RawStr "*"); [exact Hin|].
    reflexivity. }
  rewrite normalizeDiscordAllowList_loop. cbv zeta.
  rewrite Hall. simpl.
  eexists. split; [reflexivity|]. simpl.
  split; [reflexivity|].
  split; intros; apply allowListMatches_allowAll; reflexivity.
Qed.

Lemma C4_wildcard_witness :
  exists allowList,
    normalizeDiscordAllowList (Some [RawStr "1234"; RawStr "*"]) userPrefixes
    = Some allowList
    /\ allowAll allowList = true
    /\ (forall candidates, allowListMatches allowList candidates = true)
    /\ allowListMatches allowList (mkCand None None None) = true.
Proof.
  apply (C4_wildcard_matches_every_candidate
           [RawStr "1234"; RawStr "*"] userPrefixes).
  simpl. right. left. reflexivity.
Defined.

(** C5 as the code has it.  Blank entries are ignored: the builder gives
    the same result with and without them.  It returns null for the empty
    list, for an absent list and for a list of blank entries.  Whatever it
    returns has [allowAll] set or holds an id or a name; a list with
    [allowAll] unset and both sets empty is never returned. *)
Theorem C5_blank_entries_and_empty_results
    (raw : list RawEntry) (prefixes : list string) :
  normalizeDiscordAllowList (Some raw) prefixes
  = normalizeDiscordAllowList
      (Some (List.filter (fun e => negb (isBlankEntry e)) raw)) prefixes
  /\ normalizeDiscordAllowList (Some []) prefixes = None
  /\ normalizeDiscordAllowList None prefixes = None
  /\ normalizeDiscordAllowList (Some (List.filter isBlankEntry raw)) prefixes
     = None
  /\ match normalizeDiscordAllowList (Some raw) prefixes with
     | None => True
     | Some allowList =>
         allowAll allowList = true
         \/ ids allowList <> ∅ \/ names allowList <> ∅
     end
  /\ normalizeDiscordAllowList (Some raw) prefixes
     <> Some (mkAllowList false ∅ ∅).
Proof.
  assert (Hshape :
    match normalizeDiscordAllowList (Some raw) prefixes with
    | None => True
    | Some allowList =>
        allowAll allowList = true
        \/ ids allowList <> ∅ \/ names allowList <> ∅
    end).
  { rewrite normalizeDiscordAllowList_loop. cbv zeta.
    destruct (acc_allowAll _) eqn:Ha; simpl; [left; reflexivity|].
    unfold isEmptySet.
    destruct (bool_decide (acc_ids _ = ∅)) eqn:Hi; simpl.
    - destruct (bool_decide (acc_names _ = ∅)) eqn:Hn; simpl; [exact I|].
      right. right. apply bool_decide_eq_false in Hn. exact Hn.
    - right. left. apply bool_decide_eq_false in Hi. exact Hi. }
  repeat split.
  - rewrite !normalizeDiscordAllowList_loop.
    rewrite <- allowListLoop_skips_blank. reflexivity.
  - rewrite normalizeDiscordAllowList_loop, allowListLoop_all_blank.
    reflexivity.
  - exact Hshape.
  - intros Heq. rewrite Heq in Hshape. simpl in Hshape.
    destruct Hshape as [H|[H|H]]; [discriminate| |]; apply H; reflexivity.
Qed.

(** C5, the sentence in brackets fails: an entry that is not blank may
    still contribute nothing.  ["@"] alone builds null, and ["*"] alone
    builds a list without any id or name. *)
Lemma C5_nonblank_entry_without_id_or_name :
  isBlankEntry (RawStr "@") = false
  /\ normalizeDiscordAllowList (Some [RawStr "@"]) userPrefixes = None
  /\ isBlankEntry (RawStr "*") = false
  /\ normalizeDiscordAllowList (Some [RawStr "*"]) userPrefixes
     = Some (mkAllowList true ∅ ∅).
Proof.
  repeat split; vm_compute; reflexivity.
Qed.

(** ** Sending code: rules *)

Section SendingRules.

Context {A B : Type}.

Lemma hoare_ret (a : A) (Q : A -> list OutboundSend -> Prop) E :
  hoare (Q a) (ret a) Q E.
Proof. intros log H. exact H. Qed.

Lemma hoare_bind (m : Sending A) (k : A -> Sending B) P Q R E :
  hoare P m Q E ->
  (forall a, hoare (Q a) (k a) R E) ->
  hoare P (bind m k) R E.
Proof.
  intros Hm Hk log HP. unfold bind.
  specialize (Hm log HP). destruct (m log) as [[a|] log']; [|exact Hm].
  exact (Hk a log' Hm).
Qed.

Lemma hoare_weaken (m : Sending A) (P P' : list OutboundSend -> Prop)
    (Q Q' : A -> list OutboundSend -> Prop) (E E' : _ -> Prop) :
  hoare P m Q E ->
  (forall log, P' log -> P log) ->
  (forall a log, Q a log -> Q' a log) ->
  (forall log, E log -> E' log) ->
  hoare P' m Q' E'.
Proof.
  intros Hm HP HQ HE log H. specialize (Hm log (HP log H)).
  destruct (m log) as [[a|] log']; auto.
Qed.

Lemma framed_ret (a : A) : framed (ret a).
Proof. intros log. unfold ret. simpl. rewrite app_nil_r. reflexivity. Qed.

Lemma framed_bind (m : Sending A) (k : A -> Sending B) :
  framed m -> (forall a, framed (k a)) -> framed (bind m k).
Proof.
  intros Hm Hk log. unfold bind.
  rewrite (Hm log). destruct (m []) as [[a|] new] eqn:Hnil; simpl.
  - rewrite (Hk a (log ++ new)%list), (Hk a new). simpl.
    rewrite app_assoc. reflexivity.
  - reflexivity.
Qed.

End SendingRules.

Lemma hoare_send (resolves : OutboundSend -> bool) (s : OutboundSend)
    (P : list OutboundSend -> Prop) :
  hoare P (sendMessageDiscord resolves s)
    (fun _ log' => exists log, P log /\ log' = (log ++ [s])%list) P.
Proof.
  intros log HP. unfold sendMessageDiscord.
  destruct (resolves s); [exists log; auto | exact HP].
Qed.

Lemma framed_send (resolves : OutboundSend -> bool) (s : OutboundSend) :
  framed (sendMessageDiscord resolves s).
Proof.
  intros log. unfold sendMessageDiscord.
  destruct (resolves s); simpl; rewrite ?app_nil_r; reflexivity.
Qed.

(** The loop rule: an invariant over the locals and the log. *)
Lemma hoare_forEach {X S} (body : X -> S -> Sending S)
    (I : S -> list OutboundSend -> Prop) (E : list OutboundSend -> Prop)
    (xs : list X) :
  (forall x s, In x xs -> hoare (I s) (body x s) I E) ->
  forall s, hoare (I s) (forEach xs body s) I E.
Proof.
  induction xs as [|x xs IH]; intros Hbody s; simpl.
  - apply hoare_ret.
  - eapply hoare_bind.
    + apply Hbody. left. reflexivity.
    + intros s'. apply IH. intros y t Hy. apply Hbody. right. exact Hy.
Qed.

Lemma framed_forEach {X S} (body : X -> S -> Sending S) (xs : list X) :
  (forall x s, framed (body x s)) -> forall s, framed (forEach xs body s).
Proof.
  intros Hbody. induction xs as [|x xs IH]; intros s; simpl.
  - apply framed_ret.
  - apply framed_bind; [apply Hbody | exact IH].
Qed.

Section DeliveryFacts.

Variable chunkText : string -> Z -> list string.
Variable resolves : OutboundSend -> bool.
Variables (target token : string).

Lemma framed_deliverPayload mode limit payload hasReplied :
  framed (deliverPayload chunkText resolves target token mode limit
            payload hasReplied).
Proof.
  unfold deliverPayload.
  destruct (mediaListOf payload) as [|u us].
  - destruct (Js.isEmpty _); [apply framed_ret|].
    apply framed_forEach. intros chunk h. unfold sendChunk.
    apply framed_bind; [apply framed_send | intros; apply framed_ret].
  - apply framed_bind; [|intros; apply framed_ret].
    apply framed_forEach. intros url [first h]. unfold sendMedia.
    apply framed_bind; [apply framed_send | intros; apply framed_ret].
Qed.

Lemma framed_deliverReplies replies mode textLimit :
  framed (deliverReplies chunkText resolves replies target token mode
            textLimit).
Proof.
  unfold deliverReplies. apply framed_bind; [|intros; apply framed_ret].
  apply framed_forEach. intros. apply framed_deliverPayload.
Qed.

(** *** Threading *)

Lemma unthreadedLog_snoc log s :
  unthreadedLog log -> isThreaded s = false -> unthreadedLog (log ++ [s]).
Proof.
  intros Hl Hs. apply Forall_app. split; [exact Hl|].
  constructor; [exact Hs | constructor].
Qed.

Lemma threadedOnce_snoc log s :
  threadedOnce log -> isThreaded s = false -> threadedOnce (log ++ [s]).
Proof.
  intros (before & t & after & -> & Hb & Ht & Ha) Hs.
  exists before, t, (after ++ [s])%list.
  rewrite <- app_assoc. simpl. repeat split; auto.
  apply unthreadedLog_snoc; assumption.
Qed.

Lemma threadedOnce_first log s :
  unthreadedLog log -> isThreaded s = true -> threadedOnce (log ++ [s]).
Proof.
  intros Hl Hs. exists log, s, []. repeat split; auto. constructor.
Qed.

Lemma resolve_first_true id :
  resolveDiscordReplyTarget ReplyFirst id true = None.
Proof.
  unfold resolveDiscordReplyTarget. destruct (negb _); reflexivity.
Qed.

Lemma resolve_nonblank mode id :
  mode <> ReplyOff ->
  Js.truthyOpt (Js.trim <$> id) = true ->
  resolveDiscordReplyTarget mode id false = Js.trim <$> id.
Proof.
  intros Hm H. unfold resolveDiscordReplyTarget.
  rewrite H. destruct mode; simpl; congruence.
Qed.

Lemma resolve_blank mode id hasReplied :
  Js.truthyOpt (Js.trim <$> id) = false ->
  resolveDiscordReplyTarget mode id hasReplied = None.
Proof.
  intros H. unfold resolveDiscordReplyTarget.
  rewrite H. destruct mode; reflexivity.
Qed.

Lemma resolve_all id hasReplied :
  resolveDiscordReplyTarget ReplyAll id hasReplied
  = if hasReplyToId (mkPayload None None None id)
    then Js.trim <$> id else None.
Proof.
  unfold resolveDiscordReplyTarget, hasReplyToId. simpl.
  destruct (Js.truthyOpt (Js.trim <$> id)); reflexivity.
Qed.

Lemma resolve_some_truthy mode id hasReplied r :
  resolveDiscordReplyTarget mode id hasReplied = Some r ->
  Js.truthyOpt (Some r) = true.
Proof.
  unfold resolveDiscordReplyTarget.
  destruct mode; [discriminate| |];
    destruct (Js.truthyOpt (Js.trim <$> id)) eqn:Ht; cbn [negb];
    try discriminate.
  - destruct hasReplied; [discriminate|].
    intros H. rewrite <- H. exact Ht.
  - intros H. rewrite <- H. exact Ht.
Qed.

(** One send in first mode keeps the invariant, whatever is sent. *)
Lemma firstInv_send id txt media hasReplied :
  let replyTo := resolveDiscordReplyTarget ReplyFirst id hasReplied in
  hoare (firstInv hasReplied)
    (sendMessageDiscord resolves (mkSend target txt token media replyTo))
    (fun _ log => firstInv (markReplied replyTo hasReplied) log)
    (fun log => unthreadedLog log \/ threadedOnce log).
Proof.
  intros replyTo.
  eapply hoare_weaken; [apply hoare_send| | |].
  - intros log H. exact H.
  - intros _ log' (log & Hinv & ->). subst replyTo.
    destruct hasReplied.
    + rewrite resolve_first_true.
      change (threadedOnce (log ++ [mkSend target txt token media None])).
      apply threadedOnce_snoc; [exact Hinv | reflexivity].
    + destruct (resolveDiscordReplyTarget ReplyFirst id false) as [r|]
        eqn:Hr.
      * unfold markReplied.
        rewrite (resolve_some_truthy _ _ _ _ Hr).
        change (threadedOnce
                  (log ++ [mkSend target txt token media (Some r)])).
        apply threadedOnce_first; [exact Hinv | reflexivity].
      * change (unthreadedLog
                  (log ++ [mkSend target txt token media None])).
        apply unthreadedLog_snoc; [exact Hinv | reflexivity].
  - intros log H. destruct hasReplied; [right | left]; exact H.
Qed.

Lemma firstInv_deliverPayload limit payload hasReplied :
  hoare (firstInv hasReplied)
    (deliverPayload chunkText resolves target token ReplyFirst limit
       payload hasReplied)
    firstInv
    (fun log => unthreadedLog log \/ threadedOnce log).
Proof.
  unfold deliverPayload.
  destruct (mediaListOf payload) as [|u us].
  - destruct (Js.isEmpty _); [apply hoare_ret|].
    apply hoare_forEach. intros chunk h _. unfold sendChunk.
    eapply hoare_bind; [apply firstInv_send|].
    intros ? log H. exact H.
  - eapply hoare_bind with (Q := fun st log => firstInv (snd st) log).
    + change (firstInv hasReplied)
        with ((fun (st : bool * bool) log => firstInv (snd st) log)
                (true, hasReplied)).
      apply hoare_forEach.
      intros url [first h] _. unfold sendMedia. cbn [snd].
      eapply hoare_bind; [apply firstInv_send|].
      intros ? log H. exact H.
    + intros st. apply hoare_ret.
Qed.

Lemma firstInv_deliverReplies replies textLimit :
  let sent :=
    sendsOf (deliverReplies chunkText resolves replies target token
               ReplyFirst textLimit) in
  unthreadedLog sent \/ threadedOnce sent.
Proof.
  intros sent. subst sent. unfold sendsOf, deliverReplies.
  assert (H : hoare (firstInv false)
                (forEach replies
                   (deliverPayload chunkText resolves target token
                      ReplyFirst (Z.min textLimit 2000)) false)
                firstInv
                (fun log => unthreadedLog log \/ threadedOnce log)).
  { apply hoare_forEach. intros. apply firstInv_deliverPayload. }
  assert (H0 : firstInv false []) by constructor.
  specialize (H [] H0). unfold bind.
  destruct (forEach _ _ _ _) as [[h|] log]; simpl.
  - destruct h; [right | left]; exact H.
  - exact H.
Qed.

(** *** Properties that hold of every send of a call *)

Lemma each_deliverPayload (R : OutboundSend -> Prop) mode limit payload
    hasReplied :
  (forall txt media h,
      R (mkSend target txt token media
           (resolveDiscordReplyTarget mode (replyToId payload) h))) ->
  hoare (Forall R)
    (deliverPayload chunkText resolves target token mode limit payload
       hasReplied)
    (fun _ => Forall R) (Forall R).
Proof.
  intros HR.
  assert (Hsend : forall txt media h,
    hoare (Forall R)
      (sendMessageDiscord resolves
         (mkSend target txt token media
            (resolveDiscordReplyTarget mode (replyToId payload) h)))
      (fun _ => Forall R) (Forall R)).
  { intros txt media h.
    eapply hoare_weaken; [apply hoare_send| | |].
    - intros log H. exact H.
    - intros ? log' (log & Hl & ->). apply Forall_app.
      split; [exact Hl|]. constructor; [apply HR | constructor].
    - intros log H. exact H. }
  unfold deliverPayload.
  destruct (mediaListOf payload) as [|u us].
  - destruct (Js.isEmpty _); [intros log H; exact H|].
    apply (hoare_forEach _ (fun _ => Forall R)).
    intros chunk h _. unfold sendChunk.
    eapply hoare_bind; [apply Hsend|]. intros ? log H. exact H.
  - eapply hoare_bind with (Q := fun _ => Forall R).
    + apply (hoare_forEach _ (fun _ => Forall R)).
      intros url [first h] _. unfold sendMedia.
      eapply hoare_bind; [apply Hsend|]. intros ? log H. exact H.
    + intros st log H. exact H.
Qed.

Lemma each_deliverReplies (R : OutboundSend -> Prop) mode textLimit
    replies :
  (forall payload txt media h,
      In payload replies ->
      R (mkSend target txt token media
           (resolveDiscordReplyTarget mode (replyToId payload) h))) ->
  Forall R
    (sendsOf (deliverReplies chunkText resolves replies target token mode
                textLimit)).
Proof.
  intros HR. unfold sendsOf, deliverReplies.
  assert (H : hoare (Forall R)
                (forEach replies
                   (deliverPayload chunkText resolves target token mode
                      (Z.min textLimit 2000)) false)
                (fun _ => Forall R) (Forall R)).
  { apply (hoare_forEach _ (fun _ => Forall R)).
    intros payload h Hin. apply each_deliverPayload.
    intros. apply HR. exact Hin. }
  assert (H0 : Forall R []) by constructor.
  specialize (H [] H0). unfold bind.
  destruct (forEach _ _ _ _) as [[h|] log]; exact H.
Qed.

(** *** First mode when every payload carries a reply id *)

Lemma firstInvStrict_send id txt media hasReplied :
  Js.truthyOpt (Js.trim <$> id) = true ->
  let replyTo := resolveDiscordReplyTarget ReplyFirst id hasReplied in
  hoare (firstInvStrict hasReplied)
    (sendMessageDiscord resolves (mkSend target txt token media replyTo))
    (fun _ log => firstInvStrict (markReplied replyTo hasReplied) log)
    (fun log => log = [] \/ onlyFirstThreaded log).
Proof.
  intros Hid replyTo.
  eapply hoare_weaken; [apply hoare_send| | |].
  - intros log H. exact H.
  - intros _ log' (log & Hinv & ->). subst replyTo.
    destruct hasReplied.
    + rewrite resolve_first_true.
      destruct Hinv as (s & rest & -> & Hs & Hrest).
      exists s, (rest ++ [mkSend target txt token media None])%list.
      repeat split; auto.
      apply unthreadedLog_snoc; [exact Hrest | reflexivity].
    + rewrite resolve_nonblank by (auto; discriminate).
      unfold markReplied. rewrite Hid. cbn [negb andb].
      unfold firstInvStrict in Hinv. subst log.
      exists (mkSend target txt token media (Js.trim <$> id)), [].
      repeat split; [|constructor].
      unfold isThreaded. simpl.
      destruct (Js.trim <$> id); [reflexivity | discriminate].
  - intros log H. destruct hasReplied; [right | left]; exact H.
Qed.

Lemma firstInvStrict_deliverPayload limit payload hasReplied :
  hasReplyToId payload = true ->
  hoare (firstInvStrict hasReplied)
    (deliverPayload chunkText resolves target token ReplyFirst limit
       payload hasReplied)
    firstInvStrict
    (fun log => log = [] \/ onlyFirstThreaded log).
Proof.
  intros Hid. unfold deliverPayload.
  destruct (mediaListOf payload) as [|u us].
  - destruct (Js.isEmpty _); [intros log H; exact H|].
    apply hoare_forEach. intros chunk h _. unfold sendChunk.
    eapply hoare_bind; [apply firstInvStrict_send, Hid|].
    intros ? log H. exact H.
  - eapply hoare_bind
      with (Q := fun st log => firstInvStrict (snd st) log).
    + change (firstInvStrict hasReplied)
        with ((fun (st : bool * bool) log => firstInvStrict (snd st) log)
                (true, hasReplied)).
      apply hoare_forEach.
      intros url [first h] _. unfold sendMedia. cbn [snd].
      eapply hoare_bind; [apply firstInvStrict_send, Hid|].
      intros ? log H. exact H.
    + intros st log H. exact H.
Qed.

Lemma firstInvStrict_deliverReplies replies textLimit :
  Forall (fun payload => hasReplyToId payload = true) replies ->
  let sent :=
    sendsOf (deliverReplies chunkText resolves replies target token
               ReplyFirst textLimit) in
  sent = [] \/ onlyFirstThreaded sent.
Proof.
  intros Hall sent. subst sent. unfold sendsOf, deliverReplies.
  assert (H : hoare (firstInvStrict false)
                (forEach replies
                   (deliverPayload chunkText resolves target token
                      ReplyFirst (Z.min textLimit 2000)) false)
                firstInvStrict
                (fun log => log = [] \/ onlyFirstThreaded log)).
  { apply hoare_forEach. intros payload h Hin.
    apply firstInvStrict_deliverPayload.
    rewrite List.Forall_forall in Hall. apply Hall, Hin. }
  assert (H0 : firstInvStrict false []) by reflexivity.
  specialize (H [] H0). unfold bind.
  destruct (forEach _ _ _ _) as [[h|] log]; simpl.
  - destruct h; [right | left]; exact H.
  - exact H.
Qed.

(** *** Media *)

Lemma sendMedia_loop_step mode txt id u urls (first : bool) h log :
  let s :=
    mkSend target (if first then txt else "") token (Some u)
      (resolveDiscordReplyTarget mode id h) in
  resolves s = true ->
  forEach (u :: urls) (sendMedia resolves target token mode txt id)
    (first, h) log
  = forEach urls (sendMedia resolves target token mode txt id)
      (false, markReplied (resolveDiscordReplyTarget mode id h) h)
      (List.app log [s]).
Proof.
  intros s Hres. subst s. cbn [forEach]. unfold bind at 1.
  unfold sendMedia at 1. unfold bind at 1.
  unfold sendMessageDiscord at 1. rewrite Hres. reflexivity.
Qed.

Lemma sendMedia_loop_shapes mode txt id :
  (forall s, resolves s = true) ->
  forall urls first h log,
  exists st new,
    forEach urls (sendMedia resolves target token mode txt id) (first, h)
      log
    = (Ok st, (log ++ new)%list)
    /\ map sendShape new
       = if first then captionedMedia txt urls
         else map (fun u => ("", Some u)) urls.
Proof.
  intros Hres. induction urls as [|u urls IH]; intros first h log.
  - exists (first, h), []. simpl. rewrite app_nil_r.
    split; [reflexivity | destruct first; reflexivity].
  - rewrite sendMedia_loop_step by apply Hres.
    match goal with
    | |- context [forEach urls _ (false, ?h') ?l] =>
        destruct (IH false h' l) as (st & new & Heq & Hshape)
    end.
    rewrite Heq.
    eexists st, (_ :: new). rewrite <- app_assoc.
    split; [reflexivity|].
    cbn [map]. rewrite Hshape. destruct first; reflexivity.
Qed.

End DeliveryFacts.

(** ** Reply threading and media delivery: the claims *)

(** C1 as the code has it.  The flag that records a threaded send is a
    local of [deliverReplies], so the statement is about one delivery call.
    In mode ["off"] no send of the call carries a reference.  In mode
    ["all"] every send of a payload carries the trimmed [replyToId] of that
    payload when it is not blank and none otherwise, so all sends are
    threaded when all payloads carry one.  In the remaining mode at most
    one send of the call carries a reference, and when every payload
    carries a reply id it is the first send of the call. *)
Theorem C1_threading_within_one_delivery_call
    (chunkText : string -> Z -> list string)
    (resolves : OutboundSend -> bool) (replies : list ReplyPayload)
    (target token : string) (textLimit : Z) :
  let sent mode :=
    sendsOf (deliverReplies chunkText resolves replies target token mode
               textLimit) in
  unthreadedLog (sent ReplyOff)
  /\ (forall payload hasReplied limit,
        Forall
          (fun s =>
             send_replyTo s
             = if hasReplyToId payload
               then Js.trim <$> replyToId payload else None)
          (sendsOf (deliverPayload chunkText resolves target token ReplyAll
                      limit payload hasReplied)))
  /\ (Forall (fun payload => hasReplyToId payload = true) replies ->
      Forall (fun s => isThreaded s = true) (sent ReplyAll))
  /\ (Forall (fun payload => hasReplyToId payload = true) replies ->
      sent ReplyFirst = [] \/ onlyFirstThreaded (sent ReplyFirst))
  /\ (unthreadedLog (sent ReplyFirst) \/ threadedOnce (sent ReplyFirst)).
Proof.
  intros sent. subst sent. cbv beta.
  split; [|split; [|split; [|split]]].
  - apply each_deliverReplies. intros. reflexivity.
  - intros payload hasReplied limit.
    pose proof (each_deliverPayload chunkText resolves target token
                  (fun s =>
                     send_replyTo s
                     = if hasReplyToId payload
                       then Js.trim <$> replyToId payload else None)
                  ReplyAll limit payload hasReplied) as H.
    unfold sendsOf.
    assert (H0 : Forall
                   (fun s =>
                      send_replyTo s
                      = if hasReplyToId payload
                        then Js.trim <$> replyToId payload else None) [])
      by constructor.
    assert (HR : forall txt media h,
               send_replyTo
                 (mkSend target txt token media
                    (resolveDiscordReplyTarget ReplyAll (replyToId payload)
                       h))
               = if hasReplyToId payload
                 then Js.trim <$> replyToId payload else None).
    { intros txt media h. cbn [send_replyTo]. apply resolve_all. }
    specialize (H HR [] H0).
    destruct (deliverPayload _ _ _ _ _ _ _ _ _) as [[h|] log]; exact H.
  - intros Hall. apply each_deliverReplies.
    intros payload txt media h Hin. rewrite List.Forall_forall in Hall.
    specialize (Hall payload Hin). unfold hasReplyToId in Hall.
    unfold resolveDiscordReplyTarget. rewrite Hall. simpl.
    unfold isThreaded. simpl.
    destruct (Js.trim <$> replyToId payload); [reflexivity | discriminate].
  - apply firstInvStrict_deliverReplies.
  - apply firstInv_deliverReplies.
Qed.

Lemma C1_threading_witness :
  let sent mode :=
    sendsOf (deliverReplies Fixture.chunkText Fixture.always
               Fixture.threeByTwo "channel:7000" "tok" mode 2000) in
  Forall (fun s => isThreaded s = true) (sent ReplyAll)
  /\ (sent ReplyFirst = [] \/ onlyFirstThreaded (sent ReplyFirst)).
Proof.
  pose proof (C1_threading_within_one_delivery_call Fixture.chunkText
                Fixture.always Fixture.threeByTwo "channel:7000" "tok" 2000)
    as (_ & _ & Hall & Hfirst & _).
  assert (Hids : Forall (fun payload => hasReplyToId payload = true)
                   Fixture.threeByTwo).
  { repeat constructor. }
  split; [exact (Hall Hids) | exact (Hfirst Hids)].
Defined.

(** Three payloads producing two sends each, in one delivery call in first
    mode: of the six sends exactly the first is threaded. *)
Example six_sends_one_reference :
  map send_replyTo
    (sendsOf (deliverReplies Fixture.chunkText Fixture.always
                Fixture.threeByTwo "channel:7000" "tok" ReplyFirst 2000))
  = [Some "m1"; None; None; None; None; None].
Proof. vm_compute. reflexivity. Qed.

(** C1, where the claim fails.  Each block reply is delivered by a call of
    its own, with a fresh flag: in a turn that streams one block reply and
    then returns one final reply, both sends are threaded.  And the mode
    taken when none is configured is ["off"], not the first-only mode. *)
Lemma C1_streamed_turn_threads_twice :
  map send_replyTo (out_sends Fixture.streamedTurn)
  = [Some "m1"; Some "m1"]
  /\ map send_text (out_sends Fixture.streamedTurn) = ["partial"; "final"]
  /\ replyToMode (Fixture.setup None None) = ReplyOff.
Proof. vm_compute. repeat split; reflexivity. Qed.

(** The media list [deliverReplies] computes is the one the fields of the
    payload state. *)
Lemma mediaListOf_stated payload : mediaListOf payload = statedMedia payload.
Proof.
  unfold mediaListOf, statedMedia.
  destruct (mediaUrls payload) as [urls|]; [reflexivity|].
  destruct (mediaUrl payload) as [url|]; [|reflexivity].
  unfold Js.truthy. destruct (Js.isEmpty url); reflexivity.
Qed.

(** C9 as the code has it.  The media of a payload are the URLs of its
    [mediaUrls] field when that field is present and otherwise its
    [mediaUrl] when that is not empty.  When the sends resolve, a payload
    with media produces exactly one send per media URL, the first with the
    payload's text as caption and the others with the empty caption; a
    payload whose [mediaUrls] is the empty array has no media, whatever its
    [mediaUrl], and produces the chunks of its text and nothing else; and
    the payloads [{text:"part1"}, {text:"", mediaUrl:"http://x/img.jpg"}]
    produce a text send for ["part1"] followed by a media send with empty
    caption, where [chunkText] leaves ["part1"] in one piece. *)
Theorem C9_media_sends_and_captions
    (chunkText : string -> Z -> list string)
    (resolves : OutboundSend -> bool) (target token : string)
    (replyToMode : ReplyToMode) (textLimit : Z) :
  (forall s, resolves s = true) ->
  chunkText "part1" (Z.min textLimit 2000) = ["part1"] ->
  (forall payload hasReplied limit,
      statedMedia payload <> [] ->
      map sendShape
        (sendsOf (deliverPayload chunkText resolves target token replyToMode
                    limit payload hasReplied))
      = captionedMedia (Js.nullish (text payload) "") (statedMedia payload)
      /\ List.length
           (sendsOf (deliverPayload chunkText resolves target token
                       replyToMode limit payload hasReplied))
         = List.length (statedMedia payload))
  /\ (forall payload hasReplied limit,
        mediaUrls payload = Some [] ->
        map sendShape
          (sendsOf (deliverPayload chunkText resolves target token
                      replyToMode limit payload hasReplied))
        = if Js.isEmpty (Js.nullish (text payload) "") then []
          else map (fun chunk => (chunk, None))
                 (chunkText (Js.nullish (text payload) "") limit))
  /\ deliverReplies chunkText resolves Fixture.part1ThenImage target token
       replyToMode textLimit []
     = (Ok tt,
        [mkSend target "part1" token None None;
         mkSend target "" token (Some "http://x/img.jpg") None]).
Proof.
  intros Hres Hchunk. split; [|split].
  - intros payload hasReplied limit Hmedia.
    unfold sendsOf, deliverPayload. rewrite mediaListOf_stated.
    destruct (statedMedia payload) as [|u us] eqn:Hlist; [congruence|].
    destruct (sendMedia_loop_shapes resolves target token replyToMode
                (Js.nullish (text payload) "") (replyToId payload) Hres
                (u :: us) true hasReplied [])
      as (st & new & Heq & Hshape).
    unfold bind. rewrite Heq. simpl.
    split; [exact Hshape|].
    rewrite <- (length_map sendShape), Hshape. simpl.
    rewrite length_map. reflexivity.
  - intros payload hasReplied limit Hempty.
    unfold sendsOf, deliverPayload, mediaListOf. rewrite Hempty.
    destruct (Js.isEmpty _); [reflexivity|].
    generalize (chunkText (Js.nullish (text payload) "") limit) as chunks.
    intros chunks.
    assert (Hshapes : forall h log,
               map sendShape
                 (snd (forEach chunks
                         (sendChunk resolves target token replyToMode
                            (replyToId payload)) h log))
               = (map sendShape log
                  ++ map (fun chunk => (chunk, None)) chunks)%list).
    { induction chunks as [|chunk chunks IH]; intros h log; simpl.
      - rewrite app_nil_r. reflexivity.
      - unfold bind at 1. unfold sendChunk at 1. unfold bind at 1.
        unfold sendMessageDiscord at 1. rewrite Hres. cbn [ret].
        rewrite IH, map_app, <- app_assoc. reflexivity. }
    apply (Hshapes hasReplied []).
  - unfold deliverReplies, Fixture.part1ThenImage. cbn [forEach].
    unfold bind, deliverPayload. simpl.
    rewrite Hchunk. cbn [forEach]. unfold bind, sendChunk, sendMedia, bind.
    unfold sendMessageDiscord.
    destruct replyToMode; repeat (rewrite Hres; cbn); reflexivity.
Qed.

Lemma C9_media_witness :
  (map sendShape
     (sendsOf (deliverPayload Fixture.chunkText Fixture.always
                 "channel:7000" "tok" ReplyFirst 2000 Scene.twoOfThree
                 false))
   = [("two", Some "http://x/1.jpg"); ("", Some "http://x/2.jpg")])
  /\ deliverReplies Fixture.chunkText Fixture.always Fixture.part1ThenImage
       "channel:7000" "tok" ReplyFirst 2000 []
     = (Ok tt,
        [mkSend "channel:7000" "part1" "tok" None None;
         mkSend "channel:7000" "" "tok" (Some "http://x/img.jpg") None]).
Proof.
  destruct (C9_media_sends_and_captions Fixture.chunkText Fixture.always
              "channel:7000" "tok" ReplyFirst 2000)
    as (Hmedia & _ & Hexample).
  - intros s. reflexivity.
  - vm_compute. reflexivity.
  - split; [|exact Hexample].
    apply (Hmedia Scene.twoOfThree false 2000). discriminate.
Defined.

(** C9 as it is written fails where a payload has a [mediaUrl] beside an
    empty [mediaUrls] array: the payload names a media URL, and what is
    sent is its text alone, no message carrying the URL. *)
Lemma C9_empty_mediaUrls_hides_the_mediaUrl :
  namesMedia (Scene.hiddenMediaUrl "cap") = true
  /\ mediaUrl (Scene.hiddenMediaUrl "cap") = Some "http://x/img.jpg"
  /\ deliverReplies Fixture.chunkText Fixture.always
       [Scene.hiddenMediaUrl "cap"] "channel:7000" "tok" ReplyOff 2000 []
     = (Ok tt, [mkSend "channel:7000" "cap" "tok" None None])
  /\ ~ (exists s,
          In s (sendsOf (deliverReplies Fixture.chunkText Fixture.always
                           [Scene.hiddenMediaUrl "cap"] "channel:7000"
                           "tok" ReplyOff 2000))
          /\ send_mediaUrl s = Some "http://x/img.jpg").
Proof.
  split; [reflexivity|]. split; [reflexivity|]. split; [reflexivity|].
  intros (s & Hin & Hmedia). vm_compute in Hin.
  destruct Hin as [<-|[]]. discriminate.
Qed.

(** ** The bounded history *)

Section HistoryFacts.

Context {A : Type}.

Lemma shiftWhileOver_drop (limit : Z) (history : list A) :
  shiftWhileOver limit history
  = drop (Z.to_nat (Z.of_nat (List.length history) - limit)) history.
Proof.
  induction history as [|a rest IH]; [rewrite drop_nil; reflexivity|].
  cbn [shiftWhileOver].
  destruct (Z.of_nat (List.length (a :: rest)) >? limit) eqn:Hgt.
  - rewrite IH. apply Z.gtb_lt in Hgt. cbn [List.length] in *.
    replace (Z.to_nat (Z.of_nat (S (List.length rest)) - limit))
      with (S (Z.to_nat (Z.of_nat (List.length rest) - limit))) by lia.
    reflexivity.
  - assert (Hle : Z.of_nat (List.length (a :: rest)) <= limit).
    { destruct (Z.gtb_spec (Z.of_nat (List.length (a :: rest))) limit);
        [discriminate | lia]. }
    replace (Z.to_nat (Z.of_nat (List.length (a :: rest)) - limit))
      with O by lia.
    reflexivity.
Qed.

Lemma shiftWhileOver_length (limit : Z) (history : list A) :
  0 <= limit ->
  Z.of_nat (List.length (shiftWhileOver limit history)) <= limit.
Proof.
  intros Hl. rewrite shiftWhileOver_drop, length_drop. lia.
Qed.

Lemma pushBounded_drop (limit : Z) (history : list A) (entry : A) :
  pushBounded limit history entry
  = drop (Z.to_nat (Z.of_nat (List.length history) + 1 - limit))
      (history ++ [entry]).
Proof.
  unfold pushBounded. rewrite shiftWhileOver_drop, length_app.
  cbn [List.length]. f_equal. lia.
Qed.

Lemma pushBounded_length (limit : Z) (history : list A) (entry : A) :
  0 <= limit ->
  Z.of_nat (List.length (pushBounded limit history entry)) <= limit.
Proof. apply shiftWhileOver_length. Qed.

(** With room for one entry, the entry pushed last is kept, after the
    newest of the older ones. *)
Lemma pushBounded_snoc (limit : Z) (history : list A) (entry : A) :
  1 <= limit ->
  pushBounded limit history entry
  = (drop (Z.to_nat (Z.of_nat (List.length history) + 1 - limit)) history
     ++ [entry])%list.
Proof.
  intros Hl. rewrite pushBounded_drop.
  apply drop_app_le. lia.
Qed.

Lemma pushBounded_last (limit : Z) (history : list A) (entry : A) :
  1 <= limit -> last (pushBounded limit history entry) = Some entry.
Proof.
  intros Hl. rewrite pushBounded_snoc by exact Hl. apply last_snoc.
Qed.

Lemma dropLast_snoc (l : list A) (x : A) : dropLast (l ++ [x]) = l.
Proof. unfold dropLast. apply removelast_last. Qed.

(** With room for two entries, the entry that was newest before the push
    is the newest of those that precede the pushed one. *)
Lemma pushBounded_keeps_previous (limit : Z) (history : list A)
    (previous entry : A) :
  2 <= limit ->
  last history = Some previous ->
  last (dropLast (pushBounded limit history entry)) = Some previous.
Proof.
  intros Hl Hlast. rewrite pushBounded_snoc by lia. rewrite dropLast_snoc.
  destruct history as [|a rest] using rev_ind; [discriminate|].
  rewrite last_snoc in Hlast. injection Hlast as ->.
  rewrite length_app. cbn [List.length].
  rewrite drop_app_le by lia. apply last_snoc.
Qed.

End HistoryFacts.

(** ** The handler: general facts *)

Section HandlerFacts.

Variable chunkText : string -> Z -> list string.
Variable formatAgentEnvelope : Envelope -> string.
Variable cfg : Setup.

Local Abbreviation handler :=
  (messageCreate chunkText formatAgentEnvelope cfg).
Local Abbreviation turn := (runTurn chunkText formatAgentEnvelope cfg).

(** Whether the flag [didSendReply] is set after the block replies. *)
Lemma blocks_didSendReply env target blocks : forall did log,
  fst (fold_left (sendBlockReply chunkText cfg env target) blocks
         (did, log))
  = did || existsb (blockDelivered chunkText cfg env target) blocks.
Proof.
  induction blocks as [|payload blocks IH]; intros did log; simpl.
  - rewrite orb_false_r. reflexivity.
  - unfold blockDelivered at 1.
    destruct (blockHasContent payload) eqn:Hc; simpl.
    + rewrite (framed_deliverReplies chunkText (sendResolves env) target
                 (token cfg) [payload] (replyToMode cfg) (textLimit cfg)
                 log).
      destruct (fst (deliverReplies _ _ _ _ _ _ _ [])) as [u|]; simpl;
        rewrite IH; [rewrite orb_true_r|]; reflexivity.
    + rewrite IH. reflexivity.
Qed.

Lemma clearAfterReply_cases m did st :
  clearAfterReply cfg m did st = st
  \/ (clearAfterReply cfg m did st = <[ msg_channelId m := [] ]> st
      /\ (historyLimit cfg >? 0) = true /\ isGuildMessage m = true).
Proof.
  unfold clearAfterReply.
  destruct (isGuildMessage m); simpl; [|left; reflexivity].
  destruct (negb (isDirectMessage m)); simpl; [|left; reflexivity].
  destruct (historyLimit cfg >? 0); simpl; [|left; reflexivity].
  destruct did; [right; auto | left; reflexivity].
Qed.

Lemma turn_histories env recorded m author media txt :
  let out := turn env recorded m author media txt in
  out_histories out = recorded
  \/ (out_histories out = <[ msg_channelId m := [] ]> recorded
      /\ (historyLimit cfg >? 0) = true /\ isGuildMessage m = true).
Proof.
  cbv zeta. unfold runTurn.
  destruct (Js.isEmpty _); [left; reflexivity|].
  destruct (isDirectMessage m && negb _); [left; reflexivity|].
  destruct (fold_left _ _ _) as [did blockSends].
  destruct (gen_result _) as [replyResult|]; [|left; reflexivity].
  destruct (repliesOf replyResult) as [|payload replies].
  - apply clearAfterReply_cases.
  - destruct (deliverReplies _ _ _ _ _ _ _ _) as [[u|] log];
      [apply clearAfterReply_cases | left; reflexivity].
Qed.

(** What the handler leaves in the history map: the map it found, the
    map with this message recorded, or the latter with the channel
    emptied. *)
Lemma handler_histories env st m :
  let out := handler env st m in
  out_histories out = st
  \/ exists author,
       msg_author m = Some author
       /\ (out_histories out = recordHistory cfg m author st
           \/ (out_histories out
               = <[ msg_channelId m := [] ]> (recordHistory cfg m author st)
               /\ (historyLimit cfg >? 0) = true
               /\ isGuildMessage m = true)).
Proof.
  cbv zeta. unfold messageCreate.
  destruct (msg_author m) as [author|]; [|left; reflexivity].
  destruct (user_bot author); [left; reflexivity|].
  destruct (screenBeforeHistory cfg m); [left; reflexivity|].
  right. exists author. split; [reflexivity|].
  destruct (screenAfterHistory cfg env m author); [left; reflexivity|].
  unfold afterScreening.
  destruct (resolveDiscordSystemEvent m); [left; reflexivity|].
  destruct (resolveMedia env m _) as [err|media]; [left; reflexivity|].
  destruct (Js.isEmpty _); [left; reflexivity|].
  apply turn_histories.
Qed.

Lemma recordHistory_off m author st :
  historyLimit cfg <= 0 -> recordHistory cfg m author st = st.
Proof.
  intros Hl. unfold recordHistory, recordsHistory.
  replace (historyLimit cfg >? 0) with false.
  - rewrite andb_false_r. reflexivity.
  - symmetry. destruct (Z.gtb_spec (historyLimit cfg) 0); [lia|reflexivity].
Qed.

Lemma handler_history_off env st m :
  historyLimit cfg <= 0 -> out_histories (handler env st m) = st.
Proof.
  intros Hl.
  assert (Hoff : (historyLimit cfg >? 0) = false).
  { destruct (Z.gtb_spec (historyLimit cfg) 0); [lia|reflexivity]. }
  destruct (handler_histories env st m) as [H|(author & _ & [H|(_ & H & _)])].
  - exact H.
  - rewrite H. apply recordHistory_off, Hl.
  - congruence.
Qed.

Lemma recordHistory_bounded m author st :
  0 <= historyLimit cfg ->
  boundedBy (historyLimit cfg) st ->
  boundedBy (historyLimit cfg) (recordHistory cfg m author st).
Proof.
  intros Hl Hb. unfold recordHistory.
  destruct (recordsHistory cfg m); [|exact Hb].
  intros key history.
  destruct (decide (msg_channelId m = key)) as [->|Hne].
  - rewrite lookup_insert_eq. intros [= <-].
    apply pushBounded_length, Hl.
  - rewrite lookup_insert_ne by exact Hne. apply Hb.
Qed.

Lemma cleared_bounded key st :
  0 <= historyLimit cfg ->
  boundedBy (historyLimit cfg) st ->
  boundedBy (historyLimit cfg) (<[ key := [] ]> st).
Proof.
  intros Hl Hb k history.
  destruct (decide (key = k)) as [->|Hne].
  - rewrite lookup_insert_eq. intros [= <-]. simpl. exact Hl.
  - rewrite lookup_insert_ne by exact Hne. apply Hb.
Qed.

Lemma handler_bounded env st m :
  0 <= historyLimit cfg ->
  boundedBy (historyLimit cfg) st ->
  boundedBy (historyLimit cfg) (out_histories (handler env st m)).
Proof.
  intros Hl Hb.
  destruct (handler_histories env st m)
    as [H|(author & _ & [H|(H & _ & _)])]; rewrite H.
  - exact Hb.
  - apply recordHistory_bounded; assumption.
  - apply cleared_bounded, recordHistory_bounded; assumption.
Qed.

Lemma runEvents_from_bounded events : forall st,
  0 <= historyLimit cfg ->
  boundedBy (historyLimit cfg) st ->
  boundedBy (historyLimit cfg)
    (fold_left
       (fun st ev => out_histories (handler (fst ev) st (snd ev)))
       events st).
Proof.
  induction events as [|ev events IH]; intros st Hl Hb; simpl;
    [exact Hb|].
  apply IH; [exact Hl|]. apply handler_bounded; assumption.
Qed.

Lemma runEvents_from_off events : forall st,
  historyLimit cfg <= 0 ->
  fold_left
    (fun st ev => out_histories (handler (fst ev) st (snd ev)))
    events st
  = st.
Proof.
  induction events as [|ev events IH]; intros st Hl; simpl;
    [reflexivity|].
  rewrite handler_history_off by exact Hl. apply IH, Hl.
Qed.

(** A message without guild never touches the history map. *)
Lemma handler_histories_no_guild env st m :
  isGuildMessage m = false -> out_histories (handler env st m) = st.
Proof.
  intros Hg.
  destruct (handler_histories env st m)
    as [H|(author & _ & [H|(_ & _ & H)])].
  - exact H.
  - rewrite H. unfold recordHistory, recordsHistory. rewrite Hg.
    reflexivity.
  - congruence.
Qed.

End HandlerFacts.

(** C2.  With the limit the monitor computes, which is never negative:
    after any sequence of events the stored history of every conversation
    key holds at most [historyLimit] entries; an append keeps the newest
    [historyLimit] entries of the history followed by the new entry, in
    insertion order, so the oldest are evicted first; and with a limit of 0
    the history map stays empty. *)
Theorem C2_history_is_bounded_and_fifo
    (chunkText : string -> Z -> list string)
    (formatAgentEnvelope : Envelope -> string)
    (token : string) (textLimit : Z) (mainKey : string)
    (opts : MonitorDiscordOpts) (discord : DiscordConfig) :
  let cfg := monitorSetup token textLimit mainKey opts discord in
  (forall events key,
      Z.of_nat
        (List.length
           (historyOf (runEvents chunkText formatAgentEnvelope cfg events)
              key))
      <= historyLimit cfg)
  /\ (forall (history : list DiscordHistoryEntry) entry,
        pushBounded (historyLimit cfg) history entry
        = drop
            (Z.to_nat
               (Z.of_nat (List.length history) + 1 - historyLimit cfg))
            (history ++ [entry]))
  /\ (forall message author guildHistories,
        recordHistory cfg message author guildHistories
        = if recordsHistory cfg message
          then <[ msg_channelId message :=
                    pushBounded (historyLimit cfg)
                      (historyOf guildHistories (msg_channelId message))
                      (historyEntryOf message author) ]> guildHistories
          else guildHistories)
  /\ (historyLimit cfg = 0 ->
      forall events,
        runEvents chunkText formatAgentEnvelope cfg events = ∅).
Proof.
  intros cfg.
  assert (Hl : 0 <= historyLimit cfg) by (subst cfg; simpl; lia).
  split; [|split; [|split]].
  - intros events key. unfold runEvents, historyOf.
    pose proof (runEvents_from_bounded chunkText formatAgentEnvelope cfg
                  events ∅ Hl) as Hb.
    destruct (_ !! key) as [history|] eqn:Hk; simpl; [|exact Hl].
    apply (Hb ltac:(intros k h; rewrite lookup_empty; discriminate)
             key history Hk).
  - intros. apply pushBounded_drop.
  - reflexivity.
  - intros H0 events. unfold runEvents.
    apply runEvents_from_off. lia.
Qed.

Lemma C2_history_witness :
  runEvents Fixture.chunkText Fixture.formatAgentEnvelope
    (monitorSetup "tok" 2000 "main" (mkOpts None (Some 0) None)
       Fixture.noDiscordConfig)
    Fixture.threeMessages
  = ∅.
Proof.
  apply (C2_history_is_bounded_and_fifo Fixture.chunkText
           Fixture.formatAgentEnvelope "tok" 2000 "main"
           (mkOpts None (Some 0) None) Fixture.noDiscordConfig).
  reflexivity.
Defined.

(** Three messages into a channel whose limit is 2: the first is gone and
    the other two are stored in the order of arrival. *)
Example history_keeps_the_newest_two :
  map he_body
    (historyOf
       (runEvents Fixture.chunkText Fixture.formatAgentEnvelope
          (Fixture.setup (Some 2) None) Fixture.threeMessages)
       "7000")
  = ["two"; "three"].
Proof. vm_compute. reflexivity. Qed.

(** ** The handler: reaching and running the turn *)

Section TurnFacts.

Variable chunkText : string -> Z -> list string.
Variable formatAgentEnvelope : Envelope -> string.
Variable cfg : Setup.

Local Abbreviation handler :=
  (messageCreate chunkText formatAgentEnvelope cfg).
Local Abbreviation turn := (runTurn chunkText formatAgentEnvelope cfg).
Local Abbreviation context := (ctxPayloadOf formatAgentEnvelope cfg).

(** A message that passes every check runs the turn on the map in which
    it has been recorded. *)
Lemma handler_reaches_turn env st m author media :
  msg_author m = Some author ->
  user_bot author = false ->
  screenBeforeHistory cfg m = None ->
  screenAfterHistory cfg env m author = None ->
  resolveDiscordSystemEvent m = None ->
  resolveMedia env m (mediaMaxBytes cfg) = inr media ->
  Js.truthy (turnText m media) = true ->
  handler env st m
  = turn env (recordHistory cfg m author st) m author media
      (turnText m media).
Proof.
  intros Ha Hb Hs1 Hs2 Hsys Hmedia Htext.
  unfold messageCreate. rewrite Ha, Hb, Hs1, Hs2.
  unfold afterScreening. rewrite Hsys, Hmedia.
  unfold Js.truthy in Htext. apply negb_true_iff in Htext.
  rewrite Htext. reflexivity.
Qed.

Lemma replyTarget_not_direct env st m author media txt :
  isDirectMessage m = false ->
  To (context env m author st media txt) = "channel:" ++ msg_channelId m.
Proof. intros H. unfold ctxPayloadOf. simpl. rewrite H. reflexivity. Qed.

(** The turn of a message outside direct messages: the generator is
    called, and the history map is emptied for the channel exactly when
    the flag [didSendReply] is set at one of the two tests. *)
Lemma turn_not_direct env recorded m author media txt :
  isDirectMessage m = false ->
  let ctx := context env m author recorded media txt in
  let gen := getReplyFromConfig env ctx in
  let target := "channel:" ++ msg_channelId m in
  let out := turn env recorded m author media txt in
  out_generated out = Some ctx
  /\ match gen_result gen with
     | Threw =>
         out_histories out = recorded
         /\ out_ending out
            = HandlerFailed (ExternalFailure "getReplyFromConfig")
     | Ok replyResult =>
         match repliesOf replyResult with
         | [] =>
             out_histories out
             = clearAfterReply cfg m
                 (existsb (blockDelivered chunkText cfg env target)
                    (gen_blocks gen))
                 recorded
             /\ out_ending out = NoFinalReplies
         | replies =>
             if isOk (fst (deliverReplies chunkText (sendResolves env)
                             replies target (token cfg) (replyToMode cfg)
                             (textLimit cfg) []))
             then out_histories out = clearAfterReply cfg m true recorded
                  /\ out_ending out = FinalDelivered
             else out_histories out = recorded
                  /\ out_ending out
                     = HandlerFailed (ExternalFailure "sendMessageDiscord")
         end
     end.
Proof.
  intros Hdm ctx gen target out. subst out. unfold runTurn.
  fold ctx. fold gen.
  assert (Hto : To ctx = target)
    by (apply replyTarget_not_direct, Hdm).
  rewrite Hto, Hdm. cbn [andb Js.isEmpty target append].
  pose proof (blocks_didSendReply chunkText cfg env target
                (gen_blocks gen) false []) as Hdid.
  destruct (fold_left _ _ _) as [did blockSends]. cbn [fst orb] in Hdid.
  subst did.
  destruct (gen_result gen) as [replyResult|]; [|auto].
  destruct (repliesOf replyResult) as [|payload replies]; [auto|].
  rewrite (framed_deliverReplies chunkText (sendResolves env) target
             (token cfg) (payload :: replies) (replyToMode cfg)
             (textLimit cfg) blockSends).
  destruct (fst (deliverReplies _ _ _ _ _ _ _ [])) as [u|]; simpl; auto.
Qed.

Lemma dm_not_permitted author :
  hasEntries (allowFrom cfg) = true ->
  (forall allowList,
      normalizeDiscordAllowList (allowFrom cfg) userPrefixes
      = Some allowList ->
      allowListMatches allowList (senderCandidates author) = false) ->
  dmSenderPermitted cfg author = false.
Proof.
  intros Hne Hno. unfold dmSenderPermitted.
  destruct (allowFrom cfg) as [[|e raw]|]; try discriminate.
  destruct (normalizeDiscordAllowList _ _) as [allowList|] eqn:Hal;
    [|reflexivity].
  apply Hno. reflexivity.
Qed.

Lemma no_guild_flags m :
  msg_guild m = None -> isGuildMessage m = false.
Proof. unfold isGuildMessage. intros ->. reflexivity. Qed.

End TurnFacts.

(** C8.  A direct message (a message in a DM channel, which has no guild)
    whose sender does not match the non-empty [allowFrom] list is dropped
    silently: nothing is sent, the history map is the one the handler
    found, the reply generator is not called, and nothing else is
    recorded. *)
Theorem C8_unlisted_direct_sender_is_dropped
    (chunkText : string -> Z -> list string)
    (formatAgentEnvelope : Envelope -> string)
    (cfg : Setup) (env : Env) (st : Histories) (m : Message)
    (author : User) :
  msg_author m = Some author ->
  isDirectMessage m = true ->
  msg_guild m = None ->
  hasEntries (allowFrom cfg) = true ->
  (forall allowList,
      normalizeDiscordAllowList (allowFrom cfg) userPrefixes
      = Some allowList ->
      allowListMatches allowList (senderCandidates author) = false) ->
  let out := messageCreate chunkText formatAgentEnvelope cfg env st m in
  out_sends out = []
  /\ out_histories out = st
  /\ out_generated out = None
  /\ out_systemEvents out = []
  /\ out_lastRoute out = None
  /\ exists why, out_ending out = Dropped why.
Proof.
  intros Ha Hdm Hg Hne Hno out. subst out.
  pose proof (dm_not_permitted cfg author Hne Hno) as Hperm.
  pose proof (no_guild_flags m Hg) as Hguild.
  unfold messageCreate. rewrite Ha.
  destruct (user_bot author); [simpl; eauto 10|].
  destruct (screenBeforeHistory cfg m); [simpl; eauto 10|].
  assert (Hafter : screenAfterHistory cfg env m author
                   = Some DmSenderNotAllowed).
  { unfold screenAfterHistory. rewrite Hguild, Hdm, Hperm. reflexivity. }
  rewrite Hafter. simpl.
  unfold recordHistory, recordsHistory. rewrite Hguild. simpl. eauto 10.
Qed.

Lemma C8_direct_sender_witness :
  let out :=
    Fixture.handle
      (Fixture.setupWith
         (mkDiscordConfig None None None None None (Some [RawStr "9999"])
            None None))
      Fixture.silentWorld ∅ (Fixture.directMessage "d1" "hello") in
  out_sends out = []
  /\ out_histories out = ∅
  /\ out_generated out = None
  /\ out_systemEvents out = []
  /\ out_lastRoute out = None
  /\ exists why, out_ending out = Dropped why.
Proof.
  apply (C8_unlisted_direct_sender_is_dropped Fixture.chunkText
           Fixture.formatAgentEnvelope
           (Fixture.setupWith
              (mkDiscordConfig None None None None None
                 (Some [RawStr "9999"]) None None))
           Fixture.silentWorld ∅ (Fixture.directMessage "d1" "hello")
           Fixture.alice).
  - reflexivity.
  - reflexivity.
  - reflexivity.
  - reflexivity.
  - intros allowList H. vm_compute in H. injection H as <-.
    vm_compute. reflexivity.
Defined.

(** ** The mention gate *)




(** ** Attachments whose download fails *)

Lemma inferPlaceholder_truthy attachment :
  Js.truthy (inferPlaceholder attachment) = true.
Proof.
  unfold inferPlaceholder. repeat case_match; reflexivity.
Qed.

Lemma orStrOpt_truthy a b :
  Js.truthy b = true -> Js.truthy (orStrOpt a b) = true.
Proof.
  intros Hb. unfold orStrOpt. destruct a as [s|]; [|exact Hb].
  destruct (Js.truthy s) eqn:Hs; [exact Hs | exact Hb].
Qed.

(** A message with an attachment is text-bearing for the history: the
    placeholder of the attachment stands in for empty content. *)
Lemma baseText_with_attachment m attachment rest :
  msg_attachments m = attachment :: rest ->
  Js.truthy (baseTextOf m) = true.
Proof.
  intros Hatt. unfold baseTextOf, resolveDiscordMessageText.
  rewrite Hatt. apply orStrOpt_truthy. unfold Js.orStr.
  rewrite inferPlaceholder_truthy. apply inferPlaceholder_truthy.
Qed.

Lemma recordHistory_last cfg m author st :
  isGuildMessage m = true ->
  0 < historyLimit cfg ->
  Js.truthy (baseTextOf m) = true ->
  last (historyOf (recordHistory cfg m author st) (msg_channelId m))
  = Some (historyEntryOf m author).
Proof.
  intros Hg Hl Ht. unfold recordHistory, recordsHistory.
  rewrite Hg, Ht.
  replace (historyLimit cfg >? 0) with true
    by (symmetry; apply Z.gtb_lt; lia).
  cbn [andb]. unfold historyOf. rewrite lookup_insert_eq. cbn [Js.nullish].
  apply pushBounded_last. lia.
Qed.

(** C7 as the code has it.  When the download of the first attachment
    answers with a status outside 200-299, nothing is sent and the
    generator is not called; a message that reaches the download ends in
    the handler's [catch] with the download error.  The history step has
    run before the download: the map is left as the message was recorded
    in it, so a guild message with a positive limit stays in the history
    of its channel, while a message without guild leaves the map as it
    was. *)
Theorem C7_failed_download_aborts_the_turn
    (chunkText : string -> Z -> list string)
    (formatAgentEnvelope : Envelope -> string)
    (cfg : Setup) (env : Env) (st : Histories) (m : Message)
    (attachment : Attachment) (rest : list Attachment) (res : Response) :
  msg_attachments m = attachment :: rest ->
  fetch env (att_url attachment) = Ok res ->
  res_ok res = false ->
  let out := messageCreate chunkText formatAgentEnvelope cfg env st m in
  out_sends out = []
  /\ out_generated out = None
  /\ (isGuildMessage m = false -> out_histories out = st)
  /\ (forall author,
        msg_author m = Some author ->
        user_bot author = false ->
        screenBeforeHistory cfg m = None ->
        screenAfterHistory cfg env m author = None ->
        resolveDiscordSystemEvent m = None ->
        out_ending out = HandlerFailed (MediaDownloadFailed (res_status res))
        /\ out_histories out = recordHistory cfg m author st
        /\ (isGuildMessage m = true ->
            0 < historyLimit cfg ->
            last (historyOf (out_histories out) (msg_channelId m))
            = Some (historyEntryOf m author))).
Proof.
  intros Hatt Hfetch Hok out. subst out.
  assert (Hmedia : resolveMedia env m (mediaMaxBytes cfg)
                   = inl (MediaDownloadFailed (res_status res))).
  { unfold resolveMedia. rewrite Hatt, Hfetch, Hok. reflexivity. }
  split; [|split; [|split]].
  - unfold messageCreate, afterScreening. rewrite Hmedia.
    repeat case_match; reflexivity.
  - unfold messageCreate, afterScreening. rewrite Hmedia.
    repeat case_match; reflexivity.
  - apply handler_histories_no_guild.
  - intros author Ha Hb Hs1 Hs2 Hsys.
    unfold messageCreate, afterScreening.
    rewrite Ha, Hb, Hs1, Hs2, Hsys, Hmedia. cbn [out_ending out_histories].
    split; [reflexivity|]. split; [reflexivity|].
    intros Hg Hl. apply recordHistory_last; [exact Hg | exact Hl|].
    apply (baseText_with_attachment m attachment rest Hatt).
Qed.

Lemma C7_failed_download_witness :
  out_sends Fixture.failedDownloadTurn = []
  /\ out_generated Fixture.failedDownloadTurn = None.
Proof.
  pose proof (C7_failed_download_aborts_the_turn Fixture.chunkText
                Fixture.formatAgentEnvelope (Fixture.setup None None)
                Fixture.failedDownloadWorld ∅
                (Fixture.guildMessage "m1" "look" true [Fixture.picture])
                Fixture.picture [] (mkResponse 404 "" None)
                eq_refl eq_refl eq_refl) as (Hsends & Hgen & _).
  split; [exact Hsends | exact Hgen].
Defined.

(** C7, where the claim fails: the guild message whose attachment answers
    404 ends in the download error with nothing sent, and it is in the
    history of its channel all the same. *)
Lemma C7_failed_download_is_recorded :
  out_ending Fixture.failedDownloadTurn
  = HandlerFailed (MediaDownloadFailed 404)
  /\ out_sends Fixture.failedDownloadTurn = []
  /\ map he_body (historyOf (out_histories Fixture.failedDownloadTurn) "7000")
     = ["look"]
  /\ map he_messageId
       (historyOf (out_histories Fixture.failedDownloadTurn) "7000")
     = [Some "m1"].
Proof. vm_compute. repeat split; reflexivity. Qed.

(** ** History and the checks that follow it *)

Lemma historyOf_recordHistory cfg m author st :
  recordsHistory cfg m = true ->
  recordHistory cfg m author st !! msg_channelId m
  = Some (pushBounded (historyLimit cfg) (historyOf st (msg_channelId m))
            (historyEntryOf m author)).
Proof.
  intros H. unfold recordHistory. rewrite H. apply lookup_insert_eq.
Qed.

(** The context of a message recorded after [previous]: with room for two
    entries, [previous] is the last of the entries rendered. *)
Lemma historyWithoutCurrent_previous cfg m author st previous :
  recordsHistory cfg m = true ->
  2 <= historyLimit cfg ->
  last (historyOf st (msg_channelId m)) = Some previous ->
  exists earlier,
    historyWithoutCurrent cfg m (recordHistory cfg m author st)
    = (earlier ++ [previous])%list.
Proof.
  intros Hrec Hl Hlast. apply last_Some.
  unfold historyWithoutCurrent.
  replace (historyLimit cfg >? 0) with true
    by (symmetry; apply Z.gtb_lt; lia).
  rewrite historyOf_recordHistory by exact Hrec. cbn [Js.nullish].
  pose proof (pushBounded_keeps_previous (historyLimit cfg)
                (historyOf st (msg_channelId m)) previous
                (historyEntryOf m author) Hl Hlast) as Hkeep.
  destruct (pushBounded _ _ _) as [|e l]; [discriminate | exact Hkeep].
Qed.

(** The body outside direct messages when there are entries to render. *)
Lemma withHistory_context formatAgentEnvelope cfg m author st body
    earlier previous :
  isDirectMessage m = false ->
  historyWithoutCurrent cfg m st = (earlier ++ [previous])%list ->
  withHistory formatAgentEnvelope cfg m author st body
  = ("[Chat messages since your last reply - for context]" ++ nl
     ++ Js.join nl
          (map (historyLine formatAgentEnvelope m (fromLabelOf m author))
             (earlier ++ [previous]))
     ++ nl ++ nl ++ "[Current message - respond to this]" ++ nl ++ body)
    ++ nl ++ "[from: " ++ user_tag author ++ " user id:" ++ user_id author
    ++ "]".
Proof.
  intros Hdm Hctx. unfold withHistory. rewrite Hdm, Hctx.
  destruct (earlier ++ [previous])%list eqn:He; [|reflexivity].
  destruct earlier; discriminate.
Qed.

(** With the default limit of 20 the dropped message is rendered in the
    context of the next answered message. *)
Example dropped_message_in_next_context :
  Body
  <$> out_generated
        (Fixture.handle (Fixture.setup None None)
           (Fixture.answeringWorld (Some "42"))
           (out_histories
              (Fixture.handle (Fixture.setup None None)
                 (Fixture.answeringWorld (Some "42")) ∅
                 (Fixture.guildMessage "m1" "one" false [])))
           (Fixture.guildMessage "m2" "two" true []))
  = Some
      ("[Chat messages since your last reply - for context]" ++ nl
       ++ "[Discord Test Guild #general channel id:7000] "
       ++ "Alice: one [id:m1 channel:7000]" ++ nl ++ nl
       ++ "[Current message - respond to this]" ++ nl
       ++ "[Discord Test Guild #general channel id:7000] two" ++ nl
       ++ "[from: alice#0001 user id:1001]").
Proof. vm_compute. reflexivity. Qed.

(** C10, where the claim fails: under a history limit of 1 the message
    dropped for lack of a mention is recorded, and the next message of the
    channel evicts it before the context is rendered, so the body handed
    to the generator for that answered message has no context block. *)
Lemma C10_limit_one_loses_the_dropped_message :
  historyLimit (Fixture.setup (Some 1) None) = 1
  /\ map he_body (historyOf Fixture.afterUnmentioned "7000") = ["one"]
  /\ historyWithoutCurrent (Fixture.setup (Some 1) None)
       (Fixture.guildMessage "m2" "two" true [])
       (recordHistory (Fixture.setup (Some 1) None)
          (Fixture.guildMessage "m2" "two" true []) Fixture.alice
          Fixture.afterUnmentioned)
     = []
  /\ out_ending Fixture.answeredAfterUnmentioned = FinalDelivered
  /\ Body <$> out_generated Fixture.answeredAfterUnmentioned
     = Some ("[Discord Test Guild #general channel id:7000] two" ++ nl
             ++ "[from: alice#0001 user id:1001]").
Proof. vm_compute. repeat split; reflexivity. Qed.

(** ** Emptying the history after a reply *)

Lemma clearAfterReply_guild cfg m did st :
  isGuildMessage m = true ->
  isDirectMessage m = false ->
  0 < historyLimit cfg ->
  clearAfterReply cfg m did st
  = if did then <[ msg_channelId m := [] ]> st else st.
Proof.
  intros Hg Hdm Hl. unfold clearAfterReply. rewrite Hg, Hdm.
  replace (historyLimit cfg >? 0) with true
    by (symmetry; apply Z.gtb_lt; lia).
  reflexivity.
Qed.

(** C3 as the code has it, for a guild message that reaches the reply
    generator under a positive history limit.  The channel history is
    emptied when the final delivery call returns for a non-empty list of
    final replies, whether or not its payloads produced a send, and, when
    there are no final replies, when the delivery call of at least one
    block reply returned.  Otherwise the map is left as the message was
    recorded in it: when there are no final replies and no block reply
    was delivered, when the generator fails, and when a send of the final
    delivery fails. *)
Theorem C3_history_after_the_turn
    (chunkText : string -> Z -> list string)
    (formatAgentEnvelope : Envelope -> string)
    (cfg : Setup) (env : Env) (st : Histories) (m : Message)
    (author : User) (media : option DiscordMediaInfo) :
  msg_author m = Some author ->
  user_bot author = false ->
  screenBeforeHistory cfg m = None ->
  screenAfterHistory cfg env m author = None ->
  resolveDiscordSystemEvent m = None ->
  resolveMedia env m (mediaMaxBytes cfg) = inr media ->
  Js.truthy (turnText m media) = true ->
  isGuildMessage m = true ->
  isDirectMessage m = false ->
  0 < historyLimit cfg ->
  let recorded := recordHistory cfg m author st in
  let ctx :=
    ctxPayloadOf formatAgentEnvelope cfg env m author recorded media
      (turnText m media) in
  let gen := getReplyFromConfig env ctx in
  let target := "channel:" ++ msg_channelId m in
  let out := messageCreate chunkText formatAgentEnvelope cfg env st m in
  out_generated out = Some ctx
  /\ match gen_result gen with
     | Threw => out_histories out = recorded
     | Ok replyResult =>
         match repliesOf replyResult with
         | [] =>
             if existsb (blockDelivered chunkText cfg env target)
                  (gen_blocks gen)
             then out_histories out = <[ msg_channelId m := [] ]> recorded
             else out_histories out = recorded
         | replies =>
             if isOk (fst (deliverReplies chunkText (sendResolves env)
                             replies target (token cfg) (replyToMode cfg)
                             (textLimit cfg) []))
             then out_histories out = <[ msg_channelId m := [] ]> recorded
             else out_histories out = recorded
         end
     end.
Proof.
  intros Ha Hb Hs1 Hs2 Hsys Hmedia Htext Hg Hdm Hl recorded ctx gen target
    out.
  subst out.
  rewrite (handler_reaches_turn chunkText formatAgentEnvelope cfg env st m
             author media Ha Hb Hs1 Hs2 Hsys Hmedia Htext).
  destruct (turn_not_direct chunkText formatAgentEnvelope cfg env recorded m
              author media (turnText m media) Hdm) as [Hgen Hhist].
  split; [exact Hgen|].
  fold ctx in Hhist. fold gen in Hhist. fold target in Hhist.
  destruct (gen_result gen) as [replyResult|]; [|apply Hhist].
  destruct (repliesOf replyResult) as [|payload replies].
  - destruct Hhist as [Hhist _].
    rewrite (clearAfterReply_guild cfg m _ recorded Hg Hdm Hl) in Hhist.
    destruct (existsb _ _); exact Hhist.
  - destruct (isOk _); [|apply Hhist].
    destruct Hhist as [Hhist _].
    rewrite (clearAfterReply_guild cfg m true recorded Hg Hdm Hl) in Hhist.
    exact Hhist.
Qed.

Lemma C3_history_witness :
  out_histories
    (Fixture.handle (Fixture.setup None None)
       (Fixture.answeringWorld (Some "42")) ∅
       (Fixture.guildMessage "m1" "hi" true []))
  = <[ "7000" := [] ]>
      (recordHistory (Fixture.setup None None)
         (Fixture.guildMessage "m1" "hi" true []) Fixture.alice ∅).
Proof.
  pose proof (C3_history_after_the_turn Fixture.chunkText
                Fixture.formatAgentEnvelope (Fixture.setup None None)
                (Fixture.answeringWorld (Some "42")) ∅
                (Fixture.guildMessage "m1" "hi" true []) Fixture.alice None
                eq_refl eq_refl eq_refl eq_refl eq_refl eq_refl eq_refl
                eq_refl eq_refl eq_refl) as [_ H].
  exact H.
Defined.

(** C3, where the claim fails.  A final reply without text and media
    produces no send, and the history of the channel, which held an
    earlier message, is emptied all the same.  And when a block reply has
    been delivered and the send of the final reply fails, a reply was
    delivered and the history is left with the message in it. *)
Lemma C3_history_and_delivery_disagree :
  map he_body (historyOf Fixture.oneUnanswered "7000") = ["earlier"]
  /\ out_sends Fixture.emptyPayloadTurn = []
  /\ out_ending Fixture.emptyPayloadTurn = FinalDelivered
  /\ historyOf (out_histories Fixture.emptyPayloadTurn) "7000" = []
  /\ map send_text (out_sends Fixture.failedFinalTurn) = ["partial"]
  /\ out_ending Fixture.failedFinalTurn
     = HandlerFailed (ExternalFailure "sendMessageDiscord")
  /\ map he_body (historyOf (out_histories Fixture.failedFinalTurn) "7000")
     = ["hi"].
Proof. vm_compute. repeat split; reflexivity. Qed.


(** ** The model on concrete configurations *)

Example slug_of_a_guild_name :
  normalizeDiscordSlug (Some "  ##My  Cool_Guild!! ") = "my-cool-guild".
Proof. vm_compute. reflexivity. Qed.

Example allow_list_of_mixed_entries :
  normalizeDiscordAllowList
    (Some [RawStr "discord:<@!123>"; RawNum 42; RawStr "  ";
           RawStr "@Bob Smith"])
    userPrefixes
  = Some (mkAllowList false ({[ "123" ]} ∪ {[ "42" ]})
            ({[ "bob smith" ]} ∪ {[ "bob-smith" ]})).
Proof. vm_compute. reflexivity. Qed.

Example names_match_by_slug :
  allowListMatches
    (mkAllowList false ∅ ({[ "bob smith" ]} ∪ {[ "bob-smith" ]}))
    (mkCand (Some "7") (Some "Bob_Smith") None)
  = true
  /\ allowListMatches (mkAllowList false ({[ "123" ]}) ∅)
       (mkCand None None None)
     = false.
Proof. vm_compute. split; reflexivity. Qed.

Example guild_entry_by_slug_then_wildcard :
  ge_requireMention
  <$> resolveDiscordGuildEntry (Some (mkGuild "5000" "Test Guild"))
        (Some [("*", mkGuildEntry None None (Some true) None None None);
               ("test-guild",
                mkGuildEntry None None (Some false) None None None)])
  = Some (Some false)
  /\ ge_requireMention
     <$> resolveDiscordGuildEntry (Some (mkGuild "5001" "Other"))
           (Some [("*", mkGuildEntry None None (Some true) None None None);
                  ("test-guild",
                   mkGuildEntry None None (Some false) None None None)])
     = Some (Some true)
  /\ resolveDiscordGuildEntry (Some (mkGuild "5001" "Other"))
       (Some [("test-guild",
               mkGuildEntry None None (Some false) None None None)])
     = None.
Proof. vm_compute. repeat split; reflexivity. Qed.

Example channel_entry_overrides_guild_default :
  resolveDiscordChannelConfig
    (Some (mkGuildEntry (Some "5000") None (Some true) None None
             (Some {[ "general" := mkChannelEntry None (Some false) ]})))
    "7000" (Some "General") "general"
  = Some (mkChannelConfig true (Some false))
  /\ resolveDiscordChannelConfig
       (Some (mkGuildEntry (Some "5000") None (Some true) None None
                (Some {[ "general" := mkChannelEntry None (Some false) ]})))
       "7001" (Some "random") "random"
     = Some (mkChannelConfig false None).
Proof. vm_compute. split; reflexivity. Qed.

Example default_setup :
  historyLimit (Fixture.setup None None) = 20
  /\ historyLimit (Fixture.setup (Some (-3)) None) = 0
  /\ replyToMode (Fixture.setup None None) = ReplyOff
  /\ mediaMaxBytes (Fixture.setup None None) = 8388608.
Proof. repeat split; reflexivity. Qed.


(** ** Slugs are canonical *)

Ltac by_cases_on_char c :=
  destruct c as [[] [] [] [] [] [] [] []]; vm_compute;
  try reflexivity; try discriminate; try (intros; discriminate);
  try (intros; reflexivity).

Lemma isSlugChar_not_space c :
  isSlugChar c = true -> Js.isWhiteSpace c = false.
Proof. by_cases_on_char c. Qed.

Lemma isSlugChar_not_sigil c : isSlugChar c = true -> isSigil c = false.
Proof. by_cases_on_char c. Qed.

Lemma isSlugChar_not_underscore c :
  isSlugChar c = true -> Ascii.eqb c "_"%char = false.
Proof. by_cases_on_char c. Qed.

Lemma isSlugChar_lower c : isSlugChar c = true -> Js.lowerChar c = c.
Proof. by_cases_on_char c. Qed.

Lemma isHyphen_eq c : isHyphen c = true -> c = "-"%char.
Proof. unfold isHyphen. apply Ascii.eqb_eq. Qed.

Lemma isHyphen_slugChar c : isHyphen c = true -> isSlugChar c = true.
Proof. intros H. unfold isSlugChar. rewrite H. apply orb_true_r. Qed.

Section StringFacts.

Variable p : ascii -> bool.

Lemma all_toLowerCase s :
  Js.all isSlugChar s = true -> Js.toLowerCase s = s.
Proof.
  induction s as [|c r IH]; simpl; [reflexivity|].
  intros H. apply andb_true_iff in H as [Hc Hr].
  rewrite isSlugChar_lower by exact Hc. rewrite IH by exact Hr. reflexivity.
Qed.

Lemma replaceRuns_none s :
  Js.all (fun c => negb (p c)) s = true -> Js.replaceRuns p s = s.
Proof.
  induction s as [|c r IH]; simpl; [reflexivity|].
  intros H. apply andb_true_iff in H as [Hc Hr].
  apply negb_true_iff in Hc. rewrite Hc, IH by exact Hr. reflexivity.
Qed.

Lemma all_impl (q : ascii -> bool) s :
  (forall c, p c = true -> q c = true) ->
  Js.all p s = true -> Js.all q s = true.
Proof.
  intros Hpq. induction s as [|c r IH]; simpl; [reflexivity|].
  intros H. apply andb_true_iff in H as [Hc Hr].
  rewrite (Hpq c Hc), IH by exact Hr. reflexivity.
Qed.

Lemma dropWhile_head s : headIs p s = false -> Js.dropWhile p s = s.
Proof. destruct s as [|c r]; simpl; [reflexivity|]. intros ->. reflexivity. Qed.

Lemma dropWhile_headIs s : headIs p (Js.dropWhile p s) = false.
Proof.
  induction s as [|c r IH]; simpl; [reflexivity|].
  destruct (p c) eqn:Hc; [exact IH | simpl; exact Hc].
Qed.

Lemma dropWhileEnd_last s : lastIs p s = false -> Js.dropWhileEnd p s = s.
Proof.
  induction s as [|c r IH]; [reflexivity|].
  intros H. cbn [Js.dropWhileEnd].
  destruct r as [|c' r'].
  - simpl in *. rewrite H. reflexivity.
  - rewrite IH by exact H. simpl. rewrite andb_false_r. reflexivity.
Qed.

(** Dropping at the end leaves the empty string or keeps the head. *)
Lemma dropWhileEnd_shape s :
  Js.dropWhileEnd p s = EmptyString
  \/ exists c r t,
       s = String c r /\ Js.dropWhileEnd p s = String c t.
Proof.
  destruct s as [|c r]; [left; reflexivity|].
  cbn [Js.dropWhileEnd].
  destruct (p c && Js.isEmpty (Js.dropWhileEnd p r));
    [left; reflexivity | right; eauto].
Qed.

Lemma dropWhileEnd_lastIs s : lastIs p (Js.dropWhileEnd p s) = false.
Proof.
  induction s as [|c r IH]; [reflexivity|].
  cbn [Js.dropWhileEnd].
  destruct (p c && Js.isEmpty (Js.dropWhileEnd p r)) eqn:Hc;
    [reflexivity|].
  destruct (Js.dropWhileEnd p r) as [|c' t] eqn:Hr.
  - simpl in *. rewrite andb_true_r in Hc. exact Hc.
  - exact IH.
Qed.

Lemma dropWhileEnd_headIs (q : ascii -> bool) s :
  headIs q s = false -> headIs q (Js.dropWhileEnd p s) = false.
Proof.
  intros H. destruct (dropWhileEnd_shape s) as [->|(c & r & t & -> & ->)];
    [reflexivity | exact H].
Qed.

Lemma all_dropWhile (q : ascii -> bool) s :
  Js.all q s = true -> Js.all q (Js.dropWhile p s) = true.
Proof.
  induction s as [|c r IH]; simpl; [reflexivity|].
  intros H. destruct (p c); [|exact H].
  apply andb_true_iff in H as [_ Hr]. apply IH, Hr.
Qed.

Lemma all_dropWhileEnd (q : ascii -> bool) s :
  Js.all q s = true -> Js.all q (Js.dropWhileEnd p s) = true.
Proof.
  induction s as [|c r IH]; [reflexivity|].
  intros H. simpl in H. apply andb_true_iff in H as [Hc Hr].
  cbn [Js.dropWhileEnd].
  destruct (p c && Js.isEmpty (Js.dropWhileEnd p r)); [reflexivity|].
  simpl. rewrite Hc, IH by exact Hr. reflexivity.
Qed.

Lemma noAdjacent_tail (q : ascii -> bool) c r :
  noAdjacent q (String c r) = true -> noAdjacent q r = true.
Proof.
  destruct r as [|c' r']; [reflexivity|]. simpl.
  intros H. apply andb_true_iff in H as [_ H]. exact H.
Qed.

Lemma noAdjacent_dropWhile (q : ascii -> bool) s :
  noAdjacent q s = true -> noAdjacent q (Js.dropWhile p s) = true.
Proof.
  induction s as [|c r IH]; [reflexivity|].
  intros H. cbn [Js.dropWhile]. destruct (p c); [|exact H].
  apply IH, (noAdjacent_tail q c r H).
Qed.

Lemma noAdjacent_dropWhileEnd (q : ascii -> bool) s :
  noAdjacent q s = true -> noAdjacent q (Js.dropWhileEnd p s) = true.
Proof.
  induction s as [|c r IH]; [reflexivity|].
  intros H. cbn [Js.dropWhileEnd].
  destruct (p c && Js.isEmpty (Js.dropWhileEnd p r)); [reflexivity|].
  pose proof (IH (noAdjacent_tail q c r H)) as Hr.
  destruct (dropWhileEnd_shape r) as [->|(c' & r' & t & -> & Heq)];
    [reflexivity|].
  rewrite Heq in *. cbn [noAdjacent] in *.
  apply andb_true_iff in H as [Hpair _]. rewrite Hpair. exact Hr.
Qed.

(** What [replaceRuns] produces holds hyphens and the characters outside
    the class. *)
Lemma all_replaceRuns (q : ascii -> bool) s :
  q "-"%char = true ->
  (forall c, p c = false -> In c (list_ascii_of_string s) -> q c = true) ->
  Js.all q (Js.replaceRuns p s) = true.
Proof.
  intros Hq. induction s as [|c r IH]; intros Hkeep; [reflexivity|].
  assert (Hr : Js.all q (Js.replaceRuns p r) = true).
  { apply IH. intros c' Hc' Hin. apply Hkeep; [exact Hc'|].
    simpl. right. exact Hin. }
  cbn [Js.replaceRuns]. destruct (p c) eqn:Hc.
  - destruct r as [|c' r']; [simpl; rewrite Hq; reflexivity|].
    destruct (p c'); [exact Hr|]. simpl. rewrite Hq. exact Hr.
  - simpl. rewrite Hr, (Hkeep c Hc) by (simpl; left; reflexivity).
    reflexivity.
Qed.

Lemma replaceRuns_head_kept c r :
  p c = false ->
  Js.replaceRuns p (String c r) = String c (Js.replaceRuns p r).
Proof. intros H. simpl. rewrite H. reflexivity. Qed.

End StringFacts.

Lemma noAdjacent_cons (q : ascii -> bool) c c' r :
  noAdjacent q (String c (String c' r))
  = negb (q c && q c') && noAdjacent q (String c' r).
Proof. reflexivity. Qed.

Lemma noAdjacent_replaceRuns_hyphen s :
  noAdjacent isHyphen (Js.replaceRuns isHyphen s) = true.
Proof.
  induction s as [|c r IH]; [reflexivity|].
  cbn [Js.replaceRuns]. destruct (isHyphen c) eqn:Hc.
  - destruct r as [|c' r']; [reflexivity|].
    destruct (isHyphen c') eqn:Hc'; [exact IH|].
    rewrite replaceRuns_head_kept in * by exact Hc'.
    rewrite noAdjacent_cons, Hc', andb_false_r, IH. reflexivity.
  - destruct r as [|c' r']; [reflexivity|].
    destruct (Js.replaceRuns isHyphen (String c' r')) as [|d t] eqn:Hr;
      [reflexivity|].
    rewrite noAdjacent_cons, Hc, IH. reflexivity.
Qed.

Lemma replaceRuns_hyphen_fixed s :
  noAdjacent isHyphen s = true -> Js.replaceRuns isHyphen s = s.
Proof.
  induction s as [|c r IH]; [reflexivity|].
  intros H. pose proof (IH (noAdjacent_tail _ c r H)) as Hr.
  cbn [Js.replaceRuns]. destruct (isHyphen c) eqn:Hc.
  - destruct r as [|c' r']; [rewrite (isHyphen_eq c Hc); reflexivity|].
    rewrite noAdjacent_cons in H. apply andb_true_iff in H as [Hpair _].
    rewrite Hc in Hpair. cbn [andb] in Hpair.
    apply negb_true_iff in Hpair.
    rewrite Hpair, Hr, (isHyphen_eq c Hc). reflexivity.
  - rewrite Hr. reflexivity.
Qed.

Lemma trimStart_fixed s :
  headIs Js.isWhiteSpace s = false -> Js.trimStart s = s.
Proof. destruct s as [|c r]; simpl; [reflexivity|]. intros ->. reflexivity. Qed.

Lemma trimEnd_fixed s :
  lastIs Js.isWhiteSpace s = false -> Js.trimEnd s = s.
Proof.
  induction s as [|c r IH]; [reflexivity|].
  intros H. cbn [Js.trimEnd].
  destruct r as [|c' r'].
  - simpl in *. rewrite H. reflexivity.
  - rewrite IH by exact H. simpl. rewrite andb_false_r. reflexivity.
Qed.

Lemma trim_fixed s :
  headIs Js.isWhiteSpace s = false ->
  lastIs Js.isWhiteSpace s = false ->
  Js.trim s = s.
Proof.
  intros Hh Hl. unfold Js.trim. rewrite trimStart_fixed by exact Hh.
  apply trimEnd_fixed, Hl.
Qed.

Lemma all_headIs_false (p q : ascii -> bool) s :
  (forall c, p c = true -> q c = false) ->
  Js.all p s = true -> headIs q s = false.
Proof.
  intros Hpq. destruct s as [|c r]; [reflexivity|]. simpl.
  intros H. apply andb_true_iff in H as [Hc _]. apply Hpq, Hc.
Qed.

Lemma all_lastIs_false (p q : ascii -> bool) s :
  (forall c, p c = true -> q c = false) ->
  Js.all p s = true -> lastIs q s = false.
Proof.
  intros Hpq. induction s as [|c r IH]; [reflexivity|].
  intros H. simpl in H. apply andb_true_iff in H as [Hc Hr].
  destruct r as [|c' r']; [simpl; apply Hpq, Hc | apply IH, Hr].
Qed.

(** A canonical slug is left as it is. *)
Lemma normalizeDiscordSlug_fixed s :
  isCanonicalSlug s = true -> normalizeDiscordSlug (Some s) = s.
Proof.
  unfold isCanonicalSlug. intros H.
  apply andb_true_iff in H as [H Hadj].
  apply andb_true_iff in H as [H Hlast].
  apply andb_true_iff in H as [Hall Hhead].
  apply negb_true_iff in Hlast, Hhead.
  unfold normalizeDiscordSlug.
  destruct (Js.isEmpty s) eqn:He; [destruct s; [reflexivity|discriminate]|].
  rewrite trim_fixed
    by (eapply all_headIs_false || eapply all_lastIs_false;
        [apply isSlugChar_not_space | exact Hall]).
  rewrite all_toLowerCase by exact Hall. rewrite He.
  rewrite (dropWhile_head isSigil s)
    by (eapply all_headIs_false; [apply isSlugChar_not_sigil | exact Hall]).
  rewrite (replaceRuns_none
             (fun c => Js.isWhiteSpace c || Ascii.eqb c "_"%char) s).
  2:{ eapply all_impl; [|exact Hall]. intros c Hc. cbv beta.
      rewrite (isSlugChar_not_space c Hc), (isSlugChar_not_underscore c Hc).
      reflexivity. }
  rewrite (replaceRuns_none
             (fun c => negb (Js.isLowerAlpha c || Js.isDigit c
                             || isHyphen c)) s).
  2:{ eapply all_impl; [|exact Hall]. intros c Hc. cbv beta.
      unfold isSlugChar in Hc. rewrite Hc. reflexivity. }
  rewrite replaceRuns_hyphen_fixed by exact Hadj.
  rewrite (dropWhile_head isHyphen s) by exact Hhead.
  apply dropWhileEnd_last, Hlast.
Qed.

(** X1.  Whatever its input, [normalizeDiscordSlug] returns a string made
    of the characters a-z, 0-9 and the hyphen, that neither starts nor ends
    with a hyphen and has no two hyphens in a row. *)
Theorem normalizeDiscordSlug_canonical (value : option string) :
  isCanonicalSlug (normalizeDiscordSlug value) = true.
Proof.
  unfold normalizeDiscordSlug.
  destruct value as [v|]; [|reflexivity].
  destruct (Js.isEmpty v); [reflexivity|].
  destruct (Js.isEmpty (Js.toLowerCase (Js.trim v))); [reflexivity|].
  set (t1 := Js.dropWhile isSigil (Js.toLowerCase (Js.trim v))).
  set (t2 := Js.replaceRuns
               (fun c => Js.isWhiteSpace c || Ascii.eqb c "_"%char) t1).
  set (t3 := Js.replaceRuns
               (fun c => negb (Js.isLowerAlpha c || Js.isDigit c
                               || isHyphen c)) t2).
  set (t4 := Js.replaceRuns isHyphen t3).
  assert (H3 : Js.all isSlugChar t3 = true).
  { subst t3. apply all_replaceRuns; [reflexivity|].
    intros c Hc _. apply negb_false_iff in Hc. exact Hc. }
  assert (H4 : Js.all isSlugChar t4 = true).
  { subst t4. apply all_replaceRuns; [reflexivity|].
    intros c _ Hin. clear -H3 Hin.
    induction t3 as [|d r IH]; [destruct Hin|].
    simpl in H3. apply andb_true_iff in H3 as [Hd Hr].
    destruct Hin as [<-|Hin]; [exact Hd | exact (IH Hr Hin)]. }
  assert (Hadj : noAdjacent isHyphen t4 = true)
    by (subst t4; apply noAdjacent_replaceRuns_hyphen).
  unfold isCanonicalSlug.
  rewrite all_dropWhileEnd by (apply all_dropWhile, H4).
  rewrite dropWhileEnd_headIs by apply dropWhile_headIs.
  rewrite dropWhileEnd_lastIs.
  rewrite noAdjacent_dropWhileEnd
    by (apply noAdjacent_dropWhile, Hadj).
  reflexivity.
Qed.

(** X2.  [normalizeDiscordSlug] is idempotent: the slug of a slug is that
    slug, so a configured key that is already a slug is matched as it
    is. *)
Theorem normalizeDiscordSlug_idempotent (value : option string) :
  normalizeDiscordSlug (Some (normalizeDiscordSlug value))
  = normalizeDiscordSlug value.
Proof.
  apply normalizeDiscordSlug_fixed, normalizeDiscordSlug_canonical.
Qed.


(** ** Allow lists: order, growth and the forms of an id *)

#[local] Set Warnings "-clear-no-such-hyp".

Section AllowListAlgebra.

Variable prefixes : list string.

Lemma mergeAcc_empty acc : mergeAcc acc (mkAcc false ∅ ∅) = acc.
Proof.
  destruct acc as [a i n]. unfold mergeAcc. simpl.
  rewrite orb_false_r. f_equal; set_solver.
Qed.

Lemma addIf_union s names : addIf s names = addIf s ∅ ∪ names.
Proof. unfold addIf. destruct (Js.truthy s); set_solver. Qed.

(** A step of the builder adds the contribution of its entry. *)
Lemma allowListStep_merge acc e :
  allowListStep prefixes acc e
  = mergeAcc acc (entryContribution prefixes e).
Proof.
  unfold entryContribution, allowListStep.
  destruct (Js.isEmpty _); [symmetry; apply mergeAcc_empty|].
  destruct (String.eqb _ "*").
  { unfold mergeAcc. simpl. rewrite orb_true_r. f_equal; set_solver. }
  destruct (mentionMatch _) as [id|].
  { unfold mergeAcc. simpl. rewrite orb_false_r. f_equal; set_solver. }
  destruct (Js.truthy _ && Js.all Js.isDigit _).
  { unfold mergeAcc. simpl. rewrite orb_false_r. f_equal; set_solver. }
  unfold mergeAcc. simpl. rewrite orb_false_r. f_equal; [set_solver|].
  rewrite (addIf_union _ (addIf _ (acc_names acc))).
  rewrite (addIf_union _ (acc_names acc)).
  rewrite (addIf_union _ (addIf _ ∅)).
  set_solver.
Qed.

Lemma mergeAcc_swap a b c :
  mergeAcc (mergeAcc a b) c = mergeAcc (mergeAcc a c) b.
Proof.
  unfold mergeAcc. simpl. f_equal; [|set_solver|set_solver].
  destruct (acc_allowAll a), (acc_allowAll b), (acc_allowAll c);
    reflexivity.
Qed.

Lemma allowListLoop_permutation raw raw' :
  Permutation raw raw' ->
  forall acc,
    allowListLoop prefixes raw acc = allowListLoop prefixes raw' acc.
Proof.
  unfold allowListLoop.
  induction 1 as [|e l l' _ IH|x y l|l l' l'' _ IH1 _ IH2]; intros acc;
    simpl.
  - reflexivity.
  - apply IH.
  - rewrite !allowListStep_merge. rewrite mergeAcc_swap. reflexivity.
  - rewrite IH1. apply IH2.
Qed.

(** The locals only grow along the loop. *)
Lemma allowListLoop_grows raw : forall acc,
  let acc' := allowListLoop prefixes raw acc in
  (acc_allowAll acc = true -> acc_allowAll acc' = true)
  /\ acc_ids acc ⊆ acc_ids acc'
  /\ acc_names acc ⊆ acc_names acc'.
Proof.
  unfold allowListLoop.
  induction raw as [|e raw IH]; intros acc; simpl; [auto|].
  destruct (IH (allowListStep prefixes acc e)) as (Ha & Hi & Hn).
  assert (Hstep : (acc_allowAll acc = true ->
                   acc_allowAll (allowListStep prefixes acc e) = true)
                  /\ acc_ids acc ⊆ acc_ids (allowListStep prefixes acc e)
                  /\ acc_names acc
                     ⊆ acc_names (allowListStep prefixes acc e)).
  { rewrite allowListStep_merge. unfold mergeAcc. simpl.
    split; [intros ->; reflexivity|]. split; set_solver. }
  destruct Hstep as (Ha' & Hi' & Hn').
  split; [|split].
  - intros H. apply Ha, Ha', H.
  - etransitivity; [exact Hi' | exact Hi].
  - etransitivity; [exact Hn' | exact Hn].
Qed.

Lemma allowListLoop_app raw more acc :
  allowListLoop prefixes (raw ++ more) acc
  = allowListLoop prefixes more (allowListLoop prefixes raw acc).
Proof. unfold allowListLoop. apply fold_left_app. Qed.

End AllowListAlgebra.

Lemma hasStr_subseteq (s s' : gset string) x :
  s ⊆ s' -> hasStr s x = true -> hasStr s' x = true.
Proof.
  unfold hasStr. intros Hsub H. apply bool_decide_eq_true in H.
  apply bool_decide_eq_true. set_solver.
Qed.

(** The tests of [allowListMatches] as one disjunction. *)
Lemma allowListMatches_tests allowList candidates :
  allowListMatches allowList candidates
  = allowAll allowList
    || Js.truthyOpt (cand_id candidates)
       && hasStr (ids allowList) (Js.nullish (cand_id candidates) "")
    || Js.truthy (normalizeDiscordName (cand_name candidates))
       && hasStr (names allowList)
            (normalizeDiscordName (cand_name candidates))
    || Js.truthy (normalizeDiscordName (cand_tag candidates))
       && hasStr (names allowList)
            (normalizeDiscordName (cand_tag candidates))
    || Js.truthy (normalizeDiscordSlug (cand_name candidates))
       && hasStr (names allowList)
            (normalizeDiscordSlug (cand_name candidates))
    || Js.truthy (normalizeDiscordSlug (cand_tag candidates))
       && hasStr (names allowList)
            (normalizeDiscordSlug (cand_tag candidates)).
Proof.
  unfold allowListMatches.
  destruct (allowAll allowList); [reflexivity|]. cbn [orb].
  repeat match goal with
         | |- (if ?c then true else _) = _ => destruct c; cbn [orb]
         end;
    rewrite ?orb_true_r; reflexivity.
Qed.

Lemma allowListMatches_included a b candidates :
  allowListIncluded a b ->
  allowListMatches a candidates = true ->
  allowListMatches b candidates = true.
Proof.
  intros (Hall & Hids & Hnames). rewrite !allowListMatches_tests.
  intros H. repeat (apply orb_true_iff in H as [H|H]).
  - rewrite (Hall H). reflexivity.
  - apply andb_true_iff in H as [H1 H2].
    rewrite H1, (hasStr_subseteq _ _ _ Hids H2), !orb_true_r. reflexivity.
  - apply andb_true_iff in H as [H1 H2].
    rewrite H1, (hasStr_subseteq _ _ _ Hnames H2), !orb_true_r.
    reflexivity.
  - apply andb_true_iff in H as [H1 H2].
    rewrite H1, (hasStr_subseteq _ _ _ Hnames H2), !orb_true_r.
    reflexivity.
  - apply andb_true_iff in H as [H1 H2].
    rewrite H1, (hasStr_subseteq _ _ _ Hnames H2), !orb_true_r.
    reflexivity.
  - apply andb_true_iff in H as [H1 H2].
    rewrite H1, (hasStr_subseteq _ _ _ Hnames H2), !orb_true_r.
    reflexivity.
Qed.

(** X3.  The list that [normalizeDiscordAllowList] builds does not depend
    on the order of the raw entries: two raw lists that are permutations
    of each other build the same result. *)
Theorem normalizeDiscordAllowList_permutation
    (raw raw' : list RawEntry) (prefixes : list string) :
  Permutation raw raw' ->
  normalizeDiscordAllowList (Some raw) prefixes
  = normalizeDiscordAllowList (Some raw') prefixes.
Proof.
  intros Hperm. rewrite !normalizeDiscordAllowList_loop.
  rewrite (allowListLoop_permutation prefixes raw raw' Hperm).
  reflexivity.
Qed.

Lemma normalizeDiscordAllowList_permutation_witness :
  normalizeDiscordAllowList
    (Some [RawStr "@bob"; RawNum 42; RawStr "*"]) userPrefixes
  = normalizeDiscordAllowList
      (Some [RawStr "*"; RawStr "@bob"; RawNum 42]) userPrefixes.
Proof.
  apply normalizeDiscordAllowList_permutation.
  apply Permutation_sym.
  apply (Permutation_cons_append [RawStr "@bob"; RawNum 42] (RawStr "*")).
Defined.

(** X4.  Adding entries to a raw allow list never revokes a permission:
    whatever the list built from [raw] matches, the list built from
    [raw ++ more] matches too, and it is not null when the former is
    not. *)
Theorem normalizeDiscordAllowList_grows
    (raw more : list RawEntry) (prefixes : list string)
    (allowList : DiscordAllowList) :
  normalizeDiscordAllowList (Some raw) prefixes = Some allowList ->
  exists allowList',
    normalizeDiscordAllowList (Some (raw ++ more)%list) prefixes
    = Some allowList'
    /\ allowListIncluded allowList allowList'
    /\ forall candidates,
         allowListMatches allowList candidates = true ->
         allowListMatches allowList' candidates = true.
Proof.
  rewrite !normalizeDiscordAllowList_loop. cbv zeta.
  rewrite allowListLoop_app.
  set (acc := allowListLoop prefixes raw (mkAcc false ∅ ∅)).
  destruct (allowListLoop_grows prefixes more acc) as (Ha & Hi & Hn).
  cbv zeta in Ha, Hi, Hn.
  set (acc' := allowListLoop prefixes more acc) in *.
  destruct (negb (acc_allowAll acc) && isEmptySet (acc_ids acc)
            && isEmptySet (acc_names acc)) eqn:Hnull; [discriminate|].
  intros [= <-].
  assert (Hnull' : negb (acc_allowAll acc') && isEmptySet (acc_ids acc')
                   && isEmptySet (acc_names acc') = false).
  { apply andb_false_iff in Hnull as [Hnull|Hnull].
    - apply andb_false_iff in Hnull as [Hnull|Hnull].
      + apply negb_false_iff in Hnull. rewrite (Ha Hnull). reflexivity.
      + unfold isEmptySet in *. apply bool_decide_eq_false in Hnull.
        replace (bool_decide (acc_ids acc' = ∅)) with false.
        * rewrite andb_false_r. reflexivity.
        * symmetry. apply bool_decide_eq_false. set_solver.
    - unfold isEmptySet in *. apply bool_decide_eq_false in Hnull.
      replace (bool_decide (acc_names acc' = ∅)) with false.
      + rewrite andb_false_r. reflexivity.
      + symmetry. apply bool_decide_eq_false. set_solver. }
  rewrite Hnull'. eexists. split; [reflexivity|].
  assert (Hincl : allowListIncluded
                    (mkAllowList (acc_allowAll acc) (acc_ids acc)
                       (acc_names acc))
                    (mkAllowList (acc_allowAll acc') (acc_ids acc')
                       (acc_names acc'))).
  { split; [exact Ha|]. split; [exact Hi | exact Hn]. }
  split; [exact Hincl|].
  intros candidates. apply allowListMatches_included, Hincl.
Qed.

Lemma normalizeDiscordAllowList_grows_witness :
  exists allowList',
    normalizeDiscordAllowList
      (Some ([RawStr "1234"] ++ [RawStr "@bob"])%list) userPrefixes
    = Some allowList'
    /\ allowListIncluded (mkAllowList false {[ "1234" ]} ∅) allowList'
    /\ forall candidates,
         allowListMatches (mkAllowList false {[ "1234" ]} ∅) candidates
         = true ->
         allowListMatches allowList' candidates = true.
Proof.
  apply (normalizeDiscordAllowList_grows [RawStr "1234"] [RawStr "@bob"]
           userPrefixes (mkAllowList false {[ "1234" ]} ∅)).
  vm_compute. reflexivity.
Defined.

(** ** What a built allow list holds *)

Lemma span_all p s a b : Js.span p s = (a, b) -> Js.all p a = true.
Proof.
  revert a b. induction s as [|c r IH]; intros a b; simpl.
  - intros [= <- <-]. reflexivity.
  - destruct (p c) eqn:Hc.
    + destruct (Js.span p r) as [a' b'] eqn:Hr. intros [= <- <-].
      simpl. rewrite Hc. apply (IH a' b'). reflexivity.
    + intros [= <- <-]. reflexivity.
Qed.

Lemma mentionMatch_digits entry d :
  mentionMatch entry = Some d -> isDigits d = true.
Proof.
  unfold mentionMatch. intros H.
  repeat case_match; try discriminate.
  all: injection H as <-; unfold isDigits;
    match goal with
    | Hs : Js.span _ _ = (_, _), Ht : _ && _ = true |- _ =>
        apply andb_true_iff in Ht as [Ht _]; rewrite Ht;
        rewrite (span_all _ _ _ _ Hs); reflexivity
    end.
Qed.

Lemma contribution_ids prefixes e x :
  x ∈ acc_ids (entryContribution prefixes e) -> isDigits x = true.
Proof.
  unfold entryContribution, allowListStep.
  destruct (Js.isEmpty _); [set_solver|].
  destruct (String.eqb _ "*"); [set_solver|].
  destruct (mentionMatch _) as [id|] eqn:Hm.
  { simpl. intros Hx. assert (x = id) as -> by set_solver.
    exact (mentionMatch_digits _ _ Hm). }
  destruct (Js.truthy _ && Js.all Js.isDigit _) eqn:Hd; simpl.
  - intros Hx.
    match type of Hx with
    | x ∈ {[ ?entry ]} ∪ ∅ => assert (x = entry) as -> by set_solver
    end.
    exact Hd.
  - set_solver.
Qed.

Lemma addIf_elem s names x :
  x ∈ addIf s names -> (x = s /\ Js.truthy s = true) \/ x ∈ names.
Proof.
  unfold addIf. destruct (Js.truthy s); [|auto].
  intros Hx. apply elem_of_union in Hx as [Hx|Hx]; [|auto].
  left. split; [set_solver | reflexivity].
Qed.

Lemma contribution_names prefixes e x :
  x ∈ acc_names (entryContribution prefixes e) -> Js.truthy x = true.
Proof.
  unfold entryContribution, allowListStep.
  destruct (Js.isEmpty _); [set_solver|].
  destruct (String.eqb _ "*"); [set_solver|].
  destruct (mentionMatch _) as [id|]; [set_solver|].
  destruct (Js.truthy _ && Js.all Js.isDigit _); [set_solver|].
  simpl. intros Hx.
  apply addIf_elem in Hx as [[-> H]|Hx]; [exact H|].
  apply addIf_elem in Hx as [[-> H]|Hx]; [exact H|].
  set_solver.
Qed.

Lemma allowListLoop_ids_from prefixes raw : forall acc x,
  x ∈ acc_ids (allowListLoop prefixes raw acc) ->
  x ∈ acc_ids acc
  \/ exists e, In e raw /\ x ∈ acc_ids (entryContribution prefixes e).
Proof.
  unfold allowListLoop.
  induction raw as [|e raw IH]; intros acc x; simpl; [auto|].
  intros Hx. apply IH in Hx as [Hx|(e' & Hin & Hx)]; [|eauto].
  rewrite allowListStep_merge in Hx. unfold mergeAcc in Hx. simpl in Hx.
  apply elem_of_union in Hx as [Hx|Hx]; eauto.
Qed.

Lemma allowListLoop_names_from prefixes raw : forall acc x,
  x ∈ acc_names (allowListLoop prefixes raw acc) ->
  x ∈ acc_names acc
  \/ exists e, In e raw /\ x ∈ acc_names (entryContribution prefixes e).
Proof.
  unfold allowListLoop.
  induction raw as [|e raw IH]; intros acc x; simpl; [auto|].
  intros Hx. apply IH in Hx as [Hx|(e' & Hin & Hx)]; [|eauto].
  rewrite allowListStep_merge in Hx. unfold mergeAcc in Hx. simpl in Hx.
  apply elem_of_union in Hx as [Hx|Hx]; eauto.
Qed.

(** X6.  Every id of a built allow list is a non-empty string of decimal
    digits, and every name is a non-empty string. *)
Theorem normalizeDiscordAllowList_members
    (raw : option (list RawEntry)) (prefixes : list string)
    (allowList : DiscordAllowList) :
  normalizeDiscordAllowList raw prefixes = Some allowList ->
  (forall x, x ∈ ids allowList -> isDigits x = true)
  /\ (forall x, x ∈ names allowList -> Js.truthy x = true).
Proof.
  destruct raw as [raw|]; [|discriminate].
  rewrite normalizeDiscordAllowList_loop. cbv zeta.
  destruct (_ && _ && _); [discriminate|]. intros [= <-]. simpl.
  split; intros x Hx.
  - apply allowListLoop_ids_from in Hx as [Hx|(e & _ & Hx)];
      [set_solver | exact (contribution_ids _ _ _ Hx)].
  - apply allowListLoop_names_from in Hx as [Hx|(e & _ & Hx)];
      [set_solver | exact (contribution_names _ _ _ Hx)].
Qed.

Lemma normalizeDiscordAllowList_members_witness :
  (forall x,
      x ∈ ids (mkAllowList false ({[ "123" ]} ∪ {[ "42" ]})
                 ({[ "bob smith" ]} ∪ {[ "bob-smith" ]})) ->
      isDigits x = true)
  /\ (forall x,
        x ∈ names (mkAllowList false ({[ "123" ]} ∪ {[ "42" ]})
                     ({[ "bob smith" ]} ∪ {[ "bob-smith" ]})) ->
        Js.truthy x = true).
Proof.
  apply (normalizeDiscordAllowList_members
           (Some [RawStr "discord:<@!123>"; RawNum 42; RawStr "  ";
                  RawStr "@Bob Smith"])
           userPrefixes).
  vm_compute. reflexivity.
Defined.

(** ** The forms of an id *)

Lemma isDigit_not_space c :
  Js.isDigit c = true -> Js.isWhiteSpace c = false.
Proof. by_cases_on_char c. Qed.

Lemma lastIs_app (p : ascii -> bool) a b :
  Js.isEmpty b = false -> lastIs p (a ++ b) = lastIs p b.
Proof.
  intros Hb. induction a as [|c r IH]; [reflexivity|].
  simpl. destruct (r ++ b) as [|c' t] eqn:Hr; [|exact IH].
  destruct r; [destruct b; discriminate | discriminate].
Qed.

Lemma all_app (p : ascii -> bool) a b :
  Js.all p (a ++ b) = Js.all p a && Js.all p b.
Proof.
  induction a as [|c r IH]; simpl; [reflexivity|].
  rewrite IH, andb_assoc. reflexivity.
Qed.

Lemma all_not_space_trim s :
  Js.all (fun c => negb (Js.isWhiteSpace c)) s = true -> Js.trim s = s.
Proof.
  intros H. apply trim_fixed.
  - eapply all_headIs_false; [|exact H]. intros c Hc.
    apply negb_true_iff, Hc.
  - eapply all_lastIs_false; [|exact H]. intros c Hc.
    apply negb_true_iff, Hc.
Qed.

Lemma digits_not_space d :
  Js.all Js.isDigit d = true ->
  Js.all (fun c => negb (Js.isWhiteSpace c)) d = true.
Proof.
  apply all_impl. intros c Hc. rewrite (isDigit_not_space c Hc).
  reflexivity.
Qed.

Lemma span_digits_then d :
  Js.all Js.isDigit d = true -> Js.span Js.isDigit (d ++ ">") = (d, ">").
Proof.
  induction d as [|c r IH]; [reflexivity|]. simpl.
  intros H. apply andb_true_iff in H as [Hc Hr].
  rewrite Hc, (IH Hr). reflexivity.
Qed.

Lemma digit_head_facts c r :
  Js.isDigit c = true ->
  String.eqb (String c r) "*" = false
  /\ stripPrefix userPrefixes (String c r) = String c r
  /\ mentionMatch (String c r) = None
  /\ Js.startsWith (String c r) "@" = false
  /\ Js.startsWith (String c r) "#" = false
  /\ match String c r with
     | String "!"%char r' => r'
     | _ => String c r
     end = String c r.
Proof.
  destruct c as [[] [] [] [] [] [] [] []]; vm_compute;
    try discriminate; intros _; repeat split; reflexivity.
Qed.

Lemma mentionMatch_form (sigil : ascii) (bang : bool) d :
  isSigil sigil = true ->
  isDigits d = true ->
  mentionMatch
    (String "<" (String sigil ((if bang then "!" else "") ++ d ++ ">")))
  = Some d.
Proof.
  intros Hs Hd. unfold isDigits in Hd.
  apply andb_true_iff in Hd as [Hne Hall].
  destruct d as [|c r]; [discriminate|].
  pose proof Hall as Hc. simpl in Hc. apply andb_true_iff in Hc as [Hc _].
  destruct (digit_head_facts c (r ++ ">") Hc) as (_ & _ & _ & _ & _ & Hbang).
  unfold mentionMatch. rewrite Hs.
  assert (Hr1 : match (if bang then "!" else "") ++ String c r ++ ">" with
                | String "!"%char r' => r'
                | _ => (if bang then "!" else "") ++ String c r ++ ">"
                end = String c r ++ ">").
  { destruct bang; [reflexivity | exact Hbang]. }
  rewrite Hr1, (span_digits_then (String c r) Hall). reflexivity.
Qed.

(** Each form of the id [d] contributes [d] to the ids. *)
Lemma idForms_contribution d f :
  isDigits d = true ->
  In f (idForms d) ->
  d ∈ acc_ids (entryContribution userPrefixes (RawStr f)).
Proof.
  intros Hd Hin. pose proof Hd as Hd'. unfold isDigits in Hd'.
  apply andb_true_iff in Hd' as [Hne Hall].
  destruct d as [|c r]; [discriminate|].
  pose proof Hall as Hc. simpl in Hc. apply andb_true_iff in Hc as [Hc _].
  destruct (digit_head_facts c r Hc)
    as (Hstar & Hstrip & Hmention & Hat & Hhash & _).
  pose proof (all_not_space_trim _ (digits_not_space _ Hall)) as Htrim.
  assert (Hplain :
    forall e0,
      Js.trim e0 = e0 -> Js.isEmpty e0 = false ->
      String.eqb e0 "*" = false ->
      stripPrefix userPrefixes e0 = String c r ->
      String c r ∈ acc_ids (entryContribution userPrefixes (RawStr e0))).
  { intros e0 H1 H2 H3 H4. unfold entryContribution, allowListStep.
    cbn [String_]. rewrite H1, H2, H3, H4, Hmention, Htrim, Hat, Hhash.
    cbn [orb]. unfold isDigits in Hd. rewrite Hd. simpl. set_solver. }
  assert (Hform :
    forall e0,
      Js.trim e0 = e0 -> Js.isEmpty e0 = false ->
      String.eqb e0 "*" = false ->
      mentionMatch (stripPrefix userPrefixes e0) = Some (String c r) ->
      String c r ∈ acc_ids (entryContribution userPrefixes (RawStr e0))).
  { intros e0 H1 H2 H3 H4. unfold entryContribution, allowListStep.
    cbn [String_]. rewrite H1, H2, H3, H4. simpl. set_solver. }
  assert (Hwrapped :
    forall a, Js.all (fun c => negb (Js.isWhiteSpace c)) a = true ->
      Js.trim (a ++ String c r ++ ">") = a ++ String c r ++ ">").
  { intros a Ha. apply all_not_space_trim.
    rewrite !all_app, Ha, (digits_not_space _ Hall). reflexivity. }
  assert (Hprefixed :
    forall a, Js.all (fun c => negb (Js.isWhiteSpace c)) a = true ->
      Js.trim (a ++ String c r) = a ++ String c r).
  { intros a Ha. apply all_not_space_trim.
    rewrite all_app, Ha, (digits_not_space _ Hall). reflexivity. }
  unfold idForms in Hin. simpl in Hin.
  destruct Hin as [<-|[<-|[<-|[<-|[<-|[<-|[]]]]]]].
  - apply Hplain; auto.
  - apply Hform; [apply (Hwrapped "<@"); reflexivity | reflexivity
                  | reflexivity |].
    apply (mentionMatch_form "@" false (String c r)); [reflexivity|exact Hd].
  - apply Hform; [apply (Hwrapped "<@!"); reflexivity | reflexivity
                  | reflexivity |].
    apply (mentionMatch_form "@" true (String c r)); [reflexivity|exact Hd].
  - apply Hform; [apply (Hwrapped "<#"); reflexivity | reflexivity
                  | reflexivity |].
    apply (mentionMatch_form "#" false (String c r)); [reflexivity|exact Hd].
  - apply Hplain; [apply (Hprefixed "discord:"); reflexivity | reflexivity
                   | reflexivity | vm_compute; reflexivity].
  - apply Hplain; [apply (Hprefixed "user:"); reflexivity | reflexivity
                   | reflexivity | vm_compute; reflexivity].
Qed.

Lemma allowListLoop_ids_of_entry prefixes raw : forall acc e x,
  In e raw ->
  x ∈ acc_ids (entryContribution prefixes e) ->
  x ∈ acc_ids (allowListLoop prefixes raw acc).
Proof.
  induction raw as [|e' raw IH]; intros acc e x Hin Hx; [destruct Hin|].
  change (allowListLoop prefixes (e' :: raw) acc)
    with (allowListLoop prefixes raw (allowListStep prefixes acc e')).
  destruct Hin as [->|Hin]; [|exact (IH _ e x Hin Hx)].
  destruct (allowListLoop_grows prefixes raw
              (allowListStep prefixes acc e)) as (_ & Hi & _).
  apply Hi. rewrite allowListStep_merge. unfold mergeAcc. simpl.
  set_solver.
Qed.

(** X5.  Under the prefixes ["discord:"] and ["user:"], an id written in a
    raw allow list as [d], [<@d>], [<@!d>], [<#d>], [discord:d] or
    [user:d], for [d] a non-empty string of digits, makes the built list
    match every candidate whose id is [d], whatever the other entries. *)
Theorem allow_list_permits_listed_id
    (raw : list RawEntry) (d f : string) :
  isDigits d = true ->
  In f (idForms d) ->
  In (RawStr f) raw ->
  exists allowList,
    normalizeDiscordAllowList (Some raw) userPrefixes = Some allowList
    /\ forall name tag,
         allowListMatches allowList (mkCand (Some d) name tag) = true.
Proof.
  intros Hd Hf Hin.
  pose proof (allowListLoop_ids_of_entry userPrefixes raw (mkAcc false ∅ ∅)
                (RawStr f) d Hin (idForms_contribution d f Hd Hf)) as Hmem.
  rewrite normalizeDiscordAllowList_loop. cbv zeta.
  set (acc := allowListLoop userPrefixes raw (mkAcc false ∅ ∅)) in *.
  assert (Hne : isEmptySet (acc_ids acc) = false).
  { unfold isEmptySet. apply bool_decide_eq_false. set_solver. }
  rewrite Hne, andb_false_r. cbn [andb].
  eexists. split; [reflexivity|].
  intros name tag. rewrite allowListMatches_tests. simpl.
  unfold isDigits in Hd. apply andb_true_iff in Hd as [Hd _].
  rewrite Hd. unfold hasStr.
  replace (bool_decide (d ∈ acc_ids acc)) with true
    by (symmetry; apply bool_decide_eq_true; exact Hmem).
  rewrite orb_true_r. reflexivity.
Qed.

Lemma allow_list_permits_listed_id_witness :
  exists allowList,
    normalizeDiscordAllowList
      (Some [RawStr "@bob"; RawStr "<@!1234>"]) userPrefixes
    = Some allowList
    /\ forall name tag,
         allowListMatches allowList (mkCand (Some "1234") name tag) = true.
Proof.
  apply (allow_list_permits_listed_id
           [RawStr "@bob"; RawStr "<@!1234>"] "1234" "<@!1234>").
  - reflexivity.
  - simpl. right. right. left. reflexivity.
  - simpl. right. left. reflexivity.
Defined.

(** ** Lists of blank entries *)

Lemma normalizeDiscordAllowList_blank raw prefixes :
  forallb isBlankEntry raw = true ->
  normalizeDiscordAllowList (Some raw) prefixes = None.
Proof.
  intros Hb. rewrite normalizeDiscordAllowList_loop. cbv zeta.
  assert (Hloop : forall acc, allowListLoop prefixes raw acc = acc).
  { unfold allowListLoop. induction raw as [|e raw IH]; intros acc;
      [reflexivity|].
    simpl in Hb. apply andb_true_iff in Hb as [He Hb]. simpl.
    rewrite allowListStep_blank by exact He. apply IH, Hb. }
  rewrite Hloop. reflexivity.
Qed.

(** X7.  A configured list that is not empty but holds only blank entries
    builds null, and the three callers read null differently: the direct
    message gate rejects every sender, the guild user gate admits every
    sender, and the group DM channel gate admits every channel. *)
Theorem blank_only_lists_differ_by_caller
    (cfg : Setup) (raw : list RawEntry) :
  raw <> [] ->
  forallb isBlankEntry raw = true ->
  (allowFrom cfg = Some raw ->
   forall author, dmSenderPermitted cfg author = false)
  /\ (forall m author,
        guildInfoOf cfg m ≫= ge_users = Some raw ->
        guildSenderOk cfg m author = true)
  /\ (forall channelId channelName channelSlug,
        resolveGroupDmAllow (Some raw) channelId channelName channelSlug
        = true).
Proof.
  intros Hne Hb. destruct raw as [|e raw]; [congruence|].
  split; [|split].
  - intros Hcfg author. unfold dmSenderPermitted. rewrite Hcfg.
    rewrite normalizeDiscordAllowList_blank by exact Hb. reflexivity.
  - intros m author Hu. unfold guildSenderOk. rewrite Hu.
    rewrite normalizeDiscordAllowList_blank by exact Hb. reflexivity.
  - intros channelId channelName channelSlug. unfold resolveGroupDmAllow.
    rewrite normalizeDiscordAllowList_blank by exact Hb. reflexivity.
Qed.

Lemma blank_only_lists_witness :
  (allowFrom
     (Fixture.setupWith
        (mkDiscordConfig None None None None None (Some [RawStr "  "])
           None None))
   = Some [RawStr "  "] ->
   forall author,
     dmSenderPermitted
       (Fixture.setupWith
          (mkDiscordConfig None None None None None (Some [RawStr "  "])
             None None))
       author = false)
  /\ (forall m author,
        guildInfoOf
          (Fixture.setupWith
             (mkDiscordConfig None None None None None
                (Some [RawStr "  "]) None None)) m
        ≫= ge_users = Some [RawStr "  "] ->
        guildSenderOk
          (Fixture.setupWith
             (mkDiscordConfig None None None None None
                (Some [RawStr "  "]) None None)) m author = true)
  /\ (forall channelId channelName channelSlug,
        resolveGroupDmAllow (Some [RawStr "  "]) channelId channelName
          channelSlug = true).
Proof.
  apply (blank_only_lists_differ_by_caller
           (Fixture.setupWith
              (mkDiscordConfig None None None None None
                 (Some [RawStr "  "]) None None))
           [RawStr "  "]).
  - discriminate.
  - reflexivity.
Defined.

(** ** Resolving the guild entry *)

Lemma ownEntry_In entries key e :
  ownEntry entries key = Some e -> In (key, e) entries.
Proof.
  induction entries as [|[k e'] entries IH]; simpl; [discriminate|].
  destruct (String.eqb k key) eqn:Hk.
  - apply String.eqb_eq in Hk as ->. intros [= ->]. left. reflexivity.
  - intros H. right. exact (IH H).
Qed.

(** A lookup finds a configured entry under the key, or the value every
    object inherits under it. *)
Lemma getEntry_cases entries key e :
  getEntry entries key = Some e ->
  In (key, e) entries
  \/ (ownEntry entries key = None /\ isInheritedKey key = true
      /\ e = inheritedEntry).
Proof.
  unfold getEntry. destruct (ownEntry entries key) as [own|] eqn:Hown.
  - intros [= <-]. left. apply ownEntry_In, Hown.
  - destruct (isInheritedKey key) eqn:Hk; [|discriminate].
    intros [= <-]. right. auto.
Qed.

Lemma getEntry_own entries key e :
  ownEntry entries key = Some e -> getEntry entries key = Some e.
Proof. unfold getEntry. intros ->. reflexivity. Qed.

(** X8.  [resolveDiscordGuildEntry] returns null without a guild or
    without configured entries.  What it returns carries the id of the
    guild and a slug, with the settings of one of the configured entries,
    or with no settings at all when the id or the slug of the guild is the
    name of a property every object inherits ([constructor], [toString]
    and the like) and no entry is configured under that name.  An entry
    configured under the id of the guild is the one used when there is
    one, and with an entry configured under ["*"] every guild resolves.
    A guild whose slug is an inherited name, with nothing configured
    under its id or that name, resolves with no settings as soon as any
    entry is configured, ahead of the entries' slugs and of the
    wildcard. *)
Theorem resolveDiscordGuildEntry_resolution
    (guild : Guild) (entries : GuildEntries) :
  let guildId := guild_id guild in
  let guildSlug := normalizeDiscordSlug (Some (guild_name guild)) in
  resolveDiscordGuildEntry None (Some entries) = None
  /\ resolveDiscordGuildEntry (Some guild) None = None
  /\ resolveDiscordGuildEntry (Some guild) (Some []) = None
  /\ (forall resolved,
        resolveDiscordGuildEntry (Some guild) (Some entries)
        = Some resolved ->
        ge_id resolved = Some guildId
        /\ is_Some (ge_slug resolved)
        /\ ((exists key entry,
                In (key, entry) entries
                /\ resolved = resolvedFrom guildId guildSlug entry)
            \/ ((ownEntry entries guildId = None
                 /\ isInheritedKey guildId = true
                 \/ ownEntry entries guildSlug = None
                    /\ isInheritedKey guildSlug = true)
                /\ resolved = resolvedFrom guildId guildSlug inheritedEntry
                /\ ge_requireMention resolved = None
                /\ ge_reactionNotifications resolved = None
                /\ ge_users resolved = None
                /\ ge_channels resolved = None)))
  /\ (forall direct,
        ownEntry entries guildId = Some direct ->
        resolveDiscordGuildEntry (Some guild) (Some entries)
        = Some (resolvedFrom guildId guildSlug direct))
  /\ (forall wildcard,
        ownEntry entries "*" = Some wildcard ->
        exists resolved,
          resolveDiscordGuildEntry (Some guild) (Some entries)
          = Some resolved)
  /\ (entries <> [] ->
      ownEntry entries guildId = None ->
      isInheritedKey guildId = false ->
      ownEntry entries guildSlug = None ->
      isInheritedKey guildSlug = true ->
      resolveDiscordGuildEntry (Some guild) (Some entries)
      = Some (resolvedFrom guildId guildSlug inheritedEntry)).
Proof.
  cbv zeta.
  split; [reflexivity|]. split; [reflexivity|]. split; [reflexivity|].
  split; [|split; [|split]].
  - intros resolved. unfold resolveDiscordGuildEntry.
    destruct entries as [|pair rest]; [discriminate|].
    set (entries := pair :: rest).
    assert (Hfound : forall key entry,
               getEntry entries key = Some entry ->
               key = guild_id guild
               \/ key = normalizeDiscordSlug (Some (guild_name guild))
               \/ key = "*" ->
               let r :=
                 resolvedFrom (guild_id guild)
                   (normalizeDiscordSlug (Some (guild_name guild))) entry in
               ge_id r = Some (guild_id guild)
               /\ is_Some (ge_slug r)
               /\ ((exists key' entry',
                       In (key', entry') entries
                       /\ r = resolvedFrom (guild_id guild)
                                (normalizeDiscordSlug
                                   (Some (guild_name guild))) entry')
                   \/ ((ownEntry entries (guild_id guild) = None
                        /\ isInheritedKey (guild_id guild) = true
                        \/ ownEntry entries
                             (normalizeDiscordSlug
                                (Some (guild_name guild))) = None
                           /\ isInheritedKey
                                (normalizeDiscordSlug
                                   (Some (guild_name guild))) = true)
                       /\ r = resolvedFrom (guild_id guild)
                                (normalizeDiscordSlug
                                   (Some (guild_name guild)))
                                inheritedEntry
                       /\ ge_requireMention r = None
                       /\ ge_reactionNotifications r = None
                       /\ ge_users r = None
                       /\ ge_channels r = None))).
    { intros key entry Hget Hkey. cbv zeta.
      split; [reflexivity|]. split; [eexists; reflexivity|].
      apply getEntry_cases in Hget as [Hin|(Hown & Hinh & ->)].
      - left. eauto.
      - right. split; [|repeat split].
        destruct Hkey as [->|[->| ->]]; [auto | auto | discriminate]. }
    destruct (getEntry entries (guild_id guild)) as [direct|] eqn:Hd.
    { intros [= <-]. apply (Hfound _ _ Hd). auto. }
    destruct (if Js.truthy _ then _ else None) as [entry|] eqn:Hs.
    { intros [= <-]. destruct (Js.truthy _); [|discriminate].
      apply (Hfound _ _ Hs). auto. }
    destruct (List.find _ entries) as [[key entry]|] eqn:Hf.
    { intros [= <-]. split; [reflexivity|]. split; [eexists; reflexivity|].
      left. exists key, entry. apply find_some in Hf as [Hin _].
      split; [exact Hin | reflexivity]. }
    destruct (getEntry entries "*") as [wildcard|] eqn:Hw; [|discriminate].
    intros [= <-]. apply (Hfound _ _ Hw). auto.
  - intros direct Hd. unfold resolveDiscordGuildEntry.
    destruct entries as [|pair rest]; [discriminate|].
    rewrite (getEntry_own _ _ _ Hd). reflexivity.
  - intros wildcard Hw. unfold resolveDiscordGuildEntry.
    destruct entries as [|pair rest]; [discriminate|].
    set (entries := pair :: rest) in *.
    destruct (getEntry entries (guild_id guild)); [eauto|].
    destruct (if Js.truthy _ then _ else None); [eauto|].
    destruct (List.find _ entries) as [[key entry]|]; [eauto|].
    rewrite (getEntry_own _ _ _ Hw). eauto.
  - intros Hne Hid Hidk Hslug Hslugk. unfold resolveDiscordGuildEntry.
    destruct entries as [|pair rest]; [congruence|].
    set (entries := pair :: rest) in *.
    unfold getEntry at 1. rewrite Hid, Hidk.
    assert (Js.truthy (normalizeDiscordSlug (Some (guild_name guild)))
            = true) as ->.
    { destruct (normalizeDiscordSlug (Some (guild_name guild)));
        [discriminate | reflexivity]. }
    unfold getEntry. rewrite Hslug, Hslugk. reflexivity.
Qed.

Lemma resolveDiscordGuildEntry_witness :
  resolveDiscordGuildEntry (Some (mkGuild "5001" "Constructor"))
    (Some [("test-guild",
            mkGuildEntry None None (Some false) None None None);
           ("*", mkGuildEntry None None (Some true) None None None)])
  = Some (resolvedFrom "5001" "constructor" inheritedEntry).
Proof.
  apply (proj2 (proj2 (proj2 (proj2 (proj2 (proj2
           (resolveDiscordGuildEntry_resolution
              (mkGuild "5001" "Constructor")
              [("test-guild",
                mkGuildEntry None None (Some false) None None None);
               ("*",
                mkGuildEntry None None (Some true) None None None)]))))))).
  - discriminate.
  - reflexivity.
  - reflexivity.
  - reflexivity.
  - reflexivity.
Defined.

(** ** Delivery follows its plan *)

Section PlanFacts.

Variable chunkText : string -> Z -> list string.
Variable resolves : OutboundSend -> bool.
Variables (target token : string) (mode : ReplyToMode).

Lemma follows_ret {A} (a : A) : follows (ret a) [].
Proof.
  intros log. exists []. simpl. rewrite app_nil_r. auto.
Qed.

Lemma follows_send s :
  follows (sendMessageDiscord resolves s) [sendShape s].
Proof.
  intros log. unfold sendMessageDiscord.
  destruct (resolves s); simpl.
  - exists [s]. auto.
  - exists []. rewrite app_nil_r. split; [reflexivity|].
    exists (sendShape s), []. reflexivity.
Qed.

Lemma follows_bind {A B} (m : Sending A) (k : A -> Sending B) P Q :
  follows m P -> (forall a, follows (k a) Q) ->
  follows (bind m k) (P ++ Q).
Proof.
  intros Hm Hk log. unfold bind.
  destruct (Hm log) as (new & Hsnd & Hres).
  destruct (m log) as [[a|] log'] eqn:Hml; simpl in *; subst log'.
  - destruct (Hk a (log ++ new)%list) as (new' & Hsnd' & Hres').
    exists (new ++ new')%list. rewrite Hsnd', app_assoc.
    split; [reflexivity|].
    destruct (isOk (fst (k a (log ++ new)%list))).
    + rewrite map_app, Hres, Hres'. reflexivity.
    + destruct Hres' as (next & rest & ->).
      exists next, rest. rewrite map_app, Hres, app_assoc. reflexivity.
  - exists new. split; [reflexivity|].
    destruct Hres as (next & rest & ->).
    exists next, (rest ++ Q)%list. rewrite <- app_assoc. reflexivity.
Qed.

Lemma follows_forEach {X S} (body : X -> S -> Sending S)
    (planOf : X -> list (string * option string)) (xs : list X) :
  (forall x s, follows (body x s) (planOf x)) ->
  forall s, follows (forEach xs body s) (flat_map planOf xs).
Proof.
  intros Hbody. induction xs as [|x xs IH]; intros s; simpl.
  - apply follows_ret.
  - apply follows_bind; [apply Hbody | exact IH].
Qed.

Lemma follows_plan_eq {A} (m : Sending A) P Q :
  P = Q -> follows m P -> follows m Q.
Proof. intros ->. auto. Qed.

Lemma flat_map_singletons {X Y} (f : X -> Y) (xs : list X) :
  flat_map (fun x => [f x]) xs = map f xs.
Proof. induction xs as [|x xs IH]; simpl; [|rewrite IH]; reflexivity. Qed.

Lemma media_loop_unfold txt id u urls (first : bool) h log :
  let s :=
    mkSend target (if first then txt else "") token (Some u)
      (resolveDiscordReplyTarget mode id h) in
  forEach (u :: urls) (sendMedia resolves target token mode txt id)
    (first, h) log
  = if resolves s
    then forEach urls (sendMedia resolves target token mode txt id)
           (false, markReplied (resolveDiscordReplyTarget mode id h) h)
           (List.app log [s])
    else (Threw, log).
Proof.
  intros s. subst s. cbn [forEach]. unfold bind at 1.
  unfold sendMedia at 1. unfold bind at 1. unfold sendMessageDiscord at 1.
  destruct (resolves _); reflexivity.
Qed.

Lemma follows_media_loop txt id urls : forall (first : bool) h,
  follows (forEach urls (sendMedia resolves target token mode txt id)
             (first, h))
    (if first then captionedMedia txt urls
     else map (fun u => ("", Some u)) urls).
Proof.
  induction urls as [|u urls IH]; intros first h log.
  - exists []. simpl. rewrite app_nil_r. split; [reflexivity|].
    destruct first; reflexivity.
  - rewrite media_loop_unfold. cbv zeta.
    destruct (resolves _) eqn:Hres.
    + match goal with
      | |- context [forEach urls _ (false, ?h') ?l] =>
          destruct (IH false h' l) as (new & Hsnd & Hplan);
          destruct (forEach urls _ (false, h') l) as [r log'] eqn:Hloop
      end.
      cbn [fst snd] in *. subst log'.
      eexists (_ :: new). rewrite <- app_assoc. split; [reflexivity|].
      destruct r as [st|]; cbn [isOk] in *.
      * cbn [map]. rewrite Hplan. destruct first; reflexivity.
      * destruct Hplan as (next & rest & Hplan).
        exists next, rest. cbn [map app]. rewrite <- Hplan.
        destruct first; reflexivity.
    + exists []. cbn [fst snd isOk map app]. rewrite app_nil_r.
      split; [reflexivity|].
      destruct first; simpl; eauto.
Qed.

Lemma follows_send_ret {A} s (a : A) :
  follows (bind (sendMessageDiscord resolves s) (fun _ => ret a))
    [sendShape s].
Proof.
  apply (follows_bind _ _ [sendShape s] []);
    [apply follows_send | intros; apply follows_ret].
Qed.

Lemma follows_deliverPayload limit payload h :
  follows (deliverPayload chunkText resolves target token mode limit
             payload h)
    (payloadShapes chunkText limit payload).
Proof.
  unfold deliverPayload, payloadShapes. rewrite mediaListOf_stated.
  destruct (statedMedia payload) as [|u urls].
  - destruct (Js.isEmpty _); [apply follows_ret|].
    eapply follows_plan_eq; [apply flat_map_singletons|].
    apply follows_forEach. intros chunk h'. unfold sendChunk.
    apply (follows_send_ret
             (mkSend target chunk token None
                (resolveDiscordReplyTarget mode (replyToId payload) h'))).
  - eapply follows_plan_eq;
      [|apply (follows_bind _ _
                 (captionedMedia (Js.nullish (text payload) "") (u :: urls))
                 []);
        [apply (follows_media_loop (Js.nullish (text payload) "")
                  (replyToId payload) (u :: urls) true h)
        | intros; apply follows_ret]].
    apply app_nil_r.
Qed.

Lemma follows_deliverReplies replies textLimit :
  follows (deliverReplies chunkText resolves replies target token mode
             textLimit)
    (flat_map (payloadShapes chunkText (Z.min textLimit 2000)) replies).
Proof.
  unfold deliverReplies.
  eapply follows_plan_eq;
    [|apply (follows_bind _ _
               (flat_map (payloadShapes chunkText (Z.min textLimit 2000))
                  replies)
               []);
      [apply follows_forEach; intros; apply follows_deliverPayload
      | intros; apply follows_ret]].
  apply app_nil_r.
Qed.

End PlanFacts.

(** X9.  What [deliverReplies] sends is fixed by the fields of the
    payloads alone, in every reply-to mode.  The media of a payload are
    the URLs of its [mediaUrls] field when that field is present, even
    empty, and otherwise its [mediaUrl] when that is not empty.  For each
    payload in order: nothing when it has neither text nor media, the
    chunks of its text when it has no media, and otherwise one message per
    media URL with the whole text as caption of the first.  When the call
    returns, exactly these messages have been sent, in this order; when it
    throws, a part of them has been sent that stops right before one of
    them, so that no message is skipped and nothing is sent after a failed
    send.  When every send resolves the call returns. *)
Theorem deliverReplies_follows_the_payloads
    (chunkText : string -> Z -> list string)
    (resolves : OutboundSend -> bool) (replies : list ReplyPayload)
    (target token : string) (mode : ReplyToMode) (textLimit : Z) :
  let call :=
    deliverReplies chunkText resolves replies target token mode textLimit in
  let plan :=
    flat_map (payloadShapes chunkText (Z.min textLimit 2000)) replies in
  (if isOk (fst (call []))
   then map sendShape (sendsOf call) = plan
   else exists next rest,
          plan = (map sendShape (sendsOf call) ++ next :: rest)%list)
  /\ ((forall s, resolves s = true) -> fst (call []) = Ok tt)
  /\ Forall (fun s => resolves s = true) (sendsOf call).
Proof.
  intros call plan.
  destruct (follows_deliverReplies chunkText resolves target token mode
              replies textLimit []) as (new & Hsnd & Hplan).
  fold call in Hsnd, Hplan. unfold sendsOf. rewrite Hsnd. cbn [app].
  split; [exact Hplan|]. split.
  - intros Hall. subst call.
    assert (H : hoare (fun _ => True)
                  (deliverReplies chunkText resolves replies target token
                     mode textLimit)
                  (fun _ _ => True) (fun _ => False)).
    { unfold deliverReplies.
      eapply hoare_bind with (Q := fun _ _ => True);
        [|intros a log _; exact I].
      apply (hoare_forEach _ (fun _ _ => True)).
      intros payload h _. unfold deliverPayload.
      assert (Hsend : forall s,
                hoare (fun _ => True) (sendMessageDiscord resolves s)
                  (fun _ _ => True) (fun _ => False)).
      { intros s log _. unfold sendMessageDiscord. rewrite Hall. exact I. }
      destruct (mediaListOf payload) as [|u urls].
      - destruct (Js.isEmpty _); [intros log _; exact I|].
        apply (hoare_forEach _ (fun _ _ => True)).
        intros chunk h' _. unfold sendChunk.
        eapply hoare_bind with (Q := fun _ _ => True);
          [apply Hsend | intros a log _; exact I].
      - eapply hoare_bind with (Q := fun _ _ => True);
          [|intros a log _; exact I].
        apply (hoare_forEach _ (fun _ _ => True)).
        intros url [first h'] _. unfold sendMedia.
        eapply hoare_bind with (Q := fun _ _ => True);
          [apply Hsend | intros a log _; exact I]. }
    specialize (H [] I).
    destruct (deliverReplies _ _ _ _ _ _ _ []) as [[[]|] log];
      [reflexivity | destruct H].
  - assert (H : forall R : OutboundSend -> Prop,
                (forall s, resolves s = true -> R s) ->
                hoare (Forall R)
                  (deliverReplies chunkText resolves replies target token
                     mode textLimit)
                  (fun _ => Forall R) (Forall R)).
    { intros R HR. unfold deliverReplies.
      assert (Hsend : forall s,
                hoare (Forall R) (sendMessageDiscord resolves s)
                  (fun _ => Forall R) (Forall R)).
      { intros s log Hlog. unfold sendMessageDiscord.
        destruct (resolves s) eqn:Hs; [|exact Hlog].
        apply Forall_app. split; [exact Hlog|].
        constructor; [apply HR, Hs | constructor]. }
      eapply hoare_bind with (Q := fun _ => Forall R);
        [|intros a log Hlog; exact Hlog].
      apply (hoare_forEach _ (fun _ => Forall R)).
      intros payload h _. unfold deliverPayload.
      destruct (mediaListOf payload) as [|u urls].
      - destruct (Js.isEmpty _); [intros log Hlog; exact Hlog|].
        apply (hoare_forEach _ (fun _ => Forall R)).
        intros chunk h' _. unfold sendChunk.
        eapply hoare_bind with (Q := fun _ => Forall R);
          [apply Hsend | intros a log Hlog; exact Hlog].
      - eapply hoare_bind with (Q := fun _ => Forall R);
          [|intros a log Hlog; exact Hlog].
        apply (hoare_forEach _ (fun _ => Forall R)).
        intros url [first h'] _. unfold sendMedia.
        eapply hoare_bind with (Q := fun _ => Forall R);
          [apply Hsend | intros a log Hlog; exact Hlog]. }
    specialize (H (fun s => resolves s = true) (fun s Hs => Hs) []
                  (List.Forall_nil _)).
    subst call.
    destruct (deliverReplies _ _ _ _ _ _ _ []) as [[u|] log];
      cbn [snd app] in Hsnd; subst log; exact H.
Qed.

Lemma deliverReplies_follows_witness :
  map sendShape
    (sendsOf (deliverReplies Fixture.chunkText Fixture.always
                [Scene.hiddenMediaUrl "cap"; Scene.twoOfThree]
                "channel:7000" "tok" ReplyAll 2000))
  = [("cap", None); ("two", Some "http://x/1.jpg");
     ("", Some "http://x/2.jpg")]
  /\ fst (deliverReplies Fixture.chunkText Fixture.always
            [Scene.hiddenMediaUrl "cap"; Scene.twoOfThree]
            "channel:7000" "tok" ReplyAll 2000 [])
     = Ok tt.
Proof.
  destruct (deliverReplies_follows_the_payloads Fixture.chunkText
              Fixture.always [Scene.hiddenMediaUrl "cap"; Scene.twoOfThree]
              "channel:7000" "tok" ReplyAll 2000)
    as (Hplan & Hreturns & _).
  specialize (Hreturns (fun s => eq_refl)).
  rewrite Hreturns in Hplan.
  split; [exact Hplan | exact Hreturns].
Defined.

(** ** What a turn sends, and where *)

Section TurnSends.

Variable chunkText : string -> Z -> list string.
Variable formatAgentEnvelope : Envelope -> string.
Variable cfg : Setup.

Local Abbreviation handler :=
  (messageCreate chunkText formatAgentEnvelope cfg).
Local Abbreviation turn := (runTurn chunkText formatAgentEnvelope cfg).

Lemma deliverReplies_from_log env replies target log :
  deliverReplies chunkText (sendResolves env) replies target (token cfg)
    (replyToMode cfg) (textLimit cfg) log
  = (fst (deliverReplies chunkText (sendResolves env) replies target
            (token cfg) (replyToMode cfg) (textLimit cfg) []),
     (log
      ++ sendsOf (deliverReplies chunkText (sendResolves env) replies target
                    (token cfg) (replyToMode cfg) (textLimit cfg)))%list).
Proof. apply framed_deliverReplies. Qed.

(** The log after the block replies: each block reply adds the sends of
    its own delivery call, whether that call returned or not. *)
Lemma blocks_sends env target blocks : forall did log,
  snd (fold_left (sendBlockReply chunkText cfg env target) blocks
         (did, log))
  = (log ++ flat_map (blockSendsOf chunkText cfg env target) blocks)%list.
Proof.
  induction blocks as [|payload blocks IH]; intros did log; simpl.
  - rewrite app_nil_r. reflexivity.
  - unfold blockSendsOf at 1.
    destruct (blockHasContent payload); simpl.
    + rewrite deliverReplies_from_log.
      destruct (fst (deliverReplies _ _ _ _ _ _ _ [])) as [u|];
        rewrite IH, <- app_assoc; reflexivity.
    + apply IH.
Qed.

Lemma turn_sends env recorded m author media txt :
  let ctx :=
    ctxPayloadOf formatAgentEnvelope cfg env m author recorded media txt in
  let gen := getReplyFromConfig env ctx in
  let out := turn env recorded m author media txt in
  out_generated out = None /\ out_sends out = []
  \/ out_generated out = Some ctx
     /\ out_sends out
        = (flat_map (blockSendsOf chunkText cfg env (To ctx))
             (gen_blocks gen)
           ++ match gen_result gen with
              | Ok replyResult =>
                  sendsOf (deliverReplies chunkText (sendResolves env)
                             (repliesOf replyResult) (To ctx) (token cfg)
                             (replyToMode cfg) (textLimit cfg))
              | Threw => []
              end)%list.
Proof.
  intros ctx gen out. subst out. unfold runTurn. fold ctx. fold gen.
  destruct (Js.isEmpty (To ctx)); [left; split; reflexivity|].
  destruct (isDirectMessage m && negb _); [left; split; reflexivity|].
  right.
  pose proof (blocks_sends env (To ctx) (gen_blocks gen) false []) as Hb.
  destruct (fold_left _ _ _) as [did blockSends]. cbn [snd app] in Hb.
  subst blockSends.
  destruct (gen_result gen) as [replyResult|];
    [|split; [reflexivity | cbn [out_sends]; rewrite app_nil_r; reflexivity]].
  destruct (repliesOf replyResult) as [|payload replies].
  - split; [reflexivity|]. cbn [out_sends].
    rewrite app_nil_r. reflexivity.
  - rewrite deliverReplies_from_log.
    destruct (fst (deliverReplies _ _ _ _ _ _ _ [])) as [u|];
      split; reflexivity.
Qed.

Lemma To_origin env m author st media txt :
  To (ctxPayloadOf formatAgentEnvelope cfg env m author st media txt)
  = originTarget m author.
Proof. reflexivity. Qed.

Lemma handler_is_turn_or_quiet env st m :
  let out := handler env st m in
  out_generated out = None /\ out_sends out = [] /\ out_lastRoute out = None
  \/ exists author media,
       msg_author m = Some author
       /\ user_bot author = false
       /\ screenBeforeHistory cfg m = None
       /\ screenAfterHistory cfg env m author = None
       /\ resolveDiscordSystemEvent m = None
       /\ resolveMedia env m (mediaMaxBytes cfg) = inr media
       /\ Js.truthy (turnText m media) = true
       /\ out
          = turn env (recordHistory cfg m author st) m author media
              (turnText m media).
Proof.
  cbv zeta. unfold messageCreate.
  destruct (msg_author m) as [author|]; [|left; auto].
  destruct (user_bot author) eqn:Hb; [left; auto|].
  destruct (screenBeforeHistory cfg m) eqn:Hs1; [left; auto|].
  destruct (screenAfterHistory cfg env m author) eqn:Hs2; [left; auto|].
  unfold afterScreening.
  destruct (resolveDiscordSystemEvent m) eqn:Hsys; [left; auto|].
  destruct (resolveMedia env m _) as [err|media] eqn:Hmedia; [left; auto|].
  destruct (Js.isEmpty _) eqn:Ht; [left; auto|].
  right. exists author, media.
  repeat (split; [reflexivity || assumption|]).
  split; [unfold Js.truthy; rewrite Ht; reflexivity | reflexivity].
Qed.

End TurnSends.

Lemma sendsOf_deliverReplies_origin chunkText resolves replies target token
    mode textLimit :
  Forall (fun s => send_target s = target /\ send_token s = token)
    (sendsOf (deliverReplies chunkText resolves replies target token mode
                textLimit)).
Proof. apply each_deliverReplies. intros. split; reflexivity. Qed.

(** X10.  Whatever the handler sends goes to the conversation the message
    came from, with the configured token: to [user:<author id>] for a
    direct message and to [channel:<channel id>] otherwise.  And it sends
    nothing unless the reply generator has been called for the message. *)
Theorem handler_sends_only_to_the_origin
    (chunkText : string -> Z -> list string)
    (formatAgentEnvelope : Envelope -> string)
    (cfg : Setup) (env : Env) (st : Histories) (m : Message) :
  let out := messageCreate chunkText formatAgentEnvelope cfg env st m in
  (out_generated out = None -> out_sends out = [])
  /\ forall s,
       In s (out_sends out) ->
       exists author,
         msg_author m = Some author
         /\ send_target s = originTarget m author
         /\ send_token s = token cfg.
Proof.
  intros out. subst out.
  destruct (handler_is_turn_or_quiet chunkText formatAgentEnvelope cfg env
              st m)
    as [(Hgen & Hsends & _)
       |(author & media & Ha & _ & _ & _ & _ & _ & _ & ->)].
  { split; [auto|]. rewrite Hsends. intros s []. }
  destruct (turn_sends chunkText formatAgentEnvelope cfg env
              (recordHistory cfg m author st) m author media
              (turnText m media)) as [[Hgen Hsends]|[Hgen Hsends]].
  { split; [auto|]. rewrite Hsends. intros s []. }
  split; [rewrite Hgen; discriminate|].
  intros s Hin. exists author. split; [exact Ha|].
  rewrite Hsends in Hin. rewrite To_origin in Hin.
  apply in_app_or in Hin as [Hin|Hin].
  - apply in_flat_map in Hin as (payload & _ & Hin).
    unfold blockSendsOf in Hin.
    destruct (blockHasContent payload); [|destruct Hin].
    pose proof (sendsOf_deliverReplies_origin chunkText (sendResolves env)
                  [payload] (originTarget m author) (token cfg)
                  (replyToMode cfg) (textLimit cfg)) as Hall.
    rewrite List.Forall_forall in Hall. exact (Hall s Hin).
  - destruct (gen_result _) as [replyResult|]; [|destruct Hin].
    pose proof (sendsOf_deliverReplies_origin chunkText (sendResolves env)
                  (repliesOf replyResult) (originTarget m author)
                  (token cfg) (replyToMode cfg) (textLimit cfg)) as Hall.
    rewrite List.Forall_forall in Hall. exact (Hall s Hin).
Qed.

Lemma handler_sends_origin_witness :
  out_sends
    (Fixture.handle (Fixture.setup None None) Fixture.failedDownloadWorld ∅
       (Fixture.guildMessage "m1" "look" true [Fixture.picture]))
  = [].
Proof.
  apply (handler_sends_only_to_the_origin Fixture.chunkText
           Fixture.formatAgentEnvelope (Fixture.setup None None)
           Fixture.failedDownloadWorld ∅
           (Fixture.guildMessage "m1" "look" true [Fixture.picture])).
  reflexivity.
Defined.

(** X11.  The sends of a turn are those of the block replies followed by
    those of the final replies.  Each block reply with content adds the
    sends of a delivery call of its own, in the order the generator handed
    the blocks over, whether or not the call of another block failed; a
    block without text and media adds nothing; and when the generator
    fails after handing over blocks, their sends stand and there are no
    others. *)
Theorem turn_sends_blocks_then_final
    (chunkText : string -> Z -> list string)
    (formatAgentEnvelope : Envelope -> string)
    (cfg : Setup) (env : Env) (st : Histories) (m : Message) :
  let out := messageCreate chunkText formatAgentEnvelope cfg env st m in
  forall ctx,
    out_generated out = Some ctx ->
    out_sends out
    = (flat_map (blockSendsOf chunkText cfg env (To ctx))
         (gen_blocks (getReplyFromConfig env ctx))
       ++ match gen_result (getReplyFromConfig env ctx) with
          | Ok replyResult =>
              sendsOf (deliverReplies chunkText (sendResolves env)
                         (repliesOf replyResult) (To ctx) (token cfg)
                         (replyToMode cfg) (textLimit cfg))
          | Threw => []
          end)%list.
Proof.
  intros out ctx. subst out.
  destruct (handler_is_turn_or_quiet chunkText formatAgentEnvelope cfg env
              st m)
    as [(Hgen & _ & _)|(author & media & _ & _ & _ & _ & _ & _ & _ & ->)].
  { rewrite Hgen. discriminate. }
  destruct (turn_sends chunkText formatAgentEnvelope cfg env
              (recordHistory cfg m author st) m author media
              (turnText m media)) as [[Hgen _]|[Hgen Hsends]].
  { rewrite Hgen. discriminate. }
  rewrite Hgen. intros [= <-]. exact Hsends.
Qed.

Lemma turn_sends_witness :
  map send_text (out_sends Fixture.failedFinalTurn) = ["partial"].
Proof.
  pose proof (turn_sends_blocks_then_final Fixture.chunkText
                Fixture.formatAgentEnvelope (Fixture.setup None None)
                (Fixture.world (Some "42") 200
                   (mkGeneration [Fixture.textReply "partial" None]
                      (Ok (OneReply (Fixture.textReply "final" None))))
                   (fun s => negb (String.eqb (send_text s) "final")))
                ∅ (Fixture.guildMessage "m1" "hi" true []) _ eq_refl) as H.
  unfold Fixture.failedFinalTurn, Fixture.handle. rewrite H.
  vm_compute. reflexivity.
Defined.

(** ** System messages, the last route and the chat-type switches *)

Section HandlerEdges.

Variable chunkText : string -> Z -> list string.
Variable formatAgentEnvelope : Envelope -> string.
Variable cfg : Setup.

Local Abbreviation handler :=
  (messageCreate chunkText formatAgentEnvelope cfg).
Local Abbreviation turn := (runTurn chunkText formatAgentEnvelope cfg).

Lemma turn_systemEvents env recorded m author media txt :
  out_systemEvents (turn env recorded m author media txt) = [].
Proof.
  unfold runTurn.
  destruct (Js.isEmpty _); [reflexivity|].
  destruct (isDirectMessage m && negb _); [reflexivity|].
  destruct (fold_left _ _ _) as [did blockSends].
  destruct (gen_result _) as [replyResult|]; [|reflexivity].
  destruct (repliesOf replyResult) as [|payload replies]; [reflexivity|].
  destruct (deliverReplies _ _ _ _ _ _ _ _) as [[u|] log]; reflexivity.
Qed.

Lemma turn_lastRoute env recorded m author media txt :
  let out := turn env recorded m author media txt in
  if isDirectMessage m
  then (out_generated out = None /\ out_lastRoute out = None)
       \/ (out_generated out <> None
           /\ out_lastRoute out
              = Some (mainKey cfg, "user:" ++ user_id author)
           /\ updateLastRoute env (mainKey cfg) ("user:" ++ user_id author)
              = true)
  else out_lastRoute out = None.
Proof.
  cbv zeta. unfold runTurn.
  destruct (isDirectMessage m) eqn:Hdm.
  - destruct (Js.isEmpty _); [left; auto|]. cbn [andb].
    destruct (updateLastRoute env _ _) eqn:Hroute; cbn [negb];
      [|left; auto].
    right.
    destruct (fold_left _ _ _) as [did blockSends].
    destruct (gen_result _) as [replyResult|];
      [|repeat split; discriminate].
    destruct (repliesOf replyResult) as [|payload replies];
      [repeat split; discriminate|].
    destruct (deliverReplies _ _ _ _ _ _ _ _) as [[u|] log];
      repeat split; discriminate.
  - destruct (Js.isEmpty _); [reflexivity|]. cbn [andb].
    destruct (fold_left _ _ _) as [did blockSends].
    destruct (gen_result _) as [replyResult|]; [|reflexivity].
    destruct (repliesOf replyResult) as [|payload replies]; [reflexivity|].
    destruct (deliverReplies _ _ _ _ _ _ _ _) as [[u|] log]; reflexivity.
Qed.

End HandlerEdges.

(** X12.  A message of one of the system types (pin, join, boost, thread
    creation and the others) is never answered: nothing is sent and the
    generator is not called.  The handler queues at most one system event,
    only for such a message, and then its text is the one built for the
    type and its key is [discord:system:<channel id>:<message id>]; a
    system message that passes the checks ends that way. *)
Theorem system_messages_are_queued_not_answered
    (chunkText : string -> Z -> list string)
    (formatAgentEnvelope : Envelope -> string)
    (cfg : Setup) (env : Env) (st : Histories) (m : Message) :
  let out := messageCreate chunkText formatAgentEnvelope cfg env st m in
  let key := "discord:system:" ++ msg_channelId m ++ ":" ++ msg_id m in
  (forall action,
      systemAction (msg_type m) = Some action ->
      out_sends out = [] /\ out_generated out = None
      /\ out_lastRoute out = None)
  /\ (out_systemEvents out = []
      \/ exists action,
           systemAction (msg_type m) = Some action
           /\ out_systemEvents out
              = [(buildDiscordSystemEvent m action, key)]
           /\ out_ending out = SystemEventQueued)
  /\ (forall action author,
        systemAction (msg_type m) = Some action ->
        msg_author m = Some author ->
        user_bot author = false ->
        screenBeforeHistory cfg m = None ->
        screenAfterHistory cfg env m author = None ->
        out_systemEvents out = [(buildDiscordSystemEvent m action, key)]).
Proof.
  intros out key. subst out key. split; [|split].
  - intros action Hact. unfold messageCreate, afterScreening.
    unfold resolveDiscordSystemEvent. rewrite Hact. simpl.
    repeat case_match; auto.
  - unfold messageCreate, afterScreening.
    destruct (msg_author m) as [author|]; [|left; reflexivity].
    destruct (user_bot author); [left; reflexivity|].
    destruct (screenBeforeHistory cfg m); [left; reflexivity|].
    destruct (screenAfterHistory cfg env m author); [left; reflexivity|].
    unfold resolveDiscordSystemEvent.
    destruct (systemAction (msg_type m)) as [action|]; simpl.
    + right. exists action. auto.
    + left. destruct (resolveMedia env m _); [reflexivity|].
      destruct (Js.isEmpty _); [reflexivity|].
      apply turn_systemEvents.
  - intros action author Hact Ha Hb Hs1 Hs2.
    unfold messageCreate, afterScreening. rewrite Ha, Hb, Hs1, Hs2.
    unfold resolveDiscordSystemEvent. rewrite Hact. reflexivity.
Qed.

Lemma system_messages_witness :
  out_sends
    (Fixture.handle (Fixture.setup None None) Fixture.silentWorld ∅
       (Scene.systemMessage MtUserJoin)) = []
  /\ out_generated
       (Fixture.handle (Fixture.setup None None) Fixture.silentWorld ∅
          (Scene.systemMessage MtUserJoin)) = None
  /\ out_lastRoute
       (Fixture.handle (Fixture.setup None None) Fixture.silentWorld ∅
          (Scene.systemMessage MtUserJoin)) = None.
Proof.
  apply (fun H =>
           proj1 (system_messages_are_queued_not_answered Fixture.chunkText
                    Fixture.formatAgentEnvelope (Fixture.setup None None)
                    Fixture.silentWorld ∅
                    (Scene.systemMessage MtUserJoin))
             "user joined" H).
  reflexivity.
Defined.

(** X13.  The last route is written for direct messages only, and exactly
    when the generator is called for one: it is then the pair of the main
    session key and [user:<author id>].  A message outside direct messages
    never writes it. *)
Theorem last_route_only_for_direct_turns
    (chunkText : string -> Z -> list string)
    (formatAgentEnvelope : Envelope -> string)
    (cfg : Setup) (env : Env) (st : Histories) (m : Message) :
  let out := messageCreate chunkText formatAgentEnvelope cfg env st m in
  (isDirectMessage m = false -> out_lastRoute out = None)
  /\ (out_generated out = None -> out_lastRoute out = None)
  /\ (isDirectMessage m = true ->
      out_generated out <> None ->
      exists author,
        msg_author m = Some author
        /\ out_lastRoute out
           = Some (mainKey cfg, "user:" ++ user_id author)).
Proof.
  intros out. subst out.
  destruct (handler_is_turn_or_quiet chunkText formatAgentEnvelope cfg env
              st m)
    as [(Hgen & _ & Hroute)
       |(author & media & Ha & _ & _ & _ & _ & _ & _ & ->)].
  { split; [auto|]. split; [auto|]. intros _ H. congruence. }
  pose proof (turn_lastRoute chunkText formatAgentEnvelope cfg env
                (recordHistory cfg m author st) m author media
                (turnText m media)) as H.
  cbv zeta in H. destruct (isDirectMessage m).
  - split; [discriminate|].
    destruct H as [[Hgen Hroute]|(Hgen & Hroute & _)].
    + split; [auto|]. intros _ Hne. congruence.
    + split; [intros Hnone; congruence|]. intros _ _. eauto.
  - split; [auto|]. split; [auto|]. discriminate.
Qed.

Lemma last_route_witness :
  out_lastRoute
    (Fixture.handle (Fixture.setup None None) Fixture.silentWorld ∅
       (Fixture.guildMessage "m1" "hi" true []))
  = None.
Proof.
  apply (proj1 (last_route_only_for_direct_turns Fixture.chunkText
                  Fixture.formatAgentEnvelope (Fixture.setup None None)
                  Fixture.silentWorld ∅
                  (Fixture.guildMessage "m1" "hi" true []))).
  reflexivity.
Defined.

Example direct_turn_writes_the_route :
  out_lastRoute
    (Fixture.handle (Fixture.setup None None)
       (Fixture.answeringWorld (Some "42")) ∅
       (Fixture.directMessage "d1" "hello"))
  = Some ("main", "user:1001").
Proof. vm_compute. reflexivity. Qed.

Section HandlerEndings.

Variable chunkText : string -> Z -> list string.
Variable formatAgentEnvelope : Envelope -> string.
Variable cfg : Setup.

Local Abbreviation handler :=
  (messageCreate chunkText formatAgentEnvelope cfg).
Local Abbreviation turn := (runTurn chunkText formatAgentEnvelope cfg).

Lemma turn_ending env recorded m author media txt why :
  out_ending (turn env recorded m author media txt) = Dropped why ->
  why = MissingReplyTarget.
Proof.
  unfold runTurn.
  destruct (Js.isEmpty _); [simpl; congruence|].
  destruct (isDirectMessage m && negb _); [discriminate|].
  destruct (fold_left _ _ _) as [did blockSends].
  destruct (gen_result _) as [replyResult|]; [|discriminate].
  destruct (repliesOf replyResult) as [|payload replies]; [discriminate|].
  destruct (deliverReplies _ _ _ _ _ _ _ _) as [[u|] log]; discriminate.
Qed.

Lemma screenAfterHistory_reasons env m author why :
  screenAfterHistory cfg env m author = Some why ->
  why = NoMention \/ why = GuildSenderNotAllowed
  \/ why = DmSenderNotAllowed.
Proof.
  unfold screenAfterHistory. repeat case_match; intros [= <-]; auto.
Qed.

(** A drop for a reason of the first group of checks comes from that
    group. *)
Lemma handler_dropped_early env st m why :
  out_ending (handler env st m) = Dropped why ->
  why = GroupDmDisabled \/ why = DmDisabled ->
  screenBeforeHistory cfg m = Some why.
Proof.
  unfold messageCreate, afterScreening.
  destruct (msg_author m) as [author|];
    [|simpl; intros [= <-] [?|?]; discriminate].
  destruct (user_bot author);
    [simpl; intros [= <-] [?|?]; discriminate|].
  destruct (screenBeforeHistory cfg m) as [why'|];
    [simpl; congruence|].
  destruct (screenAfterHistory cfg env m author) as [why'|] eqn:Hs2.
  { simpl. intros [= <-] Hw.
    apply screenAfterHistory_reasons in Hs2.
    destruct Hw as [->| ->], Hs2 as [?|[?|?]]; discriminate. }
  destruct (resolveDiscordSystemEvent m); [discriminate|].
  destruct (resolveMedia env m _); [discriminate|].
  destruct (Js.isEmpty _);
    [simpl; intros [= <-] [?|?]; discriminate|].
  intros H Hw. apply turn_ending in H. subst why.
  destruct Hw; discriminate.
Qed.

End HandlerEndings.

(** X14.  The two chat-type switches of the configuration.  Group DMs are
    off unless [dm.groupEnabled] is set to true, and direct messages are on
    unless [dm.enabled] is set to false.  A message of a switched-off kind
    leaves no trace: nothing is sent, the generator is not called, no
    system event is queued and the history map is unchanged.  The handler
    gives these two reasons for a drop under no other setting. *)
Theorem chat_type_switches
    (chunkText : string -> Z -> list string)
    (formatAgentEnvelope : Envelope -> string)
    (tok : string) (limit : Z) (key : string)
    (opts : MonitorDiscordOpts) (discord : DiscordConfig)
    (env : Env) (st : Histories) (m : Message) :
  let cfg := monitorSetup tok limit key opts discord in
  let out := messageCreate chunkText formatAgentEnvelope cfg env st m in
  let quiet :=
    out_sends out = [] /\ out_generated out = None
    /\ out_systemEvents out = [] /\ out_histories out = st in
  (isGroupDm m = true -> dc_dmGroupEnabled discord <> Some true -> quiet)
  /\ (isDirectMessage m = true -> dc_dmEnabled discord = Some false ->
      quiet)
  /\ (out_ending out = Dropped GroupDmDisabled ->
      isGroupDm m = true /\ dc_dmGroupEnabled discord <> Some true)
  /\ (out_ending out = Dropped DmDisabled ->
      isDirectMessage m = true /\ dc_dmEnabled discord = Some false).
Proof.
  intros cfg out quiet. subst quiet out.
  assert (Hquiet : forall why,
             screenBeforeHistory cfg m = Some why ->
             out_sends (messageCreate chunkText formatAgentEnvelope cfg env
                          st m) = []
             /\ out_generated (messageCreate chunkText formatAgentEnvelope
                                 cfg env st m) = None
             /\ out_systemEvents (messageCreate chunkText
                                    formatAgentEnvelope cfg env st m) = []
             /\ out_histories (messageCreate chunkText formatAgentEnvelope
                                 cfg env st m) = st).
  { intros why Hs. unfold messageCreate. rewrite Hs.
    destruct (msg_author m) as [author|]; [|auto].
    destruct (user_bot author); auto. }
  split; [|split; [|split]].
  - intros Hg Hoff. apply (Hquiet GroupDmDisabled).
    unfold screenBeforeHistory. rewrite Hg. subst cfg. simpl.
    destruct (dc_dmGroupEnabled discord) as [[|]|]; [congruence| |];
      reflexivity.
  - intros Hd Hoff. apply (Hquiet DmDisabled).
    unfold screenBeforeHistory. rewrite Hd.
    assert (isGroupDm m = false) as ->
        by (unfold isDirectMessage, isGroupDm in *;
            destruct (msg_channelType m); congruence).
    subst cfg. simpl. rewrite Hoff. reflexivity.
  - intros H. apply handler_dropped_early in H; [|auto].
    unfold screenBeforeHistory in H.
    destruct (isGroupDm m) eqn:Hg.
    + split; [reflexivity|]. subst cfg. simpl in H.
      destruct (dc_dmGroupEnabled discord) as [[|]|]; simpl in H;
        [|discriminate..].
      repeat case_match; discriminate.
    + simpl in H. repeat case_match; discriminate.
  - intros H. apply handler_dropped_early in H; [|auto].
    unfold screenBeforeHistory in H.
    destruct (isGroupDm m && negb (groupDmEnabled cfg)); [discriminate|].
    destruct (isDirectMessage m) eqn:Hd.
    + split; [reflexivity|]. subst cfg. simpl in H.
      destruct (dc_dmEnabled discord) as [[|]|]; simpl in H;
        [|reflexivity|]; repeat case_match; discriminate.
    + simpl in H. repeat case_match; discriminate.
Qed.

Lemma chat_type_switches_witness :
  out_sends
    (messageCreate Fixture.chunkText Fixture.formatAgentEnvelope
       (monitorSetup "token" 2000 "main" (mkOpts None None None)
          Fixture.noDiscordConfig)
       (Fixture.answeringWorld (Some "42")) ∅
       (Scene.groupDmMessage "hello")) = []
  /\ out_generated
       (messageCreate Fixture.chunkText Fixture.formatAgentEnvelope
          (monitorSetup "token" 2000 "main" (mkOpts None None None)
             Fixture.noDiscordConfig)
          (Fixture.answeringWorld (Some "42")) ∅
          (Scene.groupDmMessage "hello")) = None
  /\ out_systemEvents
       (messageCreate Fixture.chunkText Fixture.formatAgentEnvelope
          (monitorSetup "token" 2000 "main" (mkOpts None None None)
             Fixture.noDiscordConfig)
          (Fixture.answeringWorld (Some "42")) ∅
          (Scene.groupDmMessage "hello")) = []
  /\ out_histories
       (messageCreate Fixture.chunkText Fixture.formatAgentEnvelope
          (monitorSetup "token" 2000 "main" (mkOpts None None None)
             Fixture.noDiscordConfig)
          (Fixture.answeringWorld (Some "42")) ∅
          (Scene.groupDmMessage "hello")) = ∅.
Proof.
  apply (proj1 (chat_type_switches Fixture.chunkText
                  Fixture.formatAgentEnvelope "token" 2000 "main"
                  (mkOpts None None None) Fixture.noDiscordConfig
                  (Fixture.answeringWorld (Some "42")) ∅
                  (Scene.groupDmMessage "hello"))).
  - reflexivity.
  - discriminate.
Defined.

(** X15.  A message whose content is a string that is empty after
    trimming is never answered, whatever it carries besides: the text of
    the turn takes the trimmed content as it is, so the placeholder of an
    attachment, the description of an embed and the forwarded-message
    marker are not used.  Nothing is sent, the generator is not called and
    the handler does not end in a delivery. *)
Theorem blank_content_is_never_answered
    (chunkText : string -> Z -> list string)
    (formatAgentEnvelope : Envelope -> string)
    (cfg : Setup) (env : Env) (st : Histories) (m : Message)
    (content : string) :
  msg_content m = Some content ->
  Js.trim content = "" ->
  let out := messageCreate chunkText formatAgentEnvelope cfg env st m in
  out_sends out = [] /\ out_generated out = None
  /\ out_lastRoute out = None
  /\ out_ending out <> FinalDelivered
  /\ out_ending out <> NoFinalReplies
  /\ (forall author media,
        msg_author m = Some author ->
        user_bot author = false ->
        screenBeforeHistory cfg m = None ->
        screenAfterHistory cfg env m author = None ->
        resolveDiscordSystemEvent m = None ->
        resolveMedia env m (mediaMaxBytes cfg) = inr media ->
        out_ending out = Dropped EmptyContent).
Proof.
  intros Hc Ht out. subst out.
  assert (Htext : forall media, turnText m media = "").
  { intros media. unfold turnText. rewrite Hc. simpl. exact Ht. }
  unfold messageCreate, afterScreening.
  destruct (msg_author m) as [author|] eqn:Ha;
    [|repeat split; try discriminate; auto; intros; congruence].
  destruct (user_bot author) eqn:Hb;
    [repeat split; try discriminate; auto; intros; congruence|].
  destruct (screenBeforeHistory cfg m) eqn:Hs1;
    [repeat split; try discriminate; auto; intros; congruence|].
  destruct (screenAfterHistory cfg env m author) eqn:Hs2;
    [repeat split; try discriminate; auto; intros; congruence|].
  destruct (resolveDiscordSystemEvent m) eqn:Hsys;
    [repeat split; try discriminate; auto; intros; congruence|].
  destruct (resolveMedia env m _) as [err|media] eqn:Hmedia;
    [repeat split; try discriminate; auto; intros; congruence|].
  rewrite Htext. simpl.
  repeat split; try discriminate; auto.
Qed.

Lemma blank_content_witness :
  out_sends
    (Fixture.handle (Fixture.setup None None)
       (Fixture.answeringWorld (Some "42")) ∅
       (Fixture.guildMessage "m1" "  " true [Fixture.picture])) = []
  /\ out_generated
       (Fixture.handle (Fixture.setup None None)
          (Fixture.answeringWorld (Some "42")) ∅
          (Fixture.guildMessage "m1" "  " true [Fixture.picture])) = None.
Proof.
  destruct (blank_content_is_never_answered Fixture.chunkText
              Fixture.formatAgentEnvelope (Fixture.setup None None)
              (Fixture.answeringWorld (Some "42")) ∅
              (Fixture.guildMessage "m1" "  " true [Fixture.picture])
              "  " eq_refl eq_refl) as (H1 & H2 & _).
  split; [exact H1 | exact H2].
Defined.

(** ** Channels are independent *)

Section ChannelIndependence.

Variable chunkText : string -> Z -> list string.
Variable formatAgentEnvelope : Envelope -> string.
Variable cfg : Setup.

Local Abbreviation handler :=
  (messageCreate chunkText formatAgentEnvelope cfg).
Local Abbreviation turn := (runTurn chunkText formatAgentEnvelope cfg).

Lemma recordHistory_other m author st key :
  key <> msg_channelId m ->
  recordHistory cfg m author st !! key = st !! key.
Proof.
  intros Hne. unfold recordHistory.
  destruct (recordsHistory cfg m); [|reflexivity].
  cbv zeta. rewrite lookup_insert_ne by congruence. reflexivity.
Qed.

Lemma recordHistory_same m author st1 st2 :
  st1 !! msg_channelId m = st2 !! msg_channelId m ->
  recordHistory cfg m author st1 !! msg_channelId m
  = recordHistory cfg m author st2 !! msg_channelId m.
Proof.
  intros H. unfold recordHistory.
  destruct (recordsHistory cfg m); [|exact H].
  cbv zeta. rewrite !lookup_insert_eq, H. reflexivity.
Qed.

Lemma clearAfterReply_same m did st1 st2 :
  st1 !! msg_channelId m = st2 !! msg_channelId m ->
  clearAfterReply cfg m did st1 !! msg_channelId m
  = clearAfterReply cfg m did st2 !! msg_channelId m.
Proof.
  intros H. unfold clearAfterReply. cbv zeta.
  destruct (_ && _ && _ && _); [|exact H].
  rewrite !lookup_insert_eq. reflexivity.
Qed.

(** The context handed to the generator reads one channel of the map. *)
Lemma ctxPayloadOf_same env m author st1 st2 media txt :
  st1 !! msg_channelId m = st2 !! msg_channelId m ->
  ctxPayloadOf formatAgentEnvelope cfg env m author st1 media txt
  = ctxPayloadOf formatAgentEnvelope cfg env m author st2 media txt.
Proof.
  intros H. unfold ctxPayloadOf, combinedBodyOf, withHistory,
    historyWithoutCurrent.
  rewrite H. reflexivity.
Qed.

Lemma turn_same env st1 st2 m author media txt :
  st1 !! msg_channelId m = st2 !! msg_channelId m ->
  out_histories (turn env st1 m author media txt) !! msg_channelId m
  = out_histories (turn env st2 m author media txt) !! msg_channelId m.
Proof.
  intros H. unfold runTurn.
  rewrite (ctxPayloadOf_same env m author st1 st2 media txt H).
  cbv zeta.
  destruct (Js.isEmpty _); [exact H|].
  destruct (isDirectMessage m && negb _); [exact H|].
  destruct (fold_left _ _ _) as [did blockSends].
  destruct (gen_result _) as [replyResult|]; [|exact H].
  destruct (repliesOf replyResult) as [|payload replies];
    [apply clearAfterReply_same, H|].
  destruct (deliverReplies _ _ _ _ _ _ _ _) as [[u|] log];
    [apply clearAfterReply_same, H | exact H].
Qed.

(** The handler reads and writes the history of the message's channel
    only. *)
Lemma handler_same env st1 st2 m :
  st1 !! msg_channelId m = st2 !! msg_channelId m ->
  out_histories (handler env st1 m) !! msg_channelId m
  = out_histories (handler env st2 m) !! msg_channelId m.
Proof.
  intros H. unfold messageCreate, afterScreening.
  destruct (msg_author m) as [author|]; [|exact H].
  destruct (user_bot author); [exact H|].
  destruct (screenBeforeHistory cfg m); [exact H|].
  pose proof (recordHistory_same m author st1 st2 H) as Hrec.
  destruct (screenAfterHistory cfg env m author); [exact Hrec|].
  destruct (resolveDiscordSystemEvent m); [exact Hrec|].
  destruct (resolveMedia env m _) as [err|media]; [exact Hrec|].
  destruct (Js.isEmpty _); [exact Hrec|].
  apply turn_same, Hrec.
Qed.

Lemma handler_other env st m key :
  key <> msg_channelId m ->
  out_histories (handler env st m) !! key = st !! key.
Proof.
  intros Hne.
  destruct (handler_histories chunkText formatAgentEnvelope cfg env st m)
    as [->|(author & _ & [->|(-> & _)])].
  - reflexivity.
  - apply recordHistory_other, Hne.
  - rewrite lookup_insert_ne by congruence.
    apply recordHistory_other, Hne.
Qed.

Lemma fold_channel key events :
  forall st1 st2,
    st1 !! key = st2 !! key ->
    fold_left (stepHistories chunkText formatAgentEnvelope cfg) events st1
    !! key
    = fold_left (stepHistories chunkText formatAgentEnvelope cfg)
        (onChannel key events) st2 !! key.
Proof.
  induction events as [|[env m] events IH]; intros st1 st2 H; simpl;
    [exact H|].
  destruct (bool_decide (msg_channelId m = key)) eqn:Hk.
  - apply bool_decide_eq_true in Hk. simpl. apply IH.
    unfold stepHistories. simpl. subst key. apply handler_same, H.
  - apply bool_decide_eq_false in Hk. apply IH.
    unfold stepHistories. simpl. rewrite handler_other by congruence.
    exact H.
Qed.

End ChannelIndependence.

(** X16.  Channels do not interfere.  After any sequence of events, the
    stored history of a channel is what it would be had the monitor seen
    the messages of that channel alone, each with the same answers from
    the outside world: a message never reads or writes the history of
    another channel. *)
Theorem channel_histories_are_independent
    (chunkText : string -> Z -> list string)
    (formatAgentEnvelope : Envelope -> string)
    (cfg : Setup) (events : list (Env * Message)) (key : string) :
  runEvents chunkText formatAgentEnvelope cfg events !! key
  = runEvents chunkText formatAgentEnvelope cfg (onChannel key events)
    !! key.
Proof.
  unfold runEvents.
  apply (fold_channel chunkText formatAgentEnvelope cfg key events ∅ ∅).
  reflexivity.
Qed.

(** ** Reaction events *)

Lemma resolveDiscordGuildEntry_unconfigured guild entries :
  hasEntries entries = false -> resolveDiscordGuildEntry guild entries = None.
Proof.
  unfold hasEntries, resolveDiscordGuildEntry.
  destruct guild, entries as [[|e l]|]; intros H;
    try reflexivity; discriminate.
Qed.

(** X17.  A reaction is reported only when all of this holds: the reacting
    user is known and no bot, reaction and message could be resolved, the
    message is in a guild, [resolveDiscordGuildEntry] resolves the guild
    when guilds are configured (by a key, an entry's slug or the wildcard;
    the key may be a property name every object inherits, so that a guild
    named [constructor] resolves without being configured), the user is
    not the bot itself, and the notification mode of the guild is not
    [off]; under the mode [own] the message was written by the bot.  The
    context key of the event names the action, the message, the user and
    the emoji. *)
Theorem reaction_report_is_sound
    (cfg : Setup) (botId : option string) (reaction : Reaction)
    (user : option ReactionUser) (action : ReactionAction)
    (text key : string) :
  handleReactionEvent cfg botId reaction user action
  = ReactionQueued text key ->
  exists u data message guild,
    user = Some u /\ ru_bot u = false
    /\ resolvedReactionOf reaction = Ok data
    /\ resolvedMessageOf data = Ok message
    /\ rm_guild message = Some guild
    /\ (hasEntries (guildEntries cfg) = true ->
        is_Some (resolveDiscordGuildEntry (Some guild) (guildEntries cfg)))
    /\ (Js.truthyOpt botId = true -> botId <> Some (ru_id u))
    /\ reactionModeFor cfg guild <> ReactOff
    /\ (reactionModeFor cfg guild = ReactOwn ->
        Js.truthyOpt botId = true
        /\ ru_id <$> rm_author message = botId)
    /\ key
       = "discord:reaction:" ++ actionName action ++ ":" ++ rm_id message
         ++ ":" ++ ru_id u ++ ":"
         ++ formatDiscordReactionEmoji (rd_emoji data).
Proof.
  unfold handleReactionEvent. intros H.
  destruct user as [u|]; [|discriminate].
  destruct (ru_bot u) eqn:Hbot; [discriminate|].
  fold (resolvedReactionOf reaction) in H.
  destruct (resolvedReactionOf reaction) as [data|] eqn:Hdata;
    [|discriminate].
  cbv zeta in H. fold (resolvedMessageOf data) in H.
  destruct (resolvedMessageOf data) as [message|] eqn:Hmessage;
    [|discriminate].
  unfold notifyReaction in H.
  destruct (rm_guild message) as [guild|] eqn:Hguild; [|discriminate].
  cbv zeta in H.
  destruct (hasEntries _ && negb _) eqn:Hlisted; [discriminate|].
  destruct (bool_decide (cc_allowed <$> _ = Some false)); [discriminate|].
  destruct (Js.truthyOpt botId && bool_decide (Some (ru_id u) = botId))
    eqn:Hself; [discriminate|].
  fold (reactionModeFor cfg guild) in H.
  destruct (shouldEmitDiscordReactionNotification _ _ _ _ _ _ _) eqn:Hemit;
    [|discriminate].
  cbn [negb] in H. injection H as Htext Hkey.
  exists u, data, message, guild.
  repeat (split; [reflexivity || assumption|]).
  split.
  { intros Hcfg. rewrite Hcfg in Hlisted. cbn [andb] in Hlisted.
    apply negb_false_iff, bool_decide_eq_true in Hlisted. exact Hlisted. }
  split.
  { intros Hknown Heq. rewrite Hknown in Hself. cbn [andb] in Hself.
    apply bool_decide_eq_false in Hself. congruence. }
  unfold shouldEmitDiscordReactionNotification in Hemit.
  cbn [Js.nullish] in Hemit.
  split; [intros Hoff; rewrite Hoff in Hemit; discriminate|].
  split; [|symmetry; exact Hkey].
  intros Hown. rewrite Hown in Hemit.
  destruct (Js.truthyOpt botId); [|discriminate].
  destruct (Js.truthyOpt (ru_id <$> rm_author message)); [|discriminate].
  cbn [negb orb] in Hemit. apply bool_decide_eq_true in Hemit. auto.
Qed.

Lemma reaction_report_witness :
  exists u data message guild,
    Some ReactionScene.bob = Some u /\ ru_bot u = false
    /\ resolvedReactionOf
         (ReactionScene.reactionOn ReactionScene.botMessage) = Ok data
    /\ resolvedMessageOf data = Ok message
    /\ rm_guild message = Some guild
    /\ (hasEntries (guildEntries (Fixture.setup None None)) = true ->
        is_Some (resolveDiscordGuildEntry (Some guild)
                   (guildEntries (Fixture.setup None None))))
    /\ (Js.truthyOpt (Some "42") = true -> Some "42" <> Some (ru_id u))
    /\ reactionModeFor (Fixture.setup None None) guild <> ReactOff
    /\ (reactionModeFor (Fixture.setup None None) guild = ReactOwn ->
        Js.truthyOpt (Some "42") = true
        /\ ru_id <$> rm_author message = Some "42")
    /\ "discord:reaction:added:m9:2002:+1"
       = "discord:reaction:" ++ actionName ReactionAdded ++ ":"
         ++ rm_id message ++ ":" ++ ru_id u ++ ":"
         ++ formatDiscordReactionEmoji (rd_emoji data).
Proof.
  apply (reaction_report_is_sound (Fixture.setup None None) (Some "42")
           (ReactionScene.reactionOn ReactionScene.botMessage)
           (Some ReactionScene.bob) ReactionAdded
           "Discord reaction added: +1 by bob#0002 on test-guild #general msg m9 from clawd#0001"
           "discord:reaction:added:m9:2002:+1").
  vm_compute. reflexivity.
Defined.

(** Once reaction and message are resolved: without configured guilds
    the notification mode is [own]. *)
Lemma notifyReaction_without_guild_config
    (cfg : Setup) (botId : option string) (data : ReactionData)
    (message : ReactedMessage) (u : ReactionUser)
    (action : ReactionAction) :
  hasEntries (guildEntries cfg) = false ->
  isQueued (notifyReaction cfg botId data message u action) = true
  <-> (is_Some (rm_guild message)
       /\ Js.truthyOpt botId = true
       /\ ru_id <$> rm_author message = botId
       /\ botId <> Some (ru_id u)).
Proof.
  intros Hcfg. unfold notifyReaction.
  destruct (rm_guild message) as [guild|].
  2:{ split; [discriminate|]. intros [[g Hg] _]. discriminate. }
  cbv zeta. rewrite Hcfg. cbn [andb].
  rewrite (resolveDiscordGuildEntry_unconfigured (Some guild) _ Hcfg).
  cbn [resolveDiscordChannelConfig fmap option_fmap option_map
         cc_allowed mbind option_bind Js.nullish].
  rewrite bool_decide_eq_false_2 by discriminate.
  unfold shouldEmitDiscordReactionNotification. cbn [Js.nullish].
  destruct (Js.truthyOpt botId) eqn:Hknown.
  2:{ cbn [andb negb orb]. split; [discriminate|].
      intros (_ & H & _). discriminate. }
  cbn [andb negb orb].
  destruct (bool_decide (Some (ru_id u) = botId)) eqn:Hself.
  { apply bool_decide_eq_true in Hself.
    split; [discriminate|]. intros (_ & _ & _ & H). congruence. }
  apply bool_decide_eq_false in Hself.
  destruct (Js.truthyOpt (ru_id <$> rm_author message)) eqn:Hauthor.
  - cbn [negb].
    destruct (bool_decide (ru_id <$> rm_author message = botId)) eqn:Hown.
    + apply bool_decide_eq_true in Hown. cbn [negb isQueued].
      split; [|reflexivity]. intros _.
      repeat split; eauto.
    + apply bool_decide_eq_false in Hown. cbn [negb isQueued].
      split; [discriminate|]. intros (_ & _ & H & _). contradiction.
  - cbn [negb isQueued]. split; [discriminate|].
    intros (_ & _ & H & _). rewrite H, Hknown in Hauthor. discriminate.
Qed.

(** X18.  Without configured guilds the notification mode is [own]: the
    reaction handler reports a reaction exactly when the reacting user is
    known and is no bot, the reaction and its message could be resolved,
    the message is in a guild, the bot's id is known, the message was
    written by the bot and the reacting user is not the bot. *)
Theorem reactions_without_guild_config
    (cfg : Setup) (botId : option string) (reaction : Reaction)
    (user : option ReactionUser) (action : ReactionAction) :
  hasEntries (guildEntries cfg) = false ->
  isQueued (handleReactionEvent cfg botId reaction user action) = true
  <-> exists u data message,
        user = Some u /\ ru_bot u = false
        /\ resolvedReactionOf reaction = Ok data
        /\ resolvedMessageOf data = Ok message
        /\ is_Some (rm_guild message)
        /\ Js.truthyOpt botId = true
        /\ ru_id <$> rm_author message = botId
        /\ botId <> Some (ru_id u).
Proof.
  intros Hcfg. unfold handleReactionEvent.
  destruct user as [u|].
  2:{ split; [discriminate|]. intros (u & ? & ? & H & _). discriminate. }
  destruct (ru_bot u) eqn:Hbot.
  { split; [discriminate|].
    intros (u' & ? & ? & [= <-] & H & _). congruence. }
  fold (resolvedReactionOf reaction).
  destruct (resolvedReactionOf reaction) as [data|] eqn:Hdata.
  2:{ split; [discriminate|].
      intros (? & ? & ? & _ & _ & H & _). discriminate. }
  cbv zeta. fold (resolvedMessageOf data).
  destruct (resolvedMessageOf data) as [message|] eqn:Hmessage.
  2:{ split; [discriminate|].
      intros (? & data' & ? & _ & _ & [= <-] & H & _). congruence. }
  rewrite (notifyReaction_without_guild_config cfg botId data message u
             action Hcfg).
  split.
  - intros H. exists u, data, message. auto.
  - intros (u' & data' & message' & [= <-] & _ & [= <-] & Hm & H).
    rewrite Hmessage in Hm. injection Hm as <-. exact H.
Qed.

Lemma reactions_without_guild_config_witness :
  isQueued
    (handleReactionEvent (Fixture.setup None None) (Some "42")
       (ReactionScene.reactionOn ReactionScene.botMessage)
       (Some ReactionScene.bob) ReactionRemoved)
  = true.
Proof.
  apply (reactions_without_guild_config (Fixture.setup None None)
           (Some "42") (ReactionScene.reactionOn ReactionScene.botMessage)
           (Some ReactionScene.bob) ReactionRemoved eq_refl).
  exists ReactionScene.bob,
    (rx_now (ReactionScene.reactionOn ReactionScene.botMessage)),
    ReactionScene.botMessage.
  repeat split.
  - exists Fixture.guild. reflexivity.
  - discriminate.
Defined.

(** A reaction by another bot on a message of the bot is not reported. *)
Example reaction_by_a_bot_is_not_reported :
  handleReactionEvent (Fixture.setup None None) (Some "42")
    (ReactionScene.reactionOn ReactionScene.botMessage)
    (Some (mkReactionUser "77" true (Some "other") (Some "other#0007")))
    ReactionAdded
  = ReactionIgnored.
Proof. reflexivity. Qed.

(** With guilds configured, a guild named [Constructor] that no entry
    lists resolves through the inherited property, with the mode [own]. *)
Example reaction_in_a_guild_named_constructor :
  isQueued
    (handleReactionEvent (Fixture.setupWith Fixture.listedUsers) (Some "42")
       (ReactionScene.reactionOn
          (mkReactedMessage "m9" "7000" (Some (Some "general"))
             (Some (mkGuild "6000" "Constructor"))
             (Some ReactionScene.botUser)))
       (Some ReactionScene.bob) ReactionAdded)
  = true.
Proof. vm_compute. reflexivity. Qed.

(** ** The slash command *)

Lemma trimStart_head s : headIs Js.isWhiteSpace (Js.trimStart s) = false.
Proof.
  induction s as [|c r IH]; [reflexivity|]. simpl.
  destruct (Js.isWhiteSpace c) eqn:Hc; [exact IH|]. simpl. exact Hc.
Qed.

Lemma trimEnd_head s :
  headIs Js.isWhiteSpace s = false ->
  headIs Js.isWhiteSpace (Js.trimEnd s) = false.
Proof.
  destruct s as [|c r]; [reflexivity|]. simpl. intros Hc. rewrite Hc.
  simpl. exact Hc.
Qed.

Lemma trimEnd_last s : lastIs Js.isWhiteSpace (Js.trimEnd s) = false.
Proof.
  induction s as [|c r IH]; [reflexivity|]. cbn [Js.trimEnd].
  destruct (Js.trimEnd r) as [|d t] eqn:Hr.
  - simpl. destruct (Js.isWhiteSpace c) eqn:Hc; simpl; [reflexivity|].
    exact Hc.
  - rewrite andb_false_r. exact IH.
Qed.

Lemma trim_trim s : Js.trim (Js.trim s) = Js.trim s.
Proof.
  apply trim_fixed; unfold Js.trim.
  - apply trimEnd_head, trimStart_head.
  - apply trimEnd_last.
Qed.

Lemma orStrOpt_some (s d : string) : s <> "" -> orStrOpt (Some s) d = s.
Proof. destruct s; [contradiction|reflexivity]. Qed.

Lemma orStrOpt_trimmed (o : option string) (d : string) :
  d <> "" -> Js.trim d = d ->
  orStrOpt (Js.trim <$> o) d <> ""
  /\ Js.trim (orStrOpt (Js.trim <$> o) d) = orStrOpt (Js.trim <$> o) d.
Proof.
  intros Hd Ht. unfold orStrOpt. destruct o as [s|]; simpl; [|auto].
  destruct (Js.trim s) as [|c r] eqn:Hs; simpl; [auto|].
  split; [discriminate|]. rewrite <- Hs. apply trim_trim.
Qed.

(** X21.  The resolved slash command always has a name and a session
    prefix that are not empty and carry no surrounding white space; the
    command is on only when a configuration is given and does not switch
    it off; replies are ephemeral unless that is switched off.  Stating
    every field of a resolved configuration resolves to the same. *)
Theorem resolveSlashCommandConfig_is_complete
    (raw : option DiscordSlashCommandConfig) :
  let c := resolveSlashCommandConfig raw in
  slash_name c <> "" /\ Js.trim (slash_name c) = slash_name c
  /\ slash_sessionPrefix c <> ""
  /\ Js.trim (slash_sessionPrefix c) = slash_sessionPrefix c
  /\ (slash_enabled c = true
      <-> exists r, raw = Some r /\ raw_enabled r <> Some false)
  /\ (slash_ephemeral c = false
      <-> exists r, raw = Some r /\ raw_ephemeral r = Some false)
  /\ resolveSlashCommandConfig (Some (explicitSlash c)) = c.
Proof.
  cbv zeta.
  destruct (orStrOpt_trimmed (raw ≫= raw_name) "clawd")
    as [Hn1 Hn2]; [discriminate|reflexivity|].
  destruct (orStrOpt_trimmed (raw ≫= raw_sessionPrefix) "discord:slash")
    as [Hp1 Hp2]; [discriminate|reflexivity|].
  split; [exact Hn1|]. split; [exact Hn2|].
  split; [exact Hp1|]. split; [exact Hp2|].
  split; [|split].
  - destruct raw as [r|]; simpl.
    + rewrite negb_true_iff, bool_decide_eq_false. split.
      * intros H. exists r. auto.
      * intros (r' & [= <-] & H). exact H.
    + split; [discriminate|]. intros (r & H & _). discriminate.
  - unfold resolveSlashCommandConfig. cbn [slash_ephemeral].
    rewrite negb_false_iff, bool_decide_eq_true.
    destruct raw as [r|]; simpl.
    + split; [intros H; exists r; auto|]. intros (r' & [= <-] & H).
      exact H.
    + split; [discriminate|]. intros (r & H & _). discriminate.
  - unfold resolveSlashCommandConfig at 1. unfold explicitSlash.
    cbn [mbind option_bind raw_name raw_sessionPrefix raw_ephemeral
           raw_enabled fmap option_fmap option_map].
    set (c := resolveSlashCommandConfig raw).
    assert (Hname : orStrOpt (Some (Js.trim (slash_name c))) "clawd"
                    = slash_name c).
    { subst c. cbn [slash_name resolveSlashCommandConfig].
      rewrite Hn2. apply orStrOpt_some, Hn1. }
    assert (Hprefix :
             orStrOpt (Some (Js.trim (slash_sessionPrefix c)))
               "discord:slash" = slash_sessionPrefix c).
    { subst c. cbn [slash_sessionPrefix resolveSlashCommandConfig].
      rewrite Hp2. apply orStrOpt_some, Hp1. }
    rewrite Hname, Hprefix.
    destruct c as [en nm pf ep]. cbn [slash_enabled slash_name
      slash_sessionPrefix slash_ephemeral].
    f_equal; [destruct en | destruct ep]; reflexivity.
Qed.

Lemma option_tree_ind (P : CommandInteractionOption -> Prop) :
  (forall value options,
      Forall P (Js.nullish options []) -> P (mkOption value options)) ->
  forall o, P o.
Proof.
  intros H. fix IH 1. intros [value options]. apply H.
  destruct options as [l|]; [|constructor]. simpl.
  induction l as [|x l IHl]; constructor; [apply IH | exact IHl].
Qed.

Lemma head_app_first {A} (a b : list A) :
  head (a ++ b)
  = match head a with Some x => Some x | None => head b end.
Proof. destruct a; reflexivity. Qed.

Lemma nonBlank_app a b : nonBlank (a ++ b) = (nonBlank a ++ nonBlank b)%list.
Proof. unfold nonBlank. rewrite map_app, List.filter_app. reflexivity. Qed.

Lemma firstSome_flat {A} (f : A -> option string) (g : A -> list string)
    (l : list A) :
  Forall (fun x => f x = head (nonBlank (g x))) l ->
  firstSome f l = head (nonBlank (flat_map g l)).
Proof.
  induction 1 as [|x l Hx Hl IH]; [reflexivity|].
  simpl. rewrite nonBlank_app, head_app_first, <- Hx, IH. reflexivity.
Qed.

Lemma findInOption_first opt :
  findInOption opt = head (nonBlank (stringsOfOption opt)).
Proof.
  induction opt as [value options IH] using option_tree_ind.
  cbn [findInOption stringsOfOption].
  rewrite nonBlank_app, head_app_first.
  assert (Hown : ownString value
                 = head (nonBlank
                           match value with
                           | Some (ValString s) => [s]
                           | _ => []
                           end)).
  { destruct value as [[s|n|b]|]; try reflexivity.
    unfold ownString, nonBlank. simpl.
    destruct (Js.truthy (Js.trim s)); reflexivity. }
  rewrite <- Hown. destruct (ownString value); [reflexivity|].
  destruct options as [[|x l]|]; try reflexivity.
  apply firstSome_flat. exact IH.
Qed.

(** X20.  The prompt of a slash command is the first string value of the
    option tree, read depth first with an option's own value before the
    options below it, that is not blank, and it is trimmed; there is no
    prompt exactly when every string value is blank. *)
Theorem findFirstStringOption_is_first_nonblank
    (options : list CommandInteractionOption) :
  resolveSlashPrompt options = head (nonBlank (stringsOf options))
  /\ (resolveSlashPrompt options = None
      <-> Forall (fun s => Js.trim s = "") (stringsOf options))
  /\ (forall prompt,
        resolveSlashPrompt options = Some prompt ->
        prompt <> "" /\ Js.trim prompt = prompt).
Proof.
  assert (Hfirst : resolveSlashPrompt options
                   = head (nonBlank (stringsOf options))).
  { unfold resolveSlashPrompt, findFirstStringOption, stringsOf.
    apply firstSome_flat. apply Forall_forall. intros opt _.
    apply findInOption_first. }
  split; [exact Hfirst|]. rewrite Hfirst. clear Hfirst.
  generalize (stringsOf options) as values. intros values. split.
  - unfold nonBlank. induction values as [|s values IH]; simpl.
    + split; [constructor | reflexivity].
    + destruct (Js.trim s) as [|c r] eqn:Hs; simpl.
      * rewrite IH. split; [intros H; constructor; auto|].
        intros H. inversion H; assumption.
      * split; [discriminate|]. intros H. inversion H; congruence.
  - intros prompt. unfold nonBlank.
    induction values as [|s values IH]; simpl; [discriminate|].
    destruct (Js.trim s) as [|c r] eqn:Hs; simpl; [exact IH|].
    intros [= <-]. split; [discriminate|]. rewrite <- Hs. apply trim_trim.
Qed.

(** X19.  The slash command applies the access checks of the message
    handler.  For a command and a message of the same user in the same
    place, where the message is no command message and, in a guild,
    mentions the bot, the command is refused exactly when the message is
    dropped, and for the same reason. *)
Theorem slash_screen_is_the_message_screen
    (cfg : Setup) (env : Env) (interaction : Interaction) (m : Message) :
  sameOrigin interaction m ->
  (isGuildMessage m = true -> msg_channelType m = ChOtherChannel) ->
  isCommandType (msg_type m) = false ->
  (isGuildMessage m = true -> wasMentioned env m = true) ->
  slashScreen cfg interaction
  = messageScreen cfg env m (ix_user interaction).
Proof.
  intros (Hauthor & HinGuild & Hguild & Hchannel & Hid) Hexcl Hcmd Hmention.
  unfold slashScreen, messageScreen, screenBeforeHistory,
    screenAfterHistory, slashChannelSlug, slashChannelName.
  rewrite Hchannel, HinGuild, Hguild, Hid, Hcmd.
  cbn [fmap option_fmap option_map mbind option_bind sc_type sc_name].
  unfold groupDmAllowedOf, channelConfigOf, guildSenderOk, guildInfoOf,
    channelSlugOf, channelNameOf, isGroupDm, isDirectMessage.
  destruct (isGuildMessage m) eqn:Hg.
  - rewrite (Hexcl eq_refl), (Hmention eq_refl).
    cbn [andb negb orb].
    destruct (hasEntries (guildEntries cfg) && negb _); [reflexivity|].
    destruct (bool_decide (cc_allowed <$> _ = Some false)); [reflexivity|].
    rewrite !andb_false_r. cbn [andb].
    destruct (_ ≫= ge_users) as [[|e l]|]; try reflexivity.
    destruct (normalizeDiscordAllowList _ _) as [users|]; [|reflexivity].
    destruct (allowListMatches users _); reflexivity.
  - cbn [andb negb orb].
    destruct (msg_channelType m); cbn [andb negb orb].
    + destruct (dmEnabled cfg); cbn [negb]; [|reflexivity].
      destruct (dmSenderPermitted cfg (ix_user interaction)); reflexivity.
    + destruct (groupDmEnabled cfg); cbn [negb]; [|reflexivity].
      destruct (resolveGroupDmAllow _ _ _ _); reflexivity.
    + reflexivity.
Qed.

Lemma slash_screen_witness :
  slashScreen (Fixture.setup None None)
    (SlashScene.ask [SlashScene.stringOption "hi"])
  = messageScreen (Fixture.setup None None) Fixture.silentWorld
      (Fixture.guildMessage "m1" "hi" true [])
      (ix_user (SlashScene.ask [SlashScene.stringOption "hi"])).
Proof.
  apply (slash_screen_is_the_message_screen (Fixture.setup None None)
           Fixture.silentWorld
           (SlashScene.ask [SlashScene.stringOption "hi"])
           (Fixture.guildMessage "m1" "hi" true [])).
  - repeat split.
  - reflexivity.
  - reflexivity.
  - reflexivity.
Defined.

Lemma resolveSlashPrompt_trimmed options prompt :
  resolveSlashPrompt options = Some prompt ->
  prompt <> "" /\ Js.trim prompt = prompt.
Proof.
  unfold resolveSlashPrompt, findFirstStringOption.
  rewrite (firstSome_flat findInOption stringsOfOption options)
    by (apply Forall_forall; intros opt _; apply findInOption_first).
  generalize (flat_map stringsOfOption options) as values.
  intros values. unfold nonBlank.
  induction values as [|s values IH]; simpl; [discriminate|].
  destruct (Js.trim s) as [|c r] eqn:Hs; simpl; [exact IH|].
  intros [= <-]. split; [discriminate|]. rewrite <- Hs. apply trim_trim.
Qed.

Section SlashFacts.

Variable chunkText : string -> Z -> list string.
Variable silentReplyToken : string.
Variable slashCommand : SlashCommand.
Variable cfg : Setup.

Local Abbreviation handler :=
  (interactionCreate chunkText silentReplyToken slashCommand cfg).
Local Abbreviation defer := (CallDeferReply (slash_ephemeral slashCommand)).

Lemma perform_extends resolves calls :
  forall log,
    exists done,
      snd (perform resolves calls log) = (log ++ done)%list
      /\ (fst (perform resolves calls log) = Ok tt -> done = calls).
Proof.
  induction calls as [|c calls IH]; intros log; simpl.
  - exists []. rewrite app_nil_r. auto.
  - destruct (resolves c).
    + destruct (IH (log ++ [c])%list) as (done & Hlog & Hok).
      exists (c :: done). rewrite Hlog, <- app_assoc. split; [reflexivity|].
      intros H. rewrite (Hok H). reflexivity.
    + exists []. rewrite app_nil_r. split; [reflexivity|]. discriminate.
Qed.

Lemma perform_all resolves calls log :
  (forall c, resolves c = true) ->
  perform resolves calls log = (Ok tt, (log ++ calls)%list).
Proof.
  intros Hall. revert log.
  induction calls as [|c calls IH]; intros log; simpl.
  - rewrite app_nil_r. reflexivity.
  - rewrite Hall, IH, <- app_assoc. reflexivity.
Qed.

Lemma slashCatch_calls env interaction generated log :
  so_generated (slashCatch env interaction generated log) = generated
  /\ so_ending (slashCatch env interaction generated log) <> SlashAnswered
  /\ exists tail,
       so_calls (slashCatch env interaction generated log)
       = (log ++ tail)%list.
Proof.
  unfold slashCatch.
  destruct (ix_isRepliable interaction);
    [destruct (callResolves env _)|]; simpl;
    (split; [reflexivity|]); (split; [discriminate|]);
    eauto using app_nil_r.
  all: exists []; rewrite app_nil_r; reflexivity.
Qed.

Lemma deliverSlashReplies_last replies ephemeral limit :
  exists c,
    last (deliverSlashReplies chunkText silentReplyToken replies ephemeral
            limit) = Some c
    /\ isAnswer c = true.
Proof.
  unfold deliverSlashReplies.
  destruct (slashMessages _ _ _ _) as [|first rest]; [simpl; eauto|].
  destruct rest as [|m rest _] using rev_ind; [simpl; eauto|].
  exists (CallFollowUp m ephemeral). split; [|reflexivity].
  rewrite map_app. simpl.
  change (CallEditReply first
          :: (map (fun message => CallFollowUp message ephemeral) rest
              ++ [CallFollowUp m ephemeral])%list)
    with ((CallEditReply first
           :: map (fun message => CallFollowUp message ephemeral) rest)
          ++ [CallFollowUp m ephemeral])%list.
  apply last_snoc.
Qed.

End SlashFacts.

(** X22.  The generator is called for a slash command only after the
    command passed every check and its deferral completed: the deferral is
    the first completed call and carries the configured ephemeral flag.
    The body of the context is the prompt, trimmed and not empty; the
    context is addressed to [slash:<user id>] and its session key is the
    session prefix, a colon and the user id. *)
Theorem slash_generation_follows_the_deferral
    (chunkText : string -> Z -> list string) (silentReplyToken : string)
    (slashCommand : SlashCommand) (cfg : Setup) (env : SlashEnv)
    (interaction : Interaction) (ctx : SlashContext) :
  let out :=
    interactionCreate chunkText silentReplyToken slashCommand cfg env
      interaction in
  so_generated out = Some ctx ->
  slash_enabled slashCommand = true
  /\ ix_isChatInputCommand interaction = true
  /\ ix_commandName interaction = slash_name slashCommand
  /\ user_bot (ix_user interaction) = false
  /\ slashScreen cfg interaction = None
  /\ (exists rest,
        so_calls out
        = CallDeferReply (slash_ephemeral slashCommand) :: rest)
  /\ resolveSlashPrompt (ix_options interaction) = Some (sl_Body ctx)
  /\ sl_Body ctx <> "" /\ Js.trim (sl_Body ctx) = sl_Body ctx
  /\ sl_To ctx = "slash:" ++ user_id (ix_user interaction)
  /\ sl_SessionKey ctx
     = slash_sessionPrefix slashCommand ++ ":"
       ++ user_id (ix_user interaction).
Proof.
  cbv zeta. unfold interactionCreate.
  destruct (slash_enabled slashCommand); [|discriminate].
  destruct (ix_isChatInputCommand interaction); [|discriminate].
  destruct (String.eqb _ _) eqn:Hname; [|discriminate].
  apply String.eqb_eq in Hname.
  destruct (user_bot (ix_user interaction)); [discriminate|].
  destruct (slashScreen cfg interaction); [discriminate|].
  cbn [negb].
  destruct (resolveSlashPrompt (ix_options interaction)) as [prompt|]
    eqn:Hprompt.
  2:{ destruct (callResolves env _); [discriminate|].
      destruct (slashCatch_calls env interaction None []) as (-> & _).
      discriminate. }
  destruct (resolveSlashPrompt_trimmed _ _ Hprompt) as [Hne Htrim].
  cbv zeta.
  destruct (callResolves env (CallDeferReply _)); cbn [negb].
  2:{ destruct (slashCatch_calls env interaction None []) as (-> & _).
      discriminate. }
  assert (Hdone : forall out,
             so_generated out = Some (slashContextOf slashCommand
                                        interaction prompt) ->
             (exists tail,
                 so_calls out
                 = ([CallDeferReply (slash_ephemeral slashCommand)]
                    ++ tail)%list) ->
             so_generated out = Some ctx ->
             (exists rest,
                 so_calls out
                 = CallDeferReply (slash_ephemeral slashCommand) :: rest)
             /\ Some prompt = Some (sl_Body ctx)
             /\ sl_Body ctx <> "" /\ Js.trim (sl_Body ctx) = sl_Body ctx
             /\ sl_To ctx = "slash:" ++ user_id (ix_user interaction)
             /\ sl_SessionKey ctx
                = slash_sessionPrefix slashCommand ++ ":"
                  ++ user_id (ix_user interaction)).
  { intros out Hgen [tail Hcalls] Hctx. rewrite Hgen in Hctx.
    injection Hctx as <-. simpl.
    repeat split; auto. exists tail. exact Hcalls. }
  destruct (slashReply env _) as [replyResult|].
  - pose proof (perform_extends (callResolves env)
                  (deliverSlashReplies chunkText silentReplyToken
                     (repliesOf replyResult)
                     (slash_ephemeral slashCommand) (textLimit cfg))
                  [CallDeferReply (slash_ephemeral slashCommand)])
      as (done & Hlog & _).
    destruct (perform _ _ _) as [[u|] log]; simpl in Hlog; subst log.
    + intros Hgen. repeat (split; [reflexivity || assumption|]).
      revert Hgen. apply Hdone; [reflexivity | eauto].
    + destruct (slashCatch_calls env interaction
                  (Some (slashContextOf slashCommand interaction prompt))
                  (CallDeferReply (slash_ephemeral slashCommand) :: done))
        as (Hgen' & _ & tail & Hcalls).
      intros Hgen. repeat (split; [reflexivity || assumption|]).
      revert Hgen. apply Hdone; [exact Hgen'|]. exists (done ++ tail)%list.
      rewrite Hcalls. reflexivity.
  - destruct (slashCatch_calls env interaction
                (Some (slashContextOf slashCommand interaction prompt))
                [CallDeferReply (slash_ephemeral slashCommand)])
      as (Hgen' & _ & tail & Hcalls).
    intros Hgen. repeat (split; [reflexivity || assumption|]).
    revert Hgen. apply Hdone; [exact Hgen' | eauto].
Qed.

Lemma slash_generation_witness :
  slash_enabled SlashScene.command = true
  /\ ix_isChatInputCommand
       (SlashScene.ask [SlashScene.stringOption " hi "]) = true
  /\ ix_commandName (SlashScene.ask [SlashScene.stringOption " hi "])
     = slash_name SlashScene.command
  /\ user_bot (ix_user (SlashScene.ask [SlashScene.stringOption " hi "]))
     = false
  /\ slashScreen (Fixture.setup None None)
       (SlashScene.ask [SlashScene.stringOption " hi "]) = None
  /\ (exists rest,
        so_calls
          (SlashScene.handle (SlashScene.world Threw)
             (SlashScene.ask [SlashScene.stringOption " hi "]))
        = CallDeferReply (slash_ephemeral SlashScene.command) :: rest)
  /\ resolveSlashPrompt
       (ix_options (SlashScene.ask [SlashScene.stringOption " hi "]))
     = Some "hi"
  /\ "hi" <> "" /\ Js.trim "hi" = "hi"
  /\ "slash:1001"
     = "slash:"
       ++ user_id (ix_user (SlashScene.ask [SlashScene.stringOption " hi "]))
  /\ "discord:slash:1001"
     = slash_sessionPrefix SlashScene.command ++ ":"
       ++ user_id (ix_user (SlashScene.ask [SlashScene.stringOption " hi "])).
Proof.
  apply (slash_generation_follows_the_deferral Fixture.chunkText "SILENT"
           SlashScene.command (Fixture.setup None None)
           (SlashScene.world Threw)
           (SlashScene.ask [SlashScene.stringOption " hi "])
           (mkSlashContext "hi" "discord:1001" "slash:1001" "direct"
              "alice" "discord" true "i1" 1700000000000
              "discord:slash:1001")).
  vm_compute. reflexivity.
Defined.

(** X23.  A slash command that ends answered made exactly these calls:
    the deferral, one edit of the deferred reply, and one follow-up for
    every further message, each with the configured ephemeral flag.  The
    messages are the chunks of the generated payloads in order; when there
    are none, the edit carries the notice that no response was
    generated. *)
Theorem slash_answer_is_the_plan
    (chunkText : string -> Z -> list string) (silentReplyToken : string)
    (slashCommand : SlashCommand) (cfg : Setup) (env : SlashEnv)
    (interaction : Interaction) :
  let out :=
    interactionCreate chunkText silentReplyToken slashCommand cfg env
      interaction in
  let ephemeral := slash_ephemeral slashCommand in
  so_ending out = SlashAnswered ->
  exists ctx replyResult first rest,
    so_generated out = Some ctx
    /\ slashReply env ctx = Ok replyResult
    /\ so_calls out
       = CallDeferReply ephemeral :: CallEditReply first
         :: map (fun message => CallFollowUp message ephemeral) rest
    /\ match slashMessages chunkText silentReplyToken
               (repliesOf replyResult) (textLimit cfg) with
       | [] => first = noResponse /\ rest = []
       | messages => first :: rest = messages
       end.
Proof.
  cbv zeta. unfold interactionCreate.
  destruct (slash_enabled slashCommand); [|discriminate].
  destruct (ix_isChatInputCommand interaction); [|discriminate].
  destruct (String.eqb _ _); [|discriminate].
  destruct (user_bot (ix_user interaction)); [discriminate|].
  destruct (slashScreen cfg interaction); [discriminate|].
  cbn [negb].
  destruct (resolveSlashPrompt (ix_options interaction)) as [prompt|].
  2:{ destruct (callResolves env _); [discriminate|].
      destruct (slashCatch_calls env interaction None []) as (_ & H & _).
      intros; contradiction. }
  cbv zeta.
  destruct (callResolves env (CallDeferReply _)); cbn [negb].
  2:{ destruct (slashCatch_calls env interaction None []) as (_ & H & _).
      intros; contradiction. }
  destruct (slashReply env _) as [replyResult|] eqn:Hreply.
  2:{ destruct (slashCatch_calls env interaction
                  (Some (slashContextOf slashCommand interaction prompt))
                  [CallDeferReply (slash_ephemeral slashCommand)])
        as (_ & H & _).
      intros; contradiction. }
  pose proof (perform_extends (callResolves env)
                (deliverSlashReplies chunkText silentReplyToken
                   (repliesOf replyResult)
                   (slash_ephemeral slashCommand) (textLimit cfg))
                [CallDeferReply (slash_ephemeral slashCommand)])
    as (done & Hlog & Hall).
  destruct (perform _ _ _) as [[[]|] log]; simpl in Hlog, Hall.
  2:{ destruct (slashCatch_calls env interaction
                  (Some (slashContextOf slashCommand interaction prompt))
                  log) as (_ & H & _).
      intros; contradiction. }
  intros _. rewrite (Hall eq_refl) in Hlog. subst log.
  exists (slashContextOf slashCommand interaction prompt), replyResult.
  unfold deliverSlashReplies.
  destruct (slashMessages _ _ _ _) as [|first rest].
  - exists noResponse, []. repeat split; auto.
  - exists first, rest. repeat split; auto.
Qed.

Lemma slash_answer_witness :
  exists ctx replyResult first rest,
    so_generated
      (SlashScene.handle
         (SlashScene.world (Ok (OneReply (Fixture.textReply "yo" None))))
         (SlashScene.ask [SlashScene.stringOption "hi"])) = Some ctx
    /\ slashReply
         (SlashScene.world (Ok (OneReply (Fixture.textReply "yo" None))))
         ctx = Ok replyResult
    /\ so_calls
         (SlashScene.handle
            (SlashScene.world (Ok (OneReply (Fixture.textReply "yo" None))))
            (SlashScene.ask [SlashScene.stringOption "hi"]))
       = CallDeferReply (slash_ephemeral SlashScene.command)
         :: CallEditReply first
         :: map (fun message =>
                   CallFollowUp message
                     (slash_ephemeral SlashScene.command)) rest
    /\ match slashMessages Fixture.chunkText "SILENT"
               (repliesOf replyResult)
               (textLimit (Fixture.setup None None)) with
       | [] => first = noResponse /\ rest = []
       | messages => first :: rest = messages
       end.
Proof.
  apply (slash_answer_is_the_plan Fixture.chunkText "SILENT"
           SlashScene.command (Fixture.setup None None)
           (SlashScene.world (Ok (OneReply (Fixture.textReply "yo" None))))
           (SlashScene.ask [SlashScene.stringOption "hi"])).
  vm_compute. reflexivity.
Defined.

(** X24.  When every call on the interaction resolves and the interaction
    can be replied to, a slash command is either passed over without any
    call, or the last completed call shows the user something: the request
    for a message, the answer, or the apology.  The handler never stops
    after the deferral alone. *)
Theorem slash_command_is_always_answered
    (chunkText : string -> Z -> list string) (silentReplyToken : string)
    (slashCommand : SlashCommand) (cfg : Setup) (env : SlashEnv)
    (interaction : Interaction) :
  (forall call, callResolves env call = true) ->
  ix_isRepliable interaction = true ->
  let out :=
    interactionCreate chunkText silentReplyToken slashCommand cfg env
      interaction in
  (so_calls out = [] /\ so_generated out = None
   /\ (so_ending out = SlashIgnored
       \/ exists why, so_ending out = SlashDropped why))
  \/ (exists call,
        last (so_calls out) = Some call /\ isAnswer call = true
        /\ (so_ending out = SlashPromptRequired
            \/ so_ending out = SlashAnswered
            \/ so_ending out = SlashApologised)).
Proof.
  intros Hall Hrepliable. cbv zeta. unfold interactionCreate.
  destruct (slash_enabled slashCommand); [|left; auto].
  destruct (ix_isChatInputCommand interaction); [|left; auto].
  destruct (String.eqb _ _); [|left; auto].
  destruct (user_bot (ix_user interaction)); [left; auto|].
  destruct (slashScreen cfg interaction) as [why|]; [left; eauto|].
  cbn [negb]. right.
  destruct (resolveSlashPrompt (ix_options interaction)) as [prompt|].
  2:{ rewrite Hall. simpl. eexists. repeat split. auto. }
  cbv zeta. rewrite Hall. cbn [negb].
  destruct (slashReply env _) as [replyResult|].
  - rewrite perform_all by exact Hall.
    destruct (deliverSlashReplies_last chunkText silentReplyToken
                (repliesOf replyResult) (slash_ephemeral slashCommand)
                (textLimit cfg)) as (call & Hlast & Hanswer).
    exists call. cbn [so_calls so_ending].
    split; [|split; [exact Hanswer | auto]].
    apply last_Some in Hlast as [front Hfront]. rewrite Hfront.
    rewrite app_assoc. apply last_snoc.
  - unfold slashCatch. rewrite Hrepliable, Hall.
    destruct (acknowledged env _); simpl; eexists; repeat split; auto.
Qed.

Lemma slash_always_answered_witness :
  (so_calls (SlashScene.handle (SlashScene.world Threw)
               (SlashScene.ask [SlashScene.stringOption "hi"])) = []
   /\ so_generated (SlashScene.handle (SlashScene.world Threw)
                      (SlashScene.ask [SlashScene.stringOption "hi"]))
      = None
   /\ (so_ending (SlashScene.handle (SlashScene.world Threw)
                    (SlashScene.ask [SlashScene.stringOption "hi"]))
       = SlashIgnored
       \/ exists why,
            so_ending (SlashScene.handle (SlashScene.world Threw)
                         (SlashScene.ask [SlashScene.stringOption "hi"]))
            = SlashDropped why))
  \/ (exists call,
        last (so_calls (SlashScene.handle (SlashScene.world Threw)
                          (SlashScene.ask [SlashScene.stringOption "hi"])))
        = Some call
        /\ isAnswer call = true
        /\ (so_ending (SlashScene.handle (SlashScene.world Threw)
                         (SlashScene.ask [SlashScene.stringOption "hi"]))
            = SlashPromptRequired
            \/ so_ending (SlashScene.handle (SlashScene.world Threw)
                            (SlashScene.ask [SlashScene.stringOption "hi"]))
               = SlashAnswered
            \/ so_ending (SlashScene.handle (SlashScene.world Threw)
                            (SlashScene.ask [SlashScene.stringOption "hi"]))
               = SlashApologised)).
Proof.
  apply (slash_command_is_always_answered Fixture.chunkText "SILENT"
           SlashScene.command (Fixture.setup None None)
           (SlashScene.world Threw)
           (SlashScene.ask [SlashScene.stringOption "hi"])).
  - intros call. reflexivity.
  - reflexivity.
Defined.

Example failed_generation_is_apologised :
  so_calls (SlashScene.handle (SlashScene.world Threw)
              (SlashScene.ask [SlashScene.stringOption "hi"]))
  = [CallDeferReply true; CallFollowUp sorry true].
Proof. vm_compute. reflexivity. Qed.

Lemma join_empty sep (l : list string) :
  forallb Js.truthy l = true -> Js.join sep l = "" -> l = [].
Proof.
  destruct l as [|x l]; [reflexivity|]. simpl.
  intros H. apply andb_true_iff in H as [Hx _].
  destruct x as [|c r]; [discriminate|].
  destruct l; simpl; discriminate.
Qed.

Lemma forallb_filter_truthy (l : list string) :
  forallb Js.truthy (List.filter Js.truthy l) = true.
Proof.
  induction l as [|x l IH]; [reflexivity|]. simpl.
  destruct (Js.truthy x) eqn:Hx; simpl; [rewrite Hx|]; exact IH.
Qed.

Lemma filter_truthy_twice (l : list string) :
  List.filter Js.truthy (List.filter Js.truthy l) = List.filter Js.truthy l.
Proof.
  induction l as [|x l IH]; [reflexivity|]. simpl.
  destruct (Js.truthy x) eqn:Hx; simpl; [rewrite Hx, IH|]; auto.
Qed.

Lemma filter_truthy_nil (l : list string) :
  List.filter Js.truthy (map Js.trim l) = []
  <-> forallb (fun url => Js.isEmpty (Js.trim url)) l = true.
Proof.
  induction l as [|x l IH]; simpl; [tauto|].
  unfold Js.truthy at 1. destruct (Js.isEmpty (Js.trim x)); simpl.
  - exact IH.
  - split; discriminate.
Qed.

Lemma slashCombined_lines silentReplyToken payload :
  slashCombined silentReplyToken payload
  = Js.join nl (statedLines silentReplyToken payload).
Proof.
  unfold slashCombined, statedLines, nonBlank. cbv zeta.
  rewrite mediaListOf_stated.
  set (textRaw := Js.nullish (Js.trim <$> text payload) "").
  set (urls := List.filter Js.truthy (map Js.trim (statedMedia payload))).
  assert (Hkeep : List.filter Js.truthy urls = urls)
    by apply filter_truthy_twice.
  unfold Js.truthy at 2.
  destruct (Js.isEmpty textRaw) eqn:Hempty; cbn [negb andb orb].
  - cbn [Js.nullish List.filter Js.truthy Js.isEmpty negb app].
    rewrite Hkeep. reflexivity.
  - destruct (String.eqb textRaw silentReplyToken); cbn [negb Js.nullish].
    + cbn [List.filter Js.truthy Js.isEmpty negb app]. rewrite Hkeep.
      reflexivity.
    + cbn [List.filter app]. unfold Js.truthy at 1. rewrite Hempty.
      cbn [negb]. rewrite Hkeep. reflexivity.
Qed.

Lemma statedLines_truthy silentReplyToken payload :
  forallb Js.truthy (statedLines silentReplyToken payload) = true.
Proof.
  unfold statedLines, nonBlank. cbv zeta. rewrite forallb_app.
  rewrite forallb_filter_truthy, andb_true_r.
  destruct (Js.isEmpty _) eqn:Hempty; [reflexivity|].
  cbn [orb]. destruct (String.eqb _ _); [reflexivity|].
  simpl. unfold Js.truthy. rewrite Hempty. reflexivity.
Qed.

Lemma statedLines_silent silentReplyToken payload :
  statedLines silentReplyToken payload = []
  <-> isSilentPayload silentReplyToken payload = true.
Proof.
  unfold statedLines, isSilentPayload, nonBlank. cbv zeta.
  rewrite andb_true_iff, <- filter_truthy_nil.
  destruct (Js.isEmpty _ || String.eqb _ _); simpl.
  - split; [auto | intros [_ H]; exact H].
  - split; [discriminate | intros [H _]; discriminate].
Qed.

Lemma slashCombined_silent silentReplyToken payload :
  Js.isEmpty (slashCombined silentReplyToken payload)
  = isSilentPayload silentReplyToken payload.
Proof.
  rewrite slashCombined_lines.
  destruct (isSilentPayload silentReplyToken payload) eqn:Hs.
  - apply statedLines_silent in Hs. rewrite Hs. reflexivity.
  - destruct (Js.join nl (statedLines silentReplyToken payload)) eqn:Hj;
      [|reflexivity].
    apply join_empty in Hj; [|apply statedLines_truthy].
    apply statedLines_silent in Hj. congruence.
Qed.

(** X25.  In the answer to a slash command the media of a payload are the
    URLs of its [mediaUrls] field when that field is present, even empty,
    and otherwise its [mediaUrl].  A payload is passed over when its
    trimmed text is empty or the silent-reply token and none of its media
    URLs is other than blank.  Every other payload hands the chunker one
    text that is not empty: its trimmed text, unless that is the token,
    and its trimmed media URLs that are not blank, one per line; the
    messages are the chunks of these texts in order.  With a chunker that
    gives at least one chunk for a text that is not empty, a payload adds
    no message exactly when it is passed over.  When every payload is
    passed over, the only call is the edit with the notice that no
    response was generated. *)
Theorem silent_payloads_get_the_notice
    (chunkText : string -> Z -> list string) (silentReplyToken : string)
    (replies : list ReplyPayload) (ephemeral : bool) (textLimit : Z) :
  slashMessages chunkText silentReplyToken replies textLimit
  = flat_map
      (fun payload =>
         if isSilentPayload silentReplyToken payload then []
         else chunkText (Js.join nl (statedLines silentReplyToken payload))
                (Z.min textLimit 2000))
      replies
  /\ (forall payload,
        isSilentPayload silentReplyToken payload = false ->
        Js.join nl (statedLines silentReplyToken payload) <> "")
  /\ ((forall s limit, s <> "" -> chunkText s limit <> []) ->
      forall payload,
        slashMessages chunkText silentReplyToken [payload] textLimit = []
        <-> isSilentPayload silentReplyToken payload = true)
  /\ (forallb (isSilentPayload silentReplyToken) replies = true ->
      deliverSlashReplies chunkText silentReplyToken replies ephemeral
        textLimit
      = [CallEditReply noResponse]).
Proof.
  assert (Hmessages : forall payloads,
             slashMessages chunkText silentReplyToken payloads textLimit
             = flat_map
                 (fun payload =>
                    if isSilentPayload silentReplyToken payload then []
                    else chunkText
                           (Js.join nl
                              (statedLines silentReplyToken payload))
                           (Z.min textLimit 2000))
                 payloads).
  { intros payloads. unfold slashMessages. cbv zeta.
    induction payloads as [|payload payloads IH]; [reflexivity|].
    simpl. rewrite IH, slashCombined_silent, slashCombined_lines.
    reflexivity. }
  assert (Hnonempty : forall payload,
             isSilentPayload silentReplyToken payload = false ->
             Js.join nl (statedLines silentReplyToken payload) <> "").
  { intros payload Hs Hj.
    rewrite <- slashCombined_lines in Hj.
    pose proof (slashCombined_silent silentReplyToken payload) as H.
    rewrite Hj, Hs in H. discriminate. }
  split; [apply Hmessages|]. split; [exact Hnonempty|]. split.
  - intros Hchunks payload. rewrite Hmessages. simpl.
    rewrite app_nil_r.
    destruct (isSilentPayload silentReplyToken payload) eqn:Hs.
    + split; reflexivity.
    + split; [|discriminate]. intros H. exfalso.
      apply (Hchunks _ _ (Hnonempty payload Hs) H).
  - intros H. unfold deliverSlashReplies. rewrite Hmessages.
    assert (Hnone :
             flat_map
               (fun payload =>
                  if isSilentPayload silentReplyToken payload then []
                  else chunkText
                         (Js.join nl (statedLines silentReplyToken payload))
                         (Z.min textLimit 2000))
               replies = []).
    { induction replies as [|payload replies IH]; [reflexivity|].
      simpl in H. apply andb_true_iff in H as [Hp Hr]. simpl.
      rewrite Hp. simpl. apply IH, Hr. }
    rewrite Hnone. reflexivity.
Qed.

Lemma silent_payloads_witness :
  deliverSlashReplies Fixture.chunkText "SILENT"
    [Scene.hiddenMediaUrl "  "; Fixture.textReply " SILENT " None]
    true 2000
  = [CallEditReply noResponse].
Proof.
  apply (silent_payloads_get_the_notice Fixture.chunkText "SILENT"
           [Scene.hiddenMediaUrl "  "; Fixture.textReply " SILENT " None]
           true 2000).
  reflexivity.
Defined.

(** A payload with text and media, and one whose text is the token. *)
Example slash_payload_lines :
  statedLines "SILENT" Scene.twoOfThree
  = ["two"; "http://x/1.jpg"; "http://x/2.jpg"]
  /\ slashMessages Fixture.chunkText "SILENT"
       [Scene.twoOfThree;
        mkPayload (Some "SILENT") (Some " http://x/9.jpg ") None None]
       2000
     = ["two" ++ nl ++ "http://x/1.jpg" ++ nl ++ "http://x/2.jpg";
        "http://x/9.jpg"].
Proof. vm_compute. split; reflexivity. Qed.

(** ** Drops and the history step *)

Lemma screenBeforeHistory_reasons cfg m why :
  screenBeforeHistory cfg m = Some why ->
  isEarlyReason why = true /\ why <> BotAuthor /\ why <> NoAuthor.
Proof.
  unfold screenBeforeHistory.
  repeat case_match; intros [= <-]; repeat split; discriminate.
Qed.

Lemma originTarget_truthy m author :
  Js.isEmpty (originTarget m author) = false.
Proof. unfold originTarget. destruct (isDirectMessage m); reflexivity. Qed.

(** X26.  A dropped message sends nothing, calls no generator and queues
    no system event.  When the reason belongs to a check placed before the
    history step, the history map is left as it was; otherwise the reason
    is the mention gate, one of the two sender lists or the empty text,
    and the map is the one with the message recorded.  The branch for a
    missing reply target is never taken. *)
Theorem drops_before_and_after_the_history_step
    (chunkText : string -> Z -> list string)
    (formatAgentEnvelope : Envelope -> string)
    (cfg : Setup) (env : Env) (st : Histories) (m : Message)
    (why : DropReason) :
  let out := messageCreate chunkText formatAgentEnvelope cfg env st m in
  out_ending out = Dropped why ->
  out_sends out = [] /\ out_generated out = None
  /\ out_systemEvents out = [] /\ out_lastRoute out = None
  /\ why <> MissingReplyTarget
  /\ (if isEarlyReason why then out_histories out = st
      else exists author,
             msg_author m = Some author
             /\ screenBeforeHistory cfg m = None
             /\ out_histories out = recordHistory cfg m author st).
Proof.
  cbv zeta. unfold messageCreate, afterScreening.
  destruct (msg_author m) as [author|];
    [|simpl; intros [= <-]; repeat split; discriminate].
  destruct (user_bot author);
    [simpl; intros [= <-]; repeat split; discriminate|].
  destruct (screenBeforeHistory cfg m) as [early|] eqn:Hs1.
  { simpl. intros [= <-].
    destruct (screenBeforeHistory_reasons _ _ _ Hs1) as (He & _).
    rewrite He. repeat split; try reflexivity.
    intros ->. discriminate. }
  destruct (screenAfterHistory cfg env m author) as [late|] eqn:Hs2.
  { simpl. intros [= <-].
    apply screenAfterHistory_reasons in Hs2.
    destruct Hs2 as [->|[->| ->]]; simpl;
      repeat split; try discriminate; eauto. }
  destruct (resolveDiscordSystemEvent m); [discriminate|].
  destruct (resolveMedia env m _) as [err|media]; [discriminate|].
  destruct (Js.isEmpty _).
  { simpl. intros [= <-]. simpl. repeat split; try discriminate; eauto. }
  intros H. exfalso. pose proof H as H'. apply turn_ending in H'. subst why.
  unfold runTurn in H.
  rewrite To_origin, originTarget_truthy in H.
  destruct (isDirectMessage m && negb _); [discriminate|].
  destruct (fold_left _ _ _) as [did blockSends].
  destruct (gen_result _) as [replyResult|]; [|discriminate].
  destruct (repliesOf replyResult) as [|payload replies]; [discriminate|].
  destruct (deliverReplies _ _ _ _ _ _ _ _) as [[u|] log]; discriminate.
Qed.

Lemma drops_witness :
  out_sends Fixture.unmentionedUnlistedTurn = []
  /\ out_generated Fixture.unmentionedUnlistedTurn = None
  /\ out_systemEvents Fixture.unmentionedUnlistedTurn = [].
Proof.
  destruct (drops_before_and_after_the_history_step Fixture.chunkText
              Fixture.formatAgentEnvelope
              (Fixture.setupWith Fixture.listedUsers)
              (Fixture.answeringWorld (Some "42")) ∅
              (Fixture.guildMessage "m1" "hi" false []) NoMention)
    as (H1 & H2 & H3 & _).
  - vm_compute. reflexivity.
  - repeat split; assumption.
Defined.

Lemma findFirstStringOption_witness :
  resolveSlashPrompt
    [mkOption (Some (ValNumber 3))
       (Some [SlashScene.stringOption "  ";
              SlashScene.stringOption " ask me "]);
     SlashScene.stringOption "later"]
  = Some "ask me"
  /\ "ask me" <> "" /\ Js.trim "ask me" = "ask me".
Proof.
  split; [reflexivity|].
  apply (proj2 (proj2 (findFirstStringOption_is_first_nonblank
                         [mkOption (Some (ValNumber 3))
                            (Some [SlashScene.stringOption "  ";
                                   SlashScene.stringOption " ask me "]);
                          SlashScene.stringOption "later"]))).
  reflexivity.
Defined.

Lemma resolveSlashCommandConfig_witness :
  slash_enabled
    (resolveSlashCommandConfig
       (Some (mkRawSlash None (Some " ask ") None (Some false))))
  = true.
Proof.
  apply (proj1 (proj2 (proj2 (proj2 (proj2
           (resolveSlashCommandConfig_is_complete
              (Some (mkRawSlash None (Some " ask ") None (Some false))))))))).
  exists (mkRawSlash None (Some " ask ") None (Some false)).
  split; [reflexivity | discriminate].
Defined.

(** X27.  A guild message whose content is blank and that carries an
    attachment is recorded in the history of its channel under the
    placeholder of its first attachment, although it is never answered:
    the recorded text falls back on the placeholder where the text of the
    turn does not. *)
Theorem blank_message_with_attachment_is_recorded
    (chunkText : string -> Z -> list string)
    (formatAgentEnvelope : Envelope -> string)
    (cfg : Setup) (env : Env) (st : Histories) (m : Message)
    (author : User) (content : string) (attachment : Attachment)
    (rest : list Attachment) :
  msg_author m = Some author ->
  user_bot author = false ->
  screenBeforeHistory cfg m = None ->
  isGuildMessage m = true ->
  0 < historyLimit cfg ->
  msg_content m = Some content ->
  Js.trim content = "" ->
  msg_attachments m = attachment :: rest ->
  let out := messageCreate chunkText formatAgentEnvelope cfg env st m in
  out_generated out = None /\ out_sends out = []
  /\ out_histories out = recordHistory cfg m author st
  /\ last (historyOf (out_histories out) (msg_channelId m))
     = Some (historyEntryOf m author)
  /\ he_body (historyEntryOf m author) = inferPlaceholder attachment.
Proof.
  intros Ha Hb Hs1 Hg Hl Hc Ht Hatt out.
  assert (Hout : out_generated out = None /\ out_sends out = []
                 /\ out_histories out = recordHistory cfg m author st).
  { subst out. unfold messageCreate, afterScreening.
    rewrite Ha, Hb, Hs1.
    destruct (screenAfterHistory cfg env m author); [auto|].
    destruct (resolveDiscordSystemEvent m); [auto|].
    destruct (resolveMedia env m _) as [err|media]; [auto|].
    unfold turnText. rewrite Hc. simpl. rewrite Ht. auto. }
  destruct Hout as (Hgen & Hsends & Hhist).
  repeat (split; [assumption|]). split.
  - rewrite Hhist. apply recordHistory_last; [exact Hg | exact Hl |].
    apply (baseText_with_attachment m attachment rest Hatt).
  - cbn [he_body historyEntryOf]. unfold baseTextOf,
      resolveDiscordMessageText. rewrite Hc, Hatt. simpl. rewrite Ht.
    simpl. unfold Js.orStr. rewrite inferPlaceholder_truthy. reflexivity.
Qed.

Lemma blank_message_recorded_witness :
  last (historyOf
          (out_histories
             (Fixture.handle (Fixture.setup None None)
                (Fixture.answeringWorld (Some "42")) ∅
                (Fixture.guildMessage "m1" "  " true [Fixture.picture])))
          "7000")
  = Some (historyEntryOf
            (Fixture.guildMessage "m1" "  " true [Fixture.picture])
            Fixture.alice)
  /\ he_body (historyEntryOf
                (Fixture.guildMessage "m1" "  " true [Fixture.picture])
                Fixture.alice)
     = "<media:image>".
Proof.
  destruct (blank_message_with_attachment_is_recorded Fixture.chunkText
              Fixture.formatAgentEnvelope (Fixture.setup None None)
              (Fixture.answeringWorld (Some "42")) ∅
              (Fixture.guildMessage "m1" "  " true [Fixture.picture])
              Fixture.alice "  " Fixture.picture [])
    as (_ & _ & _ & H1 & H2); try reflexivity.
  split; [exact H1 | exact H2].
Defined.

(** ** A dropped message and the next answered turn *)

Section KeepLast.

Context {A : Type}.

(** Evicting after every push keeps what evicting once at the end
    keeps. *)
Lemma shiftWhileOver_push (limit : Z) (history : list A) (entry : A) :
  0 <= limit ->
  pushBounded limit (shiftWhileOver limit history) entry
  = shiftWhileOver limit (history ++ [entry])%list.
Proof.
  intros Hl. unfold pushBounded.
  rewrite !shiftWhileOver_drop, !length_app, length_drop.
  cbn [List.length].
  set (n := List.length history).
  destruct (Z_le_gt_dec (Z.of_nat n) limit) as [Hle|Hgt].
  - replace (Z.to_nat (Z.of_nat n - limit)) with O by lia.
    rewrite drop_0. f_equal. lia.
  - replace (Z.to_nat
               (Z.of_nat (n - Z.to_nat (Z.of_nat n - limit) + 1) - limit))
      with 1%nat by lia.
    replace (Z.to_nat (Z.of_nat (n + 1) - limit))
      with (S (Z.to_nat (Z.of_nat n - limit))) by lia.
    set (a := Z.to_nat (Z.of_nat n - limit)).
    destruct (decide (a = n)) as [Ha|Ha].
    + rewrite Ha. subst n. rewrite drop_all. cbn [app drop].
      rewrite drop_ge by (rewrite length_app; cbn; lia). reflexivity.
    + assert (a < n)%nat by lia.
      rewrite (drop_app_le history [entry] (S a)) by (fold n; lia).
      rewrite (drop_app_le (drop a history) [entry] 1)
        by (rewrite length_drop; fold n; lia).
      rewrite drop_drop. replace (a + 1)%nat with (S a) by lia.
      reflexivity.
Qed.

(** What is kept of [older ++ entry :: later]: when [entry] still fits,
    a part of [older], [entry] and [later]; otherwise a part of
    [later]. *)
Lemma shiftWhileOver_around (limit : Z) (older later : list A)
    (entry : A) :
  0 < limit ->
  (Z.of_nat (List.length later) + 1 <= limit ->
   exists k,
     shiftWhileOver limit (older ++ entry :: later)%list
     = (drop k older ++ entry :: later)%list)
  /\ (limit < Z.of_nat (List.length later) + 1 ->
      exists k,
        shiftWhileOver limit (older ++ entry :: later)%list
        = drop k later).
Proof.
  intros Hl. rewrite shiftWhileOver_drop, length_app. cbn [List.length].
  set (d := Z.to_nat (Z.of_nat (List.length older
                                + S (List.length later)) - limit)).
  split; intros H.
  - exists d. apply drop_app_le. lia.
  - exists (d - List.length older - 1)%nat.
    rewrite drop_app_ge by lia.
    replace (d - List.length older)%nat
      with (S (d - List.length older - 1)) by lia.
    cbn [drop]. f_equal. lia.
Qed.

End KeepLast.

Section BetweenTurns.

Variable chunkText : string -> Z -> list string.
Variable formatAgentEnvelope : Envelope -> string.
Variable cfg : Setup.

Local Abbreviation handler :=
  (messageCreate chunkText formatAgentEnvelope cfg).
Local Abbreviation turn := (runTurn chunkText formatAgentEnvelope cfg).
Local Abbreviation step := (stepHistories chunkText formatAgentEnvelope cfg).

Lemma recordsHistory_textBearing m :
  recordsHistory cfg m = isTextBearing cfg m.
Proof.
  unfold recordsHistory, isTextBearing, isGuildMessage, Js.truthy.
  destruct (msg_guild m); [|reflexivity]. cbn [andb].
  rewrite Z.gtb_ltb. reflexivity.
Qed.

Lemma historyOf_recordHistory_same m author st :
  historyOf (recordHistory cfg m author st) (msg_channelId m)
  = if recordsHistory cfg m
    then pushBounded (historyLimit cfg) (historyOf st (msg_channelId m))
           (historyEntryOf m author)
    else historyOf st (msg_channelId m).
Proof.
  unfold recordHistory. destruct (recordsHistory cfg m); [|reflexivity].
  cbv zeta. unfold historyOf at 1. rewrite lookup_insert_eq. reflexivity.
Qed.

(** A turn for which the generator is not called leaves the map it was
    given. *)
Lemma turn_unanswered env recorded m author media txt :
  out_generated (turn env recorded m author media txt) = None ->
  out_histories (turn env recorded m author media txt) = recorded.
Proof.
  unfold runTurn.
  destruct (Js.isEmpty _); [reflexivity|].
  destruct (isDirectMessage m && negb _); [reflexivity|].
  destruct (fold_left _ _ _) as [did blockSends].
  destruct (gen_result _) as [replyResult|]; [|discriminate].
  destruct (repliesOf replyResult) as [|payload replies]; [discriminate|].
  destruct (deliverReplies _ _ _ _ _ _ _ _) as [[u|] log]; discriminate.
Qed.

(** What an event that is not answered in [channel] does to the history
    of [channel]: it appends the entry it records, if any. *)
Lemma step_unanswered channel st ev :
  (msg_channelId (snd ev) = channel ->
   out_generated (handler (fst ev) st (snd ev)) = None) ->
  historyOf (step st ev) channel
  = match recordedEntry cfg channel ev with
    | [] => historyOf st channel
    | entry :: _ => pushBounded (historyLimit cfg) (historyOf st channel)
                      entry
    end.
Proof.
  destruct ev as [env m]. cbn [fst snd]. intros Hquiet.
  unfold stepHistories, recordedEntry. cbn [fst snd].
  rewrite <- recordsHistory_textBearing.
  destruct (String.eqb_spec (msg_channelId m) channel) as [Hch|Hch].
  2:{ unfold historyOf.
      rewrite (handler_other chunkText formatAgentEnvelope cfg env st m
                 channel) by congruence.
      destruct (msg_author m); reflexivity. }
  specialize (Hquiet Hch). subst channel. cbn [andb].
  unfold messageCreate, afterScreening in *.
  destruct (msg_author m) as [author|]; [|reflexivity].
  destruct (user_bot author); [reflexivity|]. cbn [negb andb].
  destruct (screenBeforeHistory cfg m); [reflexivity|].
  assert (Hrec : historyOf (recordHistory cfg m author st) (msg_channelId m)
                 = if recordsHistory cfg m
                   then pushBounded (historyLimit cfg)
                          (historyOf st (msg_channelId m))
                          (historyEntryOf m author)
                   else historyOf st (msg_channelId m))
    by apply historyOf_recordHistory_same.
  assert (Hgoal : forall out,
             out_histories out = recordHistory cfg m author st ->
             historyOf (out_histories out) (msg_channelId m)
             = match (if recordsHistory cfg m
                      then [historyEntryOf m author] else []) with
               | [] => historyOf st (msg_channelId m)
               | entry :: _ =>
                   pushBounded (historyLimit cfg)
                     (historyOf st (msg_channelId m)) entry
               end).
  { intros out ->. rewrite Hrec.
    destruct (recordsHistory cfg m); reflexivity. }
  destruct (screenAfterHistory cfg env m author); [apply Hgoal; reflexivity|].
  destruct (resolveDiscordSystemEvent m); [apply Hgoal; reflexivity|].
  destruct (resolveMedia env m _) as [err|media];
    [apply Hgoal; reflexivity|].
  destruct (Js.isEmpty _); [apply Hgoal; reflexivity|].
  apply Hgoal, turn_unanswered, Hquiet.
Qed.

(** The history of [channel] after events none of which is answered in
    [channel]: the entries they record are appended, and the oldest
    entries are evicted. *)
Lemma fold_unanswered channel events :
  0 < historyLimit cfg ->
  forall st entries,
    (forall ev st', In ev events -> msg_channelId (snd ev) = channel ->
                    out_generated (handler (fst ev) st' (snd ev)) = None) ->
    historyOf st channel = shiftWhileOver (historyLimit cfg) entries ->
    historyOf (fold_left step events st) channel
    = shiftWhileOver (historyLimit cfg)
        (entries ++ recordedOn cfg channel events)%list.
Proof.
  intros Hl. induction events as [|ev events IH]; intros st entries Hq Hst.
  - simpl. rewrite app_nil_r. exact Hst.
  - cbn [fold_left recordedOn flat_map].
    fold (recordedOn cfg channel events).
    assert (Hstep : historyOf (step st ev) channel
                    = shiftWhileOver (historyLimit cfg)
                        (entries ++ recordedEntry cfg channel ev)%list).
    { rewrite step_unanswered
        by (intros Hch; apply Hq; [left; reflexivity | exact Hch]).
      assert (Hone : recordedEntry cfg channel ev = []
                     \/ exists e, recordedEntry cfg channel ev = [e]).
      { unfold recordedEntry. destruct (msg_author (snd ev)); [|auto].
        destruct (_ && _ && _ && _); eauto. }
      destruct Hone as [->|[e ->]].
      - rewrite app_nil_r. exact Hst.
      - rewrite Hst. apply shiftWhileOver_push. lia. }
    rewrite (IH (step st ev)
               (entries ++ recordedEntry cfg channel ev)%list).
    + rewrite <- app_assoc. reflexivity.
    + intros ev' st' Hin. apply Hq. right. exact Hin.
    + exact Hstep.
Qed.

(** The body outside direct messages when there are entries to render. *)
Lemma withHistory_entries m author st body entries :
  isDirectMessage m = false ->
  historyWithoutCurrent cfg m st = entries ->
  entries <> [] ->
  withHistory formatAgentEnvelope cfg m author st body
  = contextBlock formatAgentEnvelope m author entries body
    ++ nl ++ "[from: " ++ user_tag author ++ " user id:" ++ user_id author
    ++ "]".
Proof.
  intros Hdm Hctx Hne. unfold withHistory, contextBlock.
  rewrite Hdm, Hctx. destruct entries; [congruence | reflexivity].
Qed.

End BetweenTurns.

Lemma dropLast_app_cons {A} (l : list A) (x : A) (later : list A) :
  later <> [] ->
  dropLast (l ++ x :: later) = (l ++ x :: dropLast later)%list.
Proof.
  intros Hne. unfold dropLast.
  rewrite removelast_app by discriminate.
  destruct later; [congruence | reflexivity].
Qed.

(** C10 as the code has it, for messages handled one after another.  A
    guild message with text, under a positive history limit, that passes
    the checks placed before the history step and is then dropped at the
    mention gate or at the guild user list, is the newest entry of its
    channel's history after the handler returns.  Take the next message of
    the channel for which the generator is called, no direct message,
    after any events in between, and let [later] be the entries recorded
    for the channel after the dropped one, the entry of the answered
    message included when it is recorded.  The entries rendered in the
    context of that turn are the stored history without its newest entry.
    So the dropped message is rendered when [later] is not empty and fits
    beside it under the limit, after a part of the older entries and
    before the entries of [later] but the last; when [later] is empty (no
    message recorded in between and the answered message not recorded
    itself) only older entries are rendered; and when [later] fills the
    limit only entries of [later] are. *)
Theorem C10_dropped_message_stays_in_history
    (chunkText : string -> Z -> list string)
    (formatAgentEnvelope : Envelope -> string)
    (cfg : Setup) (env : Env) (st : Histories) (m : Message)
    (author : User) (why : DropReason) :
  msg_author m = Some author ->
  user_bot author = false ->
  screenBeforeHistory cfg m = None ->
  isGuildMessage m = true ->
  0 < historyLimit cfg ->
  Js.truthy (baseTextOf m) = true ->
  screenAfterHistory cfg env m author = Some why ->
  let out := messageCreate chunkText formatAgentEnvelope cfg env st m in
  let entry := historyEntryOf m author in
  let channel := msg_channelId m in
  let older := historyOf st channel in
  out_ending out = Dropped why
  /\ out_sends out = []
  /\ out_generated out = None
  /\ last (historyOf (out_histories out) channel) = Some entry
  /\ (forall (between : list (Env * Message)) (env2 : Env) (m2 : Message)
             (ctx : MsgContext),
        (forall ev st',
            In ev between ->
            msg_channelId (snd ev) = channel ->
            out_generated
              (messageCreate chunkText formatAgentEnvelope cfg (fst ev) st'
                 (snd ev)) = None) ->
        msg_channelId m2 = channel ->
        isDirectMessage m2 = false ->
        let arrived :=
          fold_left (stepHistories chunkText formatAgentEnvelope cfg)
            between (out_histories out) in
        out_generated
          (messageCreate chunkText formatAgentEnvelope cfg env2 arrived m2)
        = Some ctx ->
        let later := recordedOn cfg channel (between ++ [(env2, m2)]) in
        exists author2 media2,
          msg_author m2 = Some author2
          /\ resolveMedia env2 m2 (mediaMaxBytes cfg) = inr media2
          /\ let rendered :=
               historyWithoutCurrent cfg m2
                 (recordHistory cfg m2 author2 arrived) in
             let current :=
               formatAgentEnvelope
                 (mkEnvelope "Discord" (fromLabelOf m2 author2)
                    (Some (msg_createdTimestamp m2))
                    (turnText m2 media2)) in
             rendered
             = dropLast
                 (shiftWhileOver (historyLimit cfg)
                    (older ++ entry :: later))
             /\ (later <> [] ->
                 Z.of_nat (List.length later) + 1 <= historyLimit cfg ->
                 exists k,
                   rendered = (drop k older ++ entry :: dropLast later)%list
                   /\ Body ctx
                      = withForwarded formatAgentEnvelope m2 author2
                          (withReplyContext formatAgentEnvelope env2 m2
                             (contextBlock formatAgentEnvelope m2 author2
                                rendered current
                              ++ nl ++ "[from: " ++ user_tag author2
                              ++ " user id:" ++ user_id author2 ++ "]")))
             /\ (later = [] -> exists k, rendered = drop k older)
             /\ (historyLimit cfg < Z.of_nat (List.length later) + 1 ->
                 exists k, rendered = dropLast (drop k later))).
Proof.
  intros Ha Hb Hs1 Hg Hl Ht Hs2 out entry channel older.
  assert (Hout : out = dropped (recordHistory cfg m author st) why).
  { subst out. unfold messageCreate. rewrite Ha, Hb, Hs1, Hs2. reflexivity. }
  assert (Hrec : recordsHistory cfg m = true).
  { unfold recordsHistory. rewrite Hg, Ht.
    replace (historyLimit cfg >? 0) with true
      by (symmetry; apply Z.gtb_lt; lia).
    reflexivity. }
  split; [rewrite Hout; reflexivity|].
  split; [rewrite Hout; reflexivity|].
  split; [rewrite Hout; reflexivity|].
  split.
  { rewrite Hout. cbn [out_histories dropped].
    apply recordHistory_last; assumption. }
  intros between env2 m2 ctx Hquiet Hch Hdm2 arrived Hgen later.
  destruct (handler_is_turn_or_quiet chunkText formatAgentEnvelope cfg env2
              arrived m2)
    as [(Hnone & _)
       |(author2 & media2 & Ha2 & Hb2 & Hb1 & _ & _ & Hmedia2 & _ & Hturn)].
  { rewrite Hnone in Hgen. discriminate. }
  exists author2, media2. split; [exact Ha2|]. split; [exact Hmedia2|].
  set (recorded2 := recordHistory cfg m2 author2 arrived).
  cbv zeta.
  (* the stored history when the context is rendered *)
  assert (Harrived : historyOf arrived channel
                     = shiftWhileOver (historyLimit cfg)
                         ((older ++ [entry])
                          ++ recordedOn cfg channel between)%list).
  { apply (fold_unanswered chunkText formatAgentEnvelope cfg channel between
             Hl (out_histories out) (older ++ [entry])%list Hquiet).
    rewrite Hout. cbn [out_histories dropped]. subst channel.
    rewrite historyOf_recordHistory_same, Hrec. reflexivity. }
  assert (Hown : recordedEntry cfg channel (env2, m2)
                 = if recordsHistory cfg m2
                   then [historyEntryOf m2 author2] else []).
  { unfold recordedEntry. cbn [snd]. rewrite Ha2, Hb2, Hb1, Hch.
    rewrite String.eqb_refl.
    rewrite <- (recordsHistory_textBearing cfg m2). reflexivity. }
  assert (Hlater : later
                   = (recordedOn cfg channel between
                      ++ recordedEntry cfg channel (env2, m2))%list).
  { subst later. unfold recordedOn. rewrite flat_map_app. simpl.
    rewrite app_nil_r. reflexivity. }
  assert (Hstored : historyOf recorded2 channel
                    = shiftWhileOver (historyLimit cfg)
                        (older ++ entry :: later)%list).
  { subst recorded2. rewrite <- Hch at 1.
    rewrite historyOf_recordHistory_same, Hch, Harrived, Hlater, Hown.
    destruct (recordsHistory cfg m2).
    - rewrite shiftWhileOver_push by lia.
      rewrite <- !app_assoc. reflexivity.
    - rewrite app_nil_r, <- app_assoc. reflexivity. }
  assert (Hrendered : historyWithoutCurrent cfg m2 recorded2
                      = dropLast
                          (shiftWhileOver (historyLimit cfg)
                             (older ++ entry :: later))).
  { unfold historyWithoutCurrent.
    replace (historyLimit cfg >? 0) with true
      by (symmetry; apply Z.gtb_lt; lia).
    rewrite Hch. fold (historyOf recorded2 channel). rewrite Hstored.
    generalize (shiftWhileOver (historyLimit cfg)
                  (older ++ entry :: later)%list).
    intros [|x l]; reflexivity. }
  destruct (shiftWhileOver_around (historyLimit cfg) older later entry Hl)
    as [Hfits Hfull].
  split; [exact Hrendered|]. split; [|split].
  - intros Hne Hroom. destruct (Hfits Hroom) as [k Hk].
    exists k.
    assert (Hlist : historyWithoutCurrent cfg m2 recorded2
                    = (drop k older ++ entry :: dropLast later)%list).
    { rewrite Hrendered, Hk. apply dropLast_app_cons, Hne. }
    split; [exact Hlist|].
    assert (Hctx : ctx
                   = ctxPayloadOf formatAgentEnvelope cfg env2 m2 author2
                       recorded2 media2 (turnText m2 media2)).
    { rewrite Hturn in Hgen.
      destruct (turn_not_direct chunkText formatAgentEnvelope cfg env2
                  recorded2 m2 author2 media2 (turnText m2 media2) Hdm2)
        as [Hgen' _].
      fold recorded2 in Hgen. rewrite Hgen' in Hgen. congruence. }
    rewrite Hctx. cbn [Body ctxPayloadOf]. unfold combinedBodyOf.
    rewrite (withHistory_entries formatAgentEnvelope cfg m2 author2
               recorded2 _ _ Hdm2 eq_refl).
    + reflexivity.
    + rewrite Hlist. destruct (drop k older); discriminate.
  - intros Hnil. rewrite Hnil in *.
    destruct Hfits as [k Hk]; [cbn; lia|].
    exists k. rewrite Hrendered, Hk. apply dropLast_snoc.
  - intros Hover. destruct (Hfull Hover) as [k Hk].
    exists k. rewrite Hrendered, Hk. reflexivity.
Qed.

Lemma C10_dropped_message_witness :
  last (historyOf (HistoryScene.afterDropped None) "7000")
  = Some (historyEntryOf (Fixture.guildMessage "m1" "one" false [])
            Fixture.alice)
  /\ map he_body
       (historyWithoutCurrent (Fixture.setup None None)
          (Fixture.guildMessage "m2" "two" true [])
          (recordHistory (Fixture.setup None None)
             (Fixture.guildMessage "m2" "two" true []) Fixture.alice
             (fold_left
                (stepHistories Fixture.chunkText Fixture.formatAgentEnvelope
                   (Fixture.setup None None))
                HistoryScene.between (HistoryScene.afterDropped None))))
     = ["one"; "between"].
Proof.
  destruct (C10_dropped_message_stays_in_history Fixture.chunkText
              Fixture.formatAgentEnvelope (Fixture.setup None None)
              HistoryScene.world ∅
              (Fixture.guildMessage "m1" "one" false []) Fixture.alice
              NoMention eq_refl eq_refl eq_refl eq_refl eq_refl eq_refl
              eq_refl) as (_ & _ & _ & Hlast & Hnext).
  split; [exact Hlast|].
  assert (Hquiet : forall ev st',
             In ev HistoryScene.between ->
             msg_channelId (snd ev) = "7000" ->
             out_generated
               (messageCreate Fixture.chunkText Fixture.formatAgentEnvelope
                  (Fixture.setup None None) (fst ev) st' (snd ev)) = None).
  { intros ev st' [<-|[]] _. reflexivity. }
  destruct (Hnext HistoryScene.between HistoryScene.world
              (Fixture.guildMessage "m2" "two" true []) _ Hquiet eq_refl
              eq_refl eq_refl)
    as (author2 & media2 & Ha2 & _ & Hrendered & _).
  injection Ha2 as <-.
  exact (eq_trans (f_equal (map he_body) Hrendered) eq_refl).
Defined.

(** An answered message that is not recorded itself, here a forwarded
    message without content of its own, takes the newest stored entry out
    of its context: right after the dropped message nothing is rendered,
    under the default limit of 20. *)
Example unrecorded_answer_hides_the_dropped_message :
  historyLimit (Fixture.setup None None) = 20
  /\ map he_body (historyOf (HistoryScene.afterDropped None) "7000")
     = ["one"]
  /\ recordsHistory (Fixture.setup None None)
       (HistoryScene.forwardedOnly "m2") = false
  /\ Body
     <$> out_generated
           (Fixture.handle (Fixture.setup None None) HistoryScene.world
              (HistoryScene.afterDropped None)
              (HistoryScene.forwardedOnly "m2"))
     = Some
         ("[Forwarded message]" ++ nl
          ++ "[Discord Forwarded by alice#0001 id:1001] <forwarded message>"
          ++ nl ++ nl
          ++ "[Discord Test Guild #general channel id:7000] "
          ++ "<forwarded message>" ++ nl
          ++ "[from: alice#0001 user id:1001]").
Proof. vm_compute. repeat split; reflexivity. Qed.
